(** * File-Flashcards: deck hierarchy

    A shallow embedding of [src/managers/pattern-hierarchy.ts] and of the
    hierarchy part of [src/types/deck.ts], with the properties of the
    specification stated over it.

    Conventions of the embedding:
    - a JavaScript string is a [string] of 8-bit characters, one per code
      unit; a string with a code unit beyond 255 has no counterpart here, and
      where a result depends on such characters the theorem is stated for
      ASCII strings;
    - a [Deck] object is addressed by its position in the [Set<Deck>] handed to
      [buildDeckHierarchy] (object identity [===] is equality of positions);
    - the private field [children : Set<Deck>] of every deck lives in a store
      keyed by deck position; a [Set] keeps its entries in insertion order and
      an iteration over it observes entries added or deleted meanwhile, as
      ECMAScript prescribes;
    - the recursion of [addChild] and the length of its iterations are bounded
      by a fuel argument; [None] stands for "has not returned within the
      fuel", and a result does not change with more fuel
      ([buildDeckHierarchy_mono]);
    - the collaborators of [buildDecks] outside the repository (minimatch,
      Obsidian's metadata cache, ts-fsrs) and the parsing of dates and numbers
      are section variables. *)

From Stdlib Require Import String Ascii List Arith Lia Bool Permutation Sorted.
From Stdlib Require DecimalString.
From stdpp Require Import gmap strings list.
Import ListNotations.
Local Open Scope string_scope.

(** ** JavaScript string primitives *)

Module JS.

(** [s.startsWith(p)] *)
Fixpoint startsWith (s p : string) : bool :=
  match p, s with
  | EmptyString, _ => true
  | String c p', String d s' => Ascii.eqb c d && startsWith s' p'
  | String _ _, EmptyString => false
  end.

(** [s.includes(sub)] *)
Fixpoint includes (s sub : string) : bool :=
  startsWith s sub ||
  match s with
  | EmptyString => false
  | String _ s' => includes s' sub
  end.

(** [s.endsWith(p)] *)
Fixpoint endsWith (s p : string) : bool :=
  String.eqb s p ||
  match s with
  | EmptyString => false
  | String _ s' => endsWith s' p
  end.

(** [s.split(sep)] for a non-empty separator: the pieces between the
    occurrences of [sep], found left to right without overlap.  [skip] counts
    the characters of a separator still to be passed over, [cur] is the piece
    being collected. *)
Fixpoint split_from (sep : string) (skip : nat) (cur s : string) : list string :=
  match s with
  | EmptyString => [cur]
  | String c s' =>
      match skip with
      | S k => split_from sep k cur s'
      | O =>
          if startsWith s sep
          then cur :: split_from sep (String.length sep - 1) EmptyString s'
          else split_from sep 0 (cur ++ String c EmptyString) s'
      end
  end.

Definition split (s sep : string) : list string := split_from sep 0 EmptyString s.

(** [s.split(sep)[0]] *)
Definition split_head (s sep : string) : string :=
  match split s sep with
  | x :: _ => x
  | [] => EmptyString
  end.

(** [s.replace(pat, by)] with a string pattern: the first occurrence only. *)
Fixpoint drop (n : nat) (s : string) : string :=
  match n, s with
  | S k, String _ s' => drop k s'
  | _, _ => s
  end.

Fixpoint replace (s pat by_ : string) : string :=
  if startsWith s pat then by_ ++ drop (String.length pat) s
  else match s with
       | EmptyString => EmptyString
       | String c s' => String c (replace s' pat by_)
       end.

(** *** Regular expressions

    The regular expressions of the source are sequences of literal
    characters and of greedy [cls+] repetitions of a character class, some
    of them capturing, anchored at the start and/or at the end. *)

Inductive atom : Type :=
| Chr (c : ascii)                   (* a literal character *)
| Many1 (cls : ascii -> bool)       (* cls+ *)
| Group1 (cls : ascii -> bool).     (* (cls+) *)

Record regex : Type := Regex {
  anchored_start : bool;            (* ^ *)
  atoms : list atom;
  anchored_end : bool               (* $ *)
}.

(** [\w] *)
Definition word (c : ascii) : bool :=
  let n := nat_of_ascii c in
  (((65 <=? n) && (n <=? 90)) || ((97 <=? n) && (n <=? 122))
   || ((48 <=? n) && (n <=? 57)) || (n =? 95))%nat.

(** [.] : anything but a line terminator; among the 8-bit characters these
    are LF and CR (the other two, U+2028 and U+2029, are beyond them) *)
Definition dot (c : ascii) : bool :=
  let n := nat_of_ascii c in negb ((n =? 10) || (n =? 13))%nat.

(** [[^/]] *)
Definition not_slash (c : ascii) : bool := negb (Ascii.eqb c "/"%char).

(** Backtracking match of [atoms] at the head of [s]; a repetition first tries
    to take one more character and gives characters back on failure.  The
    result is the list of captured groups. *)
Fixpoint match_here (at_end : bool) (l : list atom) (s : string) : option (list string) :=
  match l with
  | [] =>
      if at_end then match s with EmptyString => Some [] | _ => None end
      else Some []
  | a :: l' =>
      let many (cls : ascii -> bool) (capture : bool) :=
        (fix many (taken s : string) : option (list string) :=
           match s with
           | EmptyString => None
           | String c s' =>
               if cls c then
                 let taken' := taken ++ String c EmptyString in
                 match many taken' s' with
                 | Some r => Some r
                 | None =>
                     match match_here at_end l' s' with
                     | Some r => Some (if capture then taken' :: r else r)
                     | None => None
                     end
                 end
               else None
           end) EmptyString s in
      match a with
      | Chr c =>
          match s with
          | String d s' => if Ascii.eqb c d then match_here at_end l' s' else None
          | EmptyString => None
          end
      | Many1 cls => many cls false
      | Group1 cls => many cls true
      end
  end.

Fixpoint search (at_end : bool) (l : list atom) (s : string) : option (list string) :=
  match match_here at_end l s with
  | Some r => Some r
  | None =>
      match s with
      | EmptyString => None
      | String _ s' => search at_end l s'
      end
  end.

(** [s.match(re)]: the captured groups [m[1], m[2], ...], or [None] for [null]. *)
Definition match_ (s : string) (re : regex) : option (list string) :=
  if anchored_start re then match_here (anchored_end re) (atoms re) s
  else search (anchored_end re) (atoms re) s.

(** [m[i]] for [i >= 1] *)
Definition group (i : nat) (m : list string) : string := nth (i - 1) m EmptyString.

End JS.

(** ** [src/managers/pattern-hierarchy.ts] *)

Module PatternHierarchy.
Import JS.

Definition re_ext : regex :=            (* /\*\.(\w+)$/ *)
  Regex false [Chr "*"; Chr "."; Group1 word] true.
Definition re_prefix : regex :=         (* /^(\w+)-\*/ *)
  Regex true [Group1 word; Chr "-"; Chr "*"] false.
Definition re_global_ext : regex :=     (* /^\*\*\.(\w+)$/ *)
  Regex true [Chr "*"; Chr "*"; Chr "."; Group1 word] true.
Definition re_root_ext : regex :=       (* /^\*\.(\w+)$/ *)
  Regex true [Chr "*"; Chr "."; Group1 word] true.
Definition re_exact : regex :=          (* /^([^/]+)\.(\w+)$/ *)
  Regex true [Group1 not_slash; Chr "."; Group1 word] true.
Definition re_subdir : regex :=         (* /^.+\/([^/]+)\.(\w+)$/ *)
  Regex true [Many1 dot; Chr "/"; Group1 not_slash; Chr "."; Group1 word] true.
Definition re_prefixed : regex :=       (* /^(.+)-\*\.(\w+)$/ *)
  Regex true [Group1 dot; Chr "-"; Chr "*"; Chr "."; Group1 word] true.
Definition re_named : regex :=          (* /^(.+)\.(\w+)$/ *)
  Regex true [Group1 dot; Chr "."; Group1 word] true.

Definition isDirectoryChild (child parent : string) : bool :=
  if includes child "/" && includes parent "/" then
    let childDir := split_head child "/**" in
    let parentDir := split_head parent "/**" in
    startsWith childDir (parentDir ++ "/") && negb (String.eqb childDir parentDir)
  else false.

(** The loop over the path segments of [areIncompatible]: both branches of the
    inner test return [true]. *)
Fixpoint segments_conflict (childParts parentParts : list string) : bool :=
  match childParts, parentParts with
  | childPart :: cs, parentPart :: ps =>
      if negb (includes childPart "*") && negb (includes parentPart "*") then
        if negb (String.eqb childPart parentPart) then
          if includes childPart parentPart || includes parentPart childPart
          then true
          else true
        else segments_conflict cs ps
      else segments_conflict cs ps
  | _, _ => false
  end.

Definition areIncompatible (child parent : string) : bool :=
  let childExt := match_ child re_ext in
  let parentExt := match_ parent re_ext in
  match childExt, parentExt with
  | Some c, Some p => negb (String.eqb (group 1 c) (group 1 p))
  | _, _ => false
  end
  ||
  (let childPrefix := match_ child re_prefix in
   let parentPrefix := match_ parent re_prefix in
   match childPrefix, parentPrefix with
   | Some c, Some p => negb (String.eqb (group 1 c) (group 1 p))
   | _, _ => false
   end
   || segments_conflict (split child "/") (split parent "/")).

Definition isFilenamePattern (child parent : string) : bool :=
  let global :=
    match match_ parent re_global_ext with
    | Some parentGlobalMatch =>
        let parentExt := group 1 parentGlobalMatch in
        match match_ child re_root_ext with
        | Some childRootMatch => String.eqb (group 1 childRootMatch) parentExt
        | None => false
        end
        ||
        match match_ child re_exact with
        | Some childExactMatch =>
            negb (includes child "*") && String.eqb (group 2 childExactMatch) parentExt
        | None => false
        end
        ||
        match match_ child re_subdir with
        | Some childSubdirMatch =>
            negb (includes child "*") && String.eqb (group 2 childSubdirMatch) parentExt
        | None => false
        end
    | None => false
    end in
  if global then true
  else if includes child "/" || includes parent "/" then false
  else
    match match_ parent re_root_ext with
    | None => false
    | Some parentMatch =>
        let parentExt := group 1 parentMatch in
        match match_ child re_prefixed with
        | Some childPatternMatch => String.eqb (group 2 childPatternMatch) parentExt
        | None =>
            match match_ child re_named with
            | Some childExactMatch =>
                if negb (includes child "*")
                then String.eqb (group 2 childExactMatch) parentExt
                else false
            | None => false
            end
        end
    end.

Definition isMoreSpecific (child parent : string) : bool :=
  if String.eqb parent "**" then negb (String.eqb child "**")
  else if String.eqb parent "*" then
    negb (includes child "/") && negb (String.eqb child "*") && negb (includes child "**")
  else if String.eqb parent "**/*" then
    if String.eqb child "**" then false
    else if negb (String.eqb child "*/**") then true else true
  else if String.eqb parent "*/**" then
    includes child "/" && negb (String.eqb child "*") && negb (String.eqb child "**")
    && negb (String.eqb child "**/*")
  else if isFilenamePattern child parent then true
  else if endsWith parent "/**" && startsWith child (replace parent "/**" "/") then true
  else false.

Definition isSubset (child parent : string) : bool :=
  if String.eqb child parent then false
  else if String.eqb child "" || String.eqb parent "" then false
  else if isDirectoryChild child parent then true
  else if areIncompatible child parent then false
  else isMoreSpecific child parent.

End PatternHierarchy.

(** ** JavaScript [Set<Deck>]

    The entries of a [Set] in insertion order; [delete] empties an entry in
    place (so that a running iteration keeps its position) and [add] appends
    when the value is absent. *)
Abbreviation JSSet := (list (option nat)).

Definition Set_has (x : nat) (l : JSSet) : bool := bool_decide (Some x ∈ l).

Definition Set_add (x : nat) (l : JSSet) : JSSet :=
  if Set_has x l then l else (l ++ [Some x])%list.

Definition Set_delete (x : nat) (l : JSSet) : JSSet :=
  (fun e => if bool_decide (e = Some x) then None else e) <$> l.

(** The values an iteration started now would visit. *)
Definition Set_values (l : JSSet) : list nat := omap id l.

(** The [children] field of every deck. *)
Abbreviation Store := (gmap nat JSSet).

Definition children (s : Store) (d : nat) : JSSet := s !!! d.

Definition set_children (d : nat) (l : JSSet) (s : Store) : Store := <[d := l]> s.

(** [for (const x of xs) body] over an array that the body does not touch *)
Fixpoint for_each {A St : Type} (body : A -> St -> option St) (xs : list A) (st : St)
  : option St :=
  match xs with
  | [] => Some st
  | x :: xs' =>
      match body x st with
      | Some st' => for_each body xs' st'
      | None => None
      end
  end.

(** ** [src/types/card.ts], [src/types/deck.ts]: the data *)

Section Model.

(** The scheduling record of ts-fsrs, which the hierarchy never inspects. *)
Context {FSRSCard : Type}.

Record Card : Type := mkCard {
  path : string;          (* file path relative to the vault *)
  question : string;
  sr : FSRSCard
}.

Record Deck : Type := mkDeck {
  pattern : string;
  cards : list Card
}.

(** *** [Deck.isChildOf]

    [Array.from(new Set(paths)).every(p => otherSet.has(p))] visits every
    path of [this] (duplicates removed, which [every] cannot observe). *)
Definition isChildOf (this other : Deck) : bool :=
  if (length (cards other) <? length (cards this))%nat then false
  else if (0 <? length (cards this))%nat && (0 <? length (cards other))%nat then
    let thisCardPaths := map path (cards this) in
    let otherCardPaths := map path (cards other) in
    let result :=
      forallb (fun p => existsb (String.eqb p) otherCardPaths) thisCardPaths in
    if result && (length (cards this) =? length (cards other))%nat
    then PatternHierarchy.isSubset (pattern this) (pattern other)
    else result
  else PatternHierarchy.isSubset (pattern this) (pattern other).

Section Hierarchy.

(** The decks of the set, in insertion order. *)
Variable decks : list Deck.

(** [decks[i].isChildOf(decks[j])] *)
Definition childOf (i j : nat) : bool :=
  match decks !! i, decks !! j with
  | Some a, Some b => isChildOf a b
  | _, _ => false
  end.

(** *** [Deck.addChild]

    First loop of [this.addChild(child)], resumed at entry [i] of
    [this.children]: [for (const existing of this.children)
    if (child.isChildOf(existing)) { existing.addChild(child); added = true }].
    [rec] is [addChild] itself. *)
Fixpoint addChild_nest (rec : nat -> nat -> Store -> option Store)
    (this child : nat) (steps i : nat) (added : bool) (s : Store)
  : option (bool * Store) :=
  match steps with
  | O => None
  | S steps' =>
      match children s this !! i with
      | None => Some (added, s)
      | Some None => addChild_nest rec this child steps' (S i) added s
      | Some (Some existing) =>
          if childOf child existing then
            match rec existing child s with
            | Some s' => addChild_nest rec this child steps' (S i) true s'
            | None => None
            end
          else addChild_nest rec this child steps' (S i) added s
      end
  end.

(** Second loop: [for (const existing of this.children)
    if (existing.isChildOf(child)) { toRemove.add(existing); child.addChild(existing) }]. *)
Fixpoint addChild_reparent (rec : nat -> nat -> Store -> option Store)
    (this child : nat) (steps i : nat) (toRemove : JSSet) (s : Store)
  : option (JSSet * Store) :=
  match steps with
  | O => None
  | S steps' =>
      match children s this !! i with
      | None => Some (toRemove, s)
      | Some None => addChild_reparent rec this child steps' (S i) toRemove s
      | Some (Some existing) =>
          if childOf existing child then
            match rec child existing s with
            | Some s' =>
                addChild_reparent rec this child steps' (S i)
                  (Set_add existing toRemove) s'
            | None => None
            end
          else addChild_reparent rec this child steps' (S i) toRemove s
      end
  end.

(** [for (const deck of toRemove) this.children.delete(deck)] *)
Definition delete_all (this : nat) (toRemove : JSSet) (s : Store) : Store :=
  foldl (fun s deck => set_children this (Set_delete deck (children s this)) s)
        s (Set_values toRemove).

Fixpoint addChild (fuel : nat) (this child : nat) (s : Store) : option Store :=
  match fuel with
  | O => None
  | S fuel' =>
      if Set_has child (children s this) then Some s
      else
        match addChild_nest (addChild fuel') this child fuel 0 false s with
        | None => None
        | Some (true, s1) => Some s1
        | Some (false, s1) =>
            match addChild_reparent (addChild fuel') this child fuel 0 [] s1 with
            | None => None
            | Some (toRemove, s2) =>
                let s3 := delete_all this toRemove s2 in
                Some (set_children this (Set_add child (children s3 this)) s3)
            end
        end
  end.

(** *** [Deck.buildDeckHierarchy]

    The body of the two nested loops for one pair [(deck, other)]. *)
Definition relate (fuel : nat) (deck other : nat) (st : Store * JSSet)
  : option (Store * JSSet) :=
  if (deck =? other)%nat then Some st
  else if childOf deck other then
    match addChild fuel other deck st.1 with
    | Some s' => Some (s', Set_add deck st.2)
    | None => None
    end
  else Some st.

(** The result is the pair of the set [decks] after the deferred removals
    (the top level) and the [children] fields. *)
Definition buildDeckHierarchy (fuel : nat) : option (JSSet * Store) :=
  let ids := seq 0 (length decks) in
  match for_each (fun deck => for_each (relate fuel deck) ids) ids (∅, []) with
  | None => None
  | Some (s, toRemove) =>
      Some (foldl (fun top deck => Set_delete deck top) (Some <$> ids)
                  (Set_values toRemove), s)
  end.

(** Readings of a built hierarchy. *)
Definition roots (r : JSSet * Store) : list nat := Set_values r.1.

Definition childrenOf (r : JSSet * Store) (d : nat) : list nat :=
  Set_values (children r.2 d).

Definition patternOf (d : nat) : string :=
  match decks !! d with
  | Some x => pattern x
  | None => EmptyString
  end.

End Hierarchy.

(** ** [Deck.buildDecks] *)

(** [src/types/validation.ts] *)
Inductive ValidationErrorType : Type :=
| NON_STRING_FIELD_TYPE | MALFORMED_ENTRY | UNKNOWN_FIELD | MISSING_REQUIRED_FIELD
| INVALID_DATE_FORMAT | NON_NUMERIC_VALUE | INVALID_VALUE_BOUNDS
| FLOAT_VALUE_NOT_ALLOWED | INVALID_STATE_VALUE | FILE_SYSTEM_ERROR | ALGORITHM_ERROR.

(** [src/types/settings.ts] *)
Record FileFlashcardsSettings : Type := mkSettings {
  include : list string;
  exclude : list string;
  maxPerDay : nat;            (* 0 = unlimited *)
  showBadge : bool
}.

(** Obsidian's [TFile], as far as it is read here. *)
Record TFile : Type := mkFile {
  file_path : string;
  basename : string;
  extension : string
}.

Section BuildDecks.

(** [JSValue] is the type [unknown] of the field [value] of an error,
    [FrontMatterCache] Obsidian's parsed frontmatter. *)
Context {JSValue FrontMatterCache : Type}.

Record ValidationError : Type := mkError {
  filePath : option string;
  type : ValidationErrorType;
  field : option string;
  value : option JSValue;
  message : option string;
  suggestion : option string
}.

Record ValidationResult : Type := mkResult {
  errors : list ValidationError;
  card : option FSRSCard
}.

(** The collaborators of [buildDecks]: the glob matcher [minimatch(path,
    pattern)], the lookup [metadataCache.getFileCache(file)?.frontmatter], the
    two frontmatter keys that are read, [CardStorage.validateAndParseFrontmatter]
    (dates and floating-point numbers) and ts-fsrs's [createEmptyCard()]. *)
Variable minimatch : string -> string -> bool.
Variable frontmatterOf : TFile -> option FrontMatterCache.
Variable flashcard_question : FrontMatterCache -> option string.
Variable spaced_repetition : FrontMatterCache -> option (list JSValue).
Variable validateAndParseFrontmatter : option (list JSValue) -> ValidationResult.
Variable createEmptyCard : FSRSCard.

(** [CardStorage.fromFrontmatter] *)
Definition fromFrontmatter (srData : option (list JSValue))
  : FSRSCard + list ValidationError :=
  let result := validateAndParseFrontmatter srData in
  if negb (length (errors result) =? 0)%nat then inr (errors result)
  else inl (match card result with Some c => c | None => createEmptyCard end).

(** [Card.init]. [flashcard_question] reads [frontmatter['flashcard-question']]
    as the string that the field [question] is declared to hold; [a || b] on
    strings takes [b] when [a] is undefined or empty. A value of another type
    under that key is outside what [question : string] can hold here. *)
Definition Card_init (file : TFile) (frontmatter : option FrontMatterCache)
  : Card + list ValidationError :=
  let path := file_path file in
  let question :=
    match frontmatter ≫= flashcard_question with
    | Some q => if String.eqb q "" then basename file else q
    | None => basename file
    end in
  match fromFrontmatter (frontmatter ≫= spaced_repetition) with
  | inr result =>
      inr ((fun err => mkError (Some path) (type err) (field err) (value err)
                               (message err) (suggestion err)) <$> result)
  | inl result => inl (mkCard path question result)
  end.

(** [Deck.filterFiles] *)
Definition filterFiles (allFiles : list TFile) (includePatterns excludePatterns : list string)
  : list TFile :=
  if (length includePatterns =? 0)%nat then []
  else
    filter (fun file =>
      Is_true (
        if negb (String.eqb (extension file) "md") then false
        else
          let path := file_path file in
          let included := existsb (fun pattern => minimatch path pattern) includePatterns in
          if negb included then false
          else
            let excluded := existsb (fun pattern => minimatch path pattern) excludePatterns in
            negb excluded)) allFiles.

(** The variables of [buildDecks] that the callback of [forEach] updates. *)
Record Collected : Type := mkCollected {
  cardsOf : list Card;                       (* [cards], of the current pattern *)
  allErrors : list ValidationError;
  errorProcessedFiles : list string          (* a [Set<string>] *)
}.

(** The callback of [filteredFiles.forEach]. *)
Definition visit_file (st : Collected) (file : TFile) : Collected :=
  if existsb (String.eqb (file_path file)) (errorProcessedFiles st) then st
  else
    let frontmatter := frontmatterOf file in
    match Card_init file frontmatter with
    | inr result =>
        mkCollected (cardsOf st) (allErrors st ++ result)%list
                    (errorProcessedFiles st ++ [file_path file])%list
    | inl result =>
        mkCollected (cardsOf st ++ [result])%list (allErrors st) (errorProcessedFiles st)
    end.

(** The body of [for (const pattern of settings.include)]. *)
Definition visit_pattern (allFiles : list TFile) (settings : FileFlashcardsSettings)
    (acc : list Deck * Collected) (pattern : string) : list Deck * Collected :=
  let filteredFiles := filterFiles allFiles [pattern] (exclude settings) in
  let st := foldl visit_file
                  (mkCollected [] (allErrors acc.2) (errorProcessedFiles acc.2))
                  filteredFiles in
  ((acc.1 ++ [mkDeck pattern (cardsOf st)])%list, st).

Definition collect (allFiles : list TFile) (settings : FileFlashcardsSettings)
  : list Deck * Collected :=
  foldl (visit_pattern allFiles settings) ([], mkCollected [] [] []) (include settings).

(** A returned [Set<Deck>] is the list of all decks built together with the
    top-level set and the [children] fields left by [buildDeckHierarchy]. *)
Definition buildDecks (fuel : nat) (allFiles : list TFile) (settings : FileFlashcardsSettings)
  : option (list Deck * (JSSet * Store) + list ValidationError) :=
  let (decks, st) := collect allFiles settings in
  match buildDeckHierarchy decks fuel with
  | None => None
  | Some h =>
      Some (if (length (allErrors st) =? 0)%nat then inl (decks, h)
            else inr (allErrors st))
  end.

(** *** Readings of a run of [buildDecks] *)

(** The files that [buildDecks] visits, pattern after pattern. *)
Definition matched_files (allFiles : list TFile) (settings : FileFlashcardsSettings)
  : list TFile :=
  flat_map (fun pattern => filterFiles allFiles [pattern] (exclude settings))
           (include settings).

(** The errors that a file contributes. *)
Definition file_errors (file : TFile) : list ValidationError :=
  match Card_init file (frontmatterOf file) with
  | inr result => result
  | inl _ => []
  end.

Definition failing (file : TFile) : Prop :=
  exists result, Card_init file (frontmatterOf file) = inr result.

(** The errors collected so far are those of the failing files among the
    visited ones, each path once. *)
Definition collected (visited : list TFile) (st : Collected) : Prop :=
  exists fs,
    allErrors st = flat_map file_errors fs /\
    errorProcessedFiles st = file_path <$> fs /\
    NoDup (file_path <$> fs) /\
    (forall f, f ∈ fs -> f ∈ visited /\ failing f) /\
    (forall f, f ∈ visited -> failing f -> file_path f ∈ (file_path <$> fs)).

End BuildDecks.

End Model.

Arguments Card : clear implicits.
Arguments Deck : clear implicits.
Arguments ValidationError : clear implicits.
Arguments ValidationResult : clear implicits.
Arguments Collected : clear implicits.

(** ** Reachability in the store *)

(** [desc s p x]: [x] is reached from [p] through one or more [children] sets. *)
Inductive desc (s : Store) : nat -> nat -> Prop :=
| desc_child p c : Some c ∈ children s p -> desc s p c
| desc_step p e c : Some e ∈ children s p -> desc s e c -> desc s p c.

(** ** Readings of a built forest by deck value *)

(** Deck [a] is at the top level of the result [r] of building [decks]. *)
Definition root_deck {F : Type} (decks : list (Deck F)) (r : JSSet * Store)
    (a : Deck F) : Prop :=
  exists i, i ∈ roots r /\ decks !! i = Some a.

(** Deck [b] is a member of the [children] set of deck [a]. *)
Definition child_deck {F : Type} (decks : list (Deck F)) (r : JSSet * Store)
    (a b : Deck F) : Prop :=
  exists i j, decks !! i = Some a /\ decks !! j = Some b /\ j ∈ childrenOf r i.

(** Two built forests are structurally identical: the same decks at the top
    level and the same members in the [children] set of every deck. *)
Definition same_forest {F : Type} (l1 : list (Deck F)) (r1 : JSSet * Store)
    (l2 : list (Deck F)) (r2 : JSSet * Store) : Prop :=
  (forall a, root_deck l1 r1 a <-> root_deck l2 r2 a) /\
  (forall a b, child_deck l1 r1 a b <-> child_deck l2 r2 a b).

(** The patterns at the top level, and the patterns of the members of the
    [children] sets of the decks whose pattern is [p]. *)
Definition rootPatterns {F : Type} (decks : list (Deck F)) (r : JSSet * Store)
  : list string :=
  patternOf decks <$> roots r.

Definition childPatterns {F : Type} (decks : list (Deck F)) (r : JSSet * Store)
    (p : string) : list string :=
  flat_map (fun i => if String.eqb (patternOf decks i) p
                     then patternOf decks <$> childrenOf r i else [])
           (seq 0 (length decks)).

(** ** Scenarios *)

(** A deck without cards, as the tests of the repository build them. *)
Definition emptyDeck (p : string) : Deck unit := mkDeck p [].

Definition forest_patterns : list string :=
  ["**"; "**/*"; "*"; "Work/**"; "README.md"].

(** What the specification expects of the forest scenario. *)
Definition forest_expected (decks : list (Deck unit)) (r : JSSet * Store) : Prop :=
  rootPatterns decks r = ["**"] /\
  childPatterns decks r "**" = ["**/*"] /\
  childPatterns decks r "**/*" ≡ₚ ["*"; "Work/**"] /\
  childPatterns decks r "*" = ["README.md"] /\
  childPatterns decks r "Work/**" = [] /\
  childPatterns decks r "README.md" = [].

#[local] Instance forest_expected_dec decks r : Decision (forest_expected decks r).
Proof. unfold forest_expected. apply _. Defined.

Definition forest_check (l : list string) : bool :=
  match buildDeckHierarchy (emptyDeck <$> l) 30 with
  | Some r => bool_decide (forest_expected (emptyDeck <$> l) r)
  | None => false
  end.

(** Two patterns that [isSubset] orders in both directions. *)
Definition cyclic_decks : list (Deck unit) := emptyDeck <$> ["**/*"; "**/**"].

(** The same two with a third pattern below both. *)
Definition looping_decks : list (Deck unit) :=
  emptyDeck <$> ["**/*"; "**/**"; "**/*.md"].

(** A pattern below two unrelated patterns. *)
Definition diamond_decks : list (Deck unit) := emptyDeck <$> ["*"; "**.md"; "README.md"].

Definition note : Card unit := mkCard "note.md" "note" tt.

(** A vault with the files [x/a.md] and [w/b.md] and the include patterns
    ["**"], ["**/*.md"], ["x/**"] and ["x/y/**"], in two insertion orders.
    The last pattern matches no file. *)
Definition file_a : Card unit := mkCard "x/a.md" "a" tt.
Definition file_b : Card unit := mkCard "w/b.md" "b" tt.
Definition deck_all : Deck unit := mkDeck "**" [file_a; file_b].
Definition deck_md : Deck unit := mkDeck "**/*.md" [file_a; file_b].
Definition deck_x : Deck unit := mkDeck "x/**" [file_a].
Definition deck_xy : Deck unit := mkDeck "x/y/**" [].

Definition vault_order_1 : list (Deck unit) := [deck_all; deck_xy; deck_md; deck_x].
Definition vault_order_2 : list (Deck unit) := [deck_all; deck_x; deck_xy; deck_md].

(** A chain of three patterns, and two decks with the same card and unrelated
    patterns. *)
Definition chain_decks : list (Deck unit) := emptyDeck <$> ["**"; "*"; "README.md"].
Definition tie_decks : list (Deck unit) := [mkDeck "x*" [note]; mkDeck "y*" [note]].

(** Four patterns without cards, in two insertion orders: ["chapter-*.md"] is
    a subset of ["*.md"] and ["*.md"] of ["**.md"], but ["chapter-*.md"] is not
    a subset of ["**.md"]. *)
Definition markdown_order_1 : list (Deck unit) :=
  emptyDeck <$> ["**"; "*.md"; "chapter-*.md"; "**.md"].
Definition markdown_order_2 : list (Deck unit) :=
  emptyDeck <$> ["**"; "**.md"; "*.md"; "chapter-*.md"].

(** Three decks with one, two and three cards and unrelated patterns. *)
Definition growing_1 : Deck unit := mkDeck "x/**" [file_a].
Definition growing_2 : Deck unit := mkDeck "notes" [file_b; file_a].
Definition growing_3 : Deck unit := mkDeck "todo" [note; file_a; file_b].

(** The [children] fields of the chain once built. *)
Definition chain_store : Store := <[0 := [Some 1]]> (<[1 := [Some 2]]> ∅).

(** The store of the looping scenario once its first two decks are related. *)
Definition looping_store : Store := <[0 := [Some 1]]> (<[1 := [Some 0]]> ∅).

(** The settings of the looping scenario. *)
Definition looping_settings : FileFlashcardsSettings :=
  mkSettings ["**/*"; "**/**"; "**/*.md"] [] 0 true.

(** ** Vocabulary of the statements *)

(** Every member of a [children] set is a child, by [isChildOf], of the owner. *)
Definition below {F : Type} (decks : list (Deck F)) (s : Store) : Prop :=
  forall p c, Some c ∈ children s p -> childOf decks c p = true.

(** No member of a [children] set is a child of a descendant of the owner. *)
Definition maximal {F : Type} (decks : list (Deck F)) (s : Store) : Prop :=
  forall p k x, Some k ∈ children s p -> desc s p x -> childOf decks k x = false.

(** [isChildOf] is transitive on the decks of the list. *)
Definition transitive_on {F : Type} (decks : list (Deck F)) : Prop :=
  forall a b c, a ∈ decks -> b ∈ decks -> c ∈ decks ->
    isChildOf a b = true -> isChildOf b c = true -> isChildOf a c = true.

(** A decidable test of [transitive_on]. *)
Definition transitive_check {F : Type} (decks : list (Deck F)) : bool :=
  forallb (fun a => forallb (fun b => forallb (fun c =>
    implb (isChildOf a b && isChildOf b c) (isChildOf a c)) decks) decks) decks.

(** The number of decks that are children, by [isChildOf], of deck [p]. *)
Definition rank {F : Type} (decks : list (Deck F)) (p : nat) : nat :=
  length (filter (fun x => Is_true (childOf decks x p)) (seq 0 (length decks))).

(** A function used for the recursive calls of [addChild] keeps [below]. *)
Definition keeps_below {F : Type} (decks : list (Deck F))
    (rec : nat -> nat -> Store -> option Store) : Prop :=
  forall p c s s',
    childOf decks c p = true -> below decks s -> rec p c s = Some s' -> below decks s'.

(** Whatever [rec] returns, [rec'] returns. *)
Definition refines (rec rec' : nat -> nat -> Store -> option Store) : Prop :=
  forall p c s s', rec p c s = Some s' -> rec' p c s = Some s'.

(** The invariant of the store when [isChildOf] is transitive. *)
Definition inv {F : Type} (decks : list (Deck F)) (s : Store) : Prop :=
  below decks s /\ maximal decks s.

(** Descendants are never lost from [s] to [s']. *)
Definition mono (s s' : Store) : Prop := forall q x, desc s q x -> desc s' q x.

(** From [s] to [s'] only the [children] of decks strictly below [p] changed. *)
Definition frame_lt {F : Type} (decks : list (Deck F)) (p : nat) (s s' : Store) : Prop :=
  forall q, childOf decks q p = false -> children s' q = children s q.

(** What a call [p.addChild(c)] achieves from [s] to [s']. *)
Definition adds {F : Type} (decks : list (Deck F)) (p c : nat) (s s' : Store) : Prop :=
  inv decks s' /\ mono s s' /\ desc s' p c /\
  forall q, q <> p -> childOf decks q p = false -> children s' q = children s q.

(** [addChild] returns, with enough fuel, on every deck of rank below [h]. *)
Definition returns_below {F : Type} (decks : list (Deck F)) (h : nat) : Prop :=
  forall p c s, rank decks p < h -> inv decks s -> childOf decks c p = true ->
    exists f0 s', (forall f, f0 <= f -> addChild decks f p c s = Some s') /\
                  adds decks p c s s'.

(** [q] is under [p]: a chain of [isChildOf] leads from [q] up to [p]. *)
Definition under {F : Type} (decks : list (Deck F)) (q p : nat) : Prop :=
  tc (fun a b => childOf decks a b = true) q p.

(** [isChildOf] has no cycle among the decks. *)
Definition acyclic_on {F : Type} (decks : list (Deck F)) : Prop :=
  forall x, ~ under decks x x.

(** A test of [acyclic_on]: [h] ranks every deck below the decks it is a child
    of. *)
Definition rank_check {F : Type} (decks : list (Deck F)) (h : nat -> nat) : bool :=
  forallb (fun a => forallb (fun b => implb (childOf decks a b) (h a <? h b)%nat)
                            (seq 0 (length decks)))
          (seq 0 (length decks)).

(** The decks whose [children] a call [p.addChild(c)] may change: [p] and the
    decks under [p]. *)
Definition region {F : Type} (decks : list (Deck F)) (p q : nat) : Prop :=
  q = p \/ under decks q p.

(** From [s] to [s'] only the [children] of the decks of [P] changed, and a
    member of a [children] set is still there or has moved to the set of a
    deck of [P]. *)
Definition moves (P : nat -> Prop) (s s' : Store) : Prop :=
  (forall q, ~ P q -> children s' q = children s q) /\
  (forall x q, Some x ∈ children s q ->
     Some x ∈ children s' q \/ exists q', P q' /\ Some x ∈ children s' q').

(** [x] is a member of some [children] set. *)
Definition placed (s : Store) (x : nat) : Prop := exists q, Some x ∈ children s q.

(** [addChild] returns, with enough fuel, on every child of [p]. *)
Definition returns_under {F : Type} (decks : list (Deck F)) (p : nat) : Prop :=
  forall p', childOf decks p' p = true ->
  forall c s, below decks s -> childOf decks c p' = true ->
    exists f0 s', (forall f, f0 <= f -> addChild decks f p' c s = Some s') /\
                  moves (region decks p') s s' /\
                  exists q, region decks p' q /\ Some c ∈ children s' q.

(** ** Callers and further functions of the repository *)

(** *** [main.ts]: [asSingleDeck]

    [this.decks] is the top-level set left by [buildDecks]; [size] counts the
    live entries of a set. *)
Definition asSingleDeck (r : JSSet * Store) : option nat :=
  if negb (length (roots r) =? 1)%nat then None
  else
    match roots r with
    | firstDeck :: _ =>
        if (length (childrenOf r firstDeck) =? 0)%nat then Some firstDeck else None
    | [] => None
    end.

(** *** Scenario: a small vault and two include patterns

    Collaborators for the scenarios: every path matches every pattern, only
    [a.md] has frontmatter (a [spaced-repetition] list of one entry), and
    validation rejects every non-empty list. *)
Definition file_bad : TFile := mkFile "a.md" "a" "md".
Definition file_good : TFile := mkFile "b.md" "b" "md".
Definition file_text : TFile := mkFile "c.txt" "c" "txt".

Definition sample_error : ValidationError unit :=
  mkError None MALFORMED_ENTRY None (Some tt) None None.

Definition match_all (path pattern : string) : bool := true.
Definition frontmatter_of (file : TFile) : option (list unit) :=
  if String.eqb (file_path file) "a.md" then Some [tt] else None.
Definition no_question (fm : list unit) : option string := None.
Definition sr_of (fm : list unit) : option (list unit) := Some fm.
Definition reject_data (srData : option (list unit)) : ValidationResult unit unit :=
  match srData with
  | Some (_ :: _) => mkResult [sample_error] None
  | _ => mkResult [] None
  end.

Definition two_patterns : FileFlashcardsSettings := mkSettings ["*"; "**"] [] 0 true.

(** What the runs of the scenario return. *)
Definition good_card : Card unit := mkCard "b.md" "b" tt.
Definition sample_decks : list (Deck unit) :=
  [mkDeck "*" [good_card]; mkDeck "**" [good_card]].
Definition sample_store : Store := <[1 := [Some 0]]> ∅.
Definition located_error : ValidationError unit :=
  mkError (Some "a.md") MALFORMED_ENTRY None (Some tt) None None.

(** [buildDecks] with these collaborators. *)
Definition sample_buildDecks (fuel : nat) (allFiles : list TFile)
    (settings : FileFlashcardsSettings) :=
  buildDecks match_all frontmatter_of no_question sr_of reject_data tt
             fuel allFiles settings.

(** *** [Deck.getName] *)

(** The string has only ASCII characters. *)
Fixpoint ascii_only (s : string) : bool :=
  match s with
  | EmptyString => true
  | String c s' => (nat_of_ascii c <? 128)%nat && ascii_only s'
  end.

(** Every character of the string is matched by [.]. *)
Fixpoint all_dot (s : string) : bool :=
  match s with
  | EmptyString => true
  | String c s' => JS.dot c && all_dot s'
  end.

(** [s.replace(/\/?\*+.*$/, '')]: the match, if any, starts at the first
    position from which an optional [/], one or more [*] and then characters
    other than line terminators reach the end; all from there on is removed. *)
Fixpoint replace_wildcards (s : string) : string :=
  if (JS.startsWith s "/*" || JS.startsWith s "*") && all_dot s then EmptyString
  else
    match s with
    | EmptyString => EmptyString
    | String c s' => String c (replace_wildcards s')
    end.

Definition re_stars : JS.regex :=         (* /^\*+$/ *)
  JS.Regex true [JS.Many1 (Ascii.eqb "*")] true.

Fixpoint no_dot_char (s : string) : bool :=
  match s with
  | EmptyString => true
  | String c s' => negb (Ascii.eqb c ".") && no_dot_char s'
  end.

(** [s.replace(/\.[^.]*$/, '')]: the last [.] and what follows are removed. *)
Fixpoint replace_extension (s : string) : string :=
  match s with
  | EmptyString => EmptyString
  | String c s' =>
      if Ascii.eqb c "." && no_dot_char s' then EmptyString
      else String c (replace_extension s')
  end.

(** [s.split('/').filter(part => part.length > 0)] *)
Definition path_parts (s : string) : list string :=
  filter (fun part => 0 < String.length part) (JS.split s "/").

Definition getName {FSRSCard : Type} (this : Deck FSRSCard) : string :=
  if String.eqb (pattern this) "*" || String.eqb (pattern this) "**"
     || String.eqb (pattern this) "**/*" || String.eqb (pattern this) "*/**"
  then "All"
  else if JS.includes (pattern this) "*" then
    let withoutWildcards := replace_wildcards (pattern this) in
    let named :=
      if negb (String.eqb withoutWildcards "")
         && match JS.match_ withoutWildcards re_stars with
            | Some _ => false
            | None => true
            end
      then last (path_parts withoutWildcards)
      else None in
    match named with
    | Some part => part
    | None => "All"
    end
  else
    let named :=
      if JS.includes (pattern this) "/" then
        match last (path_parts (pattern this)) with
        | Some lastPart => Some (replace_extension lastPart)
        | None => None
        end
      else None in
    match named with
    | Some name => name
    | None => replace_extension (pattern this)
    end.

(** *** [src/managers/daily-limit.ts]

    [today] stands for [new Date().toISOString().split('T')[0]], read by
    [isReached].  The timers that [markDirty] sets with [window.setTimeout]
    are kept in [timers] until they fire or are cleared; what the callback of
    a timer writes to the data file is not part of the model. *)

(** [a.slice(0, end)] *)
Definition slice0 {A : Type} (a : list A) (end_ : Z) : list A :=
  let len := Z.of_nat (length a) in
  let final := if (end_ <? 0)%Z then Z.max (len + end_) 0 else Z.min end_ len in
  take (Z.to_nat final) a.

Module DailyLimit.

Record DailyState : Type := mkDailyState {
  lastDate : string;
  served : nat
}.

Record DailyLimit : Type := mkDailyLimit {
  dailyState : option DailyState;      (* [null] before [init] *)
  saveTimer : option nat;
  timers : list nat;                   (* timeouts pending in [window] *)
  next_timer : nat                     (* the id [setTimeout] returns next *)
}.

(** [new DailyLimit(plugin)] *)
Definition new (next : nat) : DailyLimit := mkDailyLimit None None [] next.

Definition clearTimeout (t : nat) (pending : list nat) : list nat :=
  filter (fun x => x <> t) pending.

(** [init]; [loaded] is [(await loadData())?.__dailyState] when it is there,
    and a failing [loadData] gives the same default. *)
Definition init (loaded : option DailyState) (dl : DailyLimit) : DailyLimit :=
  mkDailyLimit (Some (default (mkDailyState "" 0) loaded))
               (saveTimer dl) (timers dl) (next_timer dl).

Definition markDirty (dl : DailyLimit) : DailyLimit :=
  match dailyState dl with
  | None => dl
  | Some _ =>
      let pending :=
        match saveTimer dl with
        | Some t => clearTimeout t (timers dl)
        | None => timers dl
        end in
      mkDailyLimit (dailyState dl) (Some (next_timer dl))
                   (pending ++ [next_timer dl])%list (S (next_timer dl))
  end.

(** A pending timer fires. *)
Definition fire (t : nat) (dl : DailyLimit) : DailyLimit :=
  mkDailyLimit (dailyState dl) (saveTimer dl) (clearTimeout t (timers dl)) (next_timer dl).

Definition isReached (settings : FileFlashcardsSettings) (today : string) (dl : DailyLimit)
  : bool * DailyLimit :=
  if (maxPerDay settings <=? 0)%nat then (false, dl)
  else
    match dailyState dl with
    | None => (false, dl)
    | Some d =>
        if negb (String.eqb (lastDate d) today) then
          (false, markDirty (mkDailyLimit (Some (mkDailyState today 0))
                                          (saveTimer dl) (timers dl) (next_timer dl)))
        else ((maxPerDay settings <=? served d)%nat, dl)
    end.

Definition applyTo {A : Type} (settings : FileFlashcardsSettings) (today : string)
    (dueCards : list A) (dl : DailyLimit) : list A * DailyLimit :=
  let (reached, dl) := isReached settings today dl in
  if reached then ([], dl)
  else
    match dailyState dl with
    | None => (dueCards, dl)
    | Some d =>
        if (maxPerDay settings <=? 0)%nat then (dueCards, dl)
        else
          let remaining := (Z.of_nat (maxPerDay settings) - Z.of_nat (served d))%Z in
          (slice0 dueCards remaining, dl)
    end.

Definition recordCardReviewed (settings : FileFlashcardsSettings) (dl : DailyLimit)
  : DailyLimit :=
  if (maxPerDay settings <=? 0)%nat then dl
  else
    match dailyState dl with
    | None => dl
    | Some d =>
        markDirty (mkDailyLimit (Some (mkDailyState (lastDate d) (served d + 1)))
                                (saveTimer dl) (timers dl) (next_timer dl))
    end.

(** The calls that reach a [DailyLimit] object, and the firing of a timer. *)
Inductive Call : Type :=
| CallInit (loaded : option DailyState)
| CallIsReached (settings : FileFlashcardsSettings) (today : string)
| CallApplyTo (settings : FileFlashcardsSettings) (today : string) (due : nat)
| CallRecordCardReviewed (settings : FileFlashcardsSettings)
| TimerFires (t : nat).

Definition call (dl : DailyLimit) (c : Call) : DailyLimit :=
  match c with
  | CallInit loaded => init loaded dl
  | CallIsReached settings today => (isReached settings today dl).2
  | CallApplyTo settings today due => (applyTo settings today (seq 0 due) dl).2
  | CallRecordCardReviewed settings => recordCardReviewed settings dl
  | TimerFires t => fire t dl
  end.

Definition run (calls : list Call) (dl : DailyLimit) : DailyLimit := foldl call dl calls.

End DailyLimit.

(** What was served on the day [today], by the state [d]. *)
Definition served_on (today : string) (d : DailyLimit.DailyState) : nat :=
  if String.eqb (DailyLimit.lastDate d) today then DailyLimit.served d else 0.

(** At most the timer of [saveTimer] is pending. *)
Definition debounced (dl : DailyLimit.DailyLimit) : Prop :=
  DailyLimit.timers dl = [] \/
  exists t, DailyLimit.saveTimer dl = Some t /\ DailyLimit.timers dl = [t].

(** *** Scenario: a limit of three cards a day *)
Definition three_a_day : FileFlashcardsSettings := mkSettings ["**"] [] 3 true.
Definition unlimited : FileFlashcardsSettings := mkSettings ["**"] [] 0 true.
Definition yesterday_5 : DailyLimit.DailyLimit :=
  DailyLimit.mkDailyLimit (Some (DailyLimit.mkDailyState "2025-01-01" 5)) None [] 0.
Definition today_1 : DailyLimit.DailyLimit :=
  DailyLimit.mkDailyLimit (Some (DailyLimit.mkDailyState "2025-01-02" 1)) None [] 0.

(** *** [Deck.getDueCards] and [getStats] of [main.ts]

    [State] is the enumeration of ts-fsrs.  A [Date] is its time value in
    milliseconds; [due_of] is [None] where [card.sr.due] is missing. *)
Inductive State : Type := New | Learning | Review | Relearning.

Definition is_new (s : State) : bool :=
  match s with New => true | _ => false end.

(** [a.sort(cmp)]: the sort of ECMAScript is stable, and for a comparator
    that is consistent every stable sort returns the list computed here. *)
Fixpoint sort_insert {A : Type} (cmp : A -> A -> Z) (x : A) (l : list A) : list A :=
  match l with
  | [] => [x]
  | y :: l' => if (0 <? cmp x y)%Z then y :: sort_insert cmp x l' else x :: y :: l'
  end.

Definition Array_sort {A : Type} (cmp : A -> A -> Z) (l : list A) : list A :=
  foldr (sort_insert cmp) [] l.

Section Due.

Context {FSRSCard : Type}.
Variable state_of : FSRSCard -> State.
Variable due_of : FSRSCard -> option Z.
Variable now : Z.                       (* [new Date()] *)

(** The callback of [cards.filter]. *)
Definition is_due (card : Card FSRSCard) : bool :=
  if is_new (state_of (sr card)) then true
  else
    match due_of (sr card) with
    | Some due => (due <=? now)%Z
    | None => false
    end.

(** The comparator of [dueCards.sort]. *)
Definition compare_due (a b : Card FSRSCard) : Z :=
  if is_new (state_of (sr a)) && negb (is_new (state_of (sr b))) then (-1)%Z
  else if negb (is_new (state_of (sr a))) && is_new (state_of (sr b)) then 1%Z
  else
    match due_of (sr a), due_of (sr b) with
    | Some da, Some db => (da - db)%Z
    | _, _ => 0%Z
    end.

Definition getDueCards (cards : list (Card FSRSCard)) : list (Card FSRSCard) :=
  let dueCards := filter (fun card => Is_true (is_due card)) cards in
  Array_sort compare_due dueCards.

(** [getStats]; [decks] are the decks of [this.decks], in the order of the set. *)
Definition getStats (decks : list (Deck FSRSCard)) (settings : FileFlashcardsSettings)
    (today : string) (dl : DailyLimit.DailyLimit)
  : (nat * nat * nat) * DailyLimit.DailyLimit :=
  let '(totalCount, dueCards) :=
    foldl (fun acc deck =>
             ((acc.1 + length (cards deck))%nat, (acc.2 ++ getDueCards (cards deck))%list))
          (0, []) decks in
  let (todayCards, dl) := DailyLimit.applyTo settings today dueCards dl in
  ((totalCount, length dueCards, length todayCards), dl).

(** The order of the result: new cards first, then by due date. *)
Definition due_before (a b : Card FSRSCard) : Prop :=
  match is_new (state_of (sr a)), is_new (state_of (sr b)) with
  | true, false => True
  | false, true => False
  | _, _ =>
      match due_of (sr a), due_of (sr b) with
      | Some da, Some db => (da <= db)%Z
      | _, _ => True
      end
  end.

End Due.

(** *** Scenario: four cards, states and due dates read from a pair *)
Definition sr_state (c : State * Z) : State := c.1.
Definition sr_due (c : State * Z) : option Z := Some c.2.
Definition four_cards : list (Card (State * Z)) :=
  [mkCard "a.md" "a" (Review, 50%Z); mkCard "b.md" "b" (New, 70%Z);
   mkCard "c.md" "c" (Learning, 200%Z); mkCard "d.md" "d" (Review, 20%Z)].

(** *** [src/managers/card-storage.ts]

    [FSRSCard] holds the fields of a ts-fsrs [Card] that the repository reads
    or writes; a [Date] is its time value.  The class [Runtime] gathers what
    the code takes from the JavaScript runtime and from ts-fsrs: numbers
    (without [NaN], which is [None] where it can arise) with the comparisons
    and conversions used, [String.prototype.trim], the parsing and printing
    of dates, and [createEmptyCard()]. *)
Module CardStorage.

Record FSRSCard (number : Type) : Type := mkFSRSCard {
  due : Z;
  last_review : option Z;
  stability : number;
  difficulty : number;
  elapsed_days : number;                     (* never read or written here *)
  state : State;
  reps : number;
  lapses : number;
  scheduled_days : number;
  learning_steps : number
}.
Arguments mkFSRSCard {number}.
Arguments due {number}.
Arguments last_review {number}.
Arguments stability {number}.
Arguments difficulty {number}.
Arguments elapsed_days {number}.
Arguments state {number}.
Arguments reps {number}.
Arguments lapses {number}.
Arguments scheduled_days {number}.
Arguments learning_steps {number}.

(** An entry of the frontmatter list: a string, or a value of another type. *)
Inductive JSValue (Other : Type) : Type :=
| VString (s : string)
| VOther (o : Other).
Arguments VString {Other}.
Arguments VOther {Other}.

Class Runtime (number Other : Type) : Type := {
  typeof_ : Other -> string;                 (* [typeof item], not ['string'] *)
  trim : string -> string;                   (* [s.trim()] *)
  Number_ : string -> option number;         (* [Number(s)], [None] for [NaN] *)
  Date_parse : string -> option Z;           (* [new Date(s)], [None] when invalid *)
  toISOString : Z -> string;                 (* [d.toISOString()] *)
  num_toString : number -> string;           (* [`${n}`] *)
  num_lit : Z -> number;                     (* the literals 0, 1, 2, 3, 10 *)
  num_leb : number -> number -> bool;        (* [a <= b] *)
  num_ltb : number -> number -> bool;        (* [a < b] *)
  num_eqb : number -> number -> bool;        (* [a === b] *)
  num_floor : number -> number;              (* [Math.floor(a)] *)
  isInteger : number -> bool;                (* [Number.isInteger(a)] *)
  createEmptyCard : FSRSCard number          (* [createEmptyCard()] *)
}.

Section Storage.

Context {number Other : Type} {RT : Runtime number Other}.

Local Abbreviation Error := (ValidationError (JSValue Other)).
Local Abbreviation Parsed := (gmap string string).

Definition validFields : list string :=
  ["due"; "last_review"; "stability"; "difficulty"; "state"; "reps"; "lapses";
   "scheduled_days"; "learning_steps"].

(** The body of [for (const item of srData)]. *)
Definition scan_item (acc : Parsed * list Error) (item : JSValue Other)
  : Parsed * list Error :=
  match item with
  | VOther o =>
      (acc.1, (acc.2 ++ [mkError None NON_STRING_FIELD_TYPE None (Some item)
                           (Some ("The field type is: " ++ typeof_ o)%string)
                           (Some "Remove invalid entry")])%list)
  | VString s =>
      if negb (JS.includes s "=") then
        (acc.1, (acc.2 ++ [mkError None MALFORMED_ENTRY None (Some item) None
                             (Some "Should be in format key=value")])%list)
      else
        let pieces := JS.split s "=" in
        let key := nth 0 pieces "" in
        let value := nth 1 pieces "" in
        let trimmedKey := trim key in
        let trimmedValue := trim value in
        if negb (bool_decide (trimmedKey ∈ validFields)) then
          (acc.1, (acc.2 ++ [mkError None UNKNOWN_FIELD (Some trimmedKey)
                               (Some (VString trimmedValue)) None
                               (Some "Remove unknown entry or check for typos")])%list)
        else (<[trimmedKey := trimmedValue]> acc.1, acc.2)
  end.

(** The assignments at the end of [validateAndParseDate]. *)
Definition set_date (field : string) (date : Z) (card : FSRSCard number)
  : FSRSCard number :=
  if String.eqb field "due" then
    mkFSRSCard date (last_review card) (stability card) (difficulty card)
               (elapsed_days card) (state card)
               (reps card) (lapses card) (scheduled_days card) (learning_steps card)
  else if String.eqb field "last_review" then
    mkFSRSCard (due card) (Some date) (stability card) (difficulty card)
               (elapsed_days card) (state card)
               (reps card) (lapses card) (scheduled_days card) (learning_steps card)
  else card.

Definition validateAndParseDate (parsed : Parsed) (field : string) (required : bool)
    (st : FSRSCard number * list Error) : FSRSCard number * list Error :=
  let (card, errors) := st in
  match parsed !! field with
  | None =>
      if required then
        (card, (errors ++ [mkError None MISSING_REQUIRED_FIELD (Some field) None None
                             (Some "Provide valid date in ISO format")])%list)
      else (card, errors)
  | Some dateValue =>
      match Date_parse dateValue with
      | None =>
          (card, (errors ++ [mkError None INVALID_DATE_FORMAT (Some field)
                               (Some (VString dateValue)) None
                               (Some "Use ISO 8601 format (YYYY-MM-DDTHH:mm:ss.sssZ)")])%list)
      | Some date => (set_date field date card, errors)
      end
  end.

Definition getValidationSuggestion (field : string) : string :=
  if String.eqb field "stability" then "Must be ≥ 0"
  else if String.eqb field "difficulty" then "Must be between 0 and 10"
  else if String.eqb field "reps" then "Must be ≥ 0"
  else if String.eqb field "lapses" then "Must be ≥ 0"
  else if String.eqb field "scheduled_days" then "Must be ≥ 0"
  else if String.eqb field "learning_steps" then "Must be ≥ 0"
  else "Check value format and range".

(** The [switch (field)] at the end of [validateAndParseNumber]. *)
Definition set_number (field : string) (finalValue : number) (card : FSRSCard number)
  : FSRSCard number :=
  if String.eqb field "stability" then
    mkFSRSCard (due card) (last_review card) finalValue (difficulty card)
               (elapsed_days card) (state card)
               (reps card) (lapses card) (scheduled_days card) (learning_steps card)
  else if String.eqb field "difficulty" then
    mkFSRSCard (due card) (last_review card) (stability card) finalValue
               (elapsed_days card) (state card)
               (reps card) (lapses card) (scheduled_days card) (learning_steps card)
  else if String.eqb field "reps" then
    mkFSRSCard (due card) (last_review card) (stability card) (difficulty card)
               (elapsed_days card) (state card)
               finalValue (lapses card) (scheduled_days card) (learning_steps card)
  else if String.eqb field "lapses" then
    mkFSRSCard (due card) (last_review card) (stability card) (difficulty card)
               (elapsed_days card) (state card)
               (reps card) finalValue (scheduled_days card) (learning_steps card)
  else if String.eqb field "scheduled_days" then
    mkFSRSCard (due card) (last_review card) (stability card) (difficulty card)
               (elapsed_days card) (state card)
               (reps card) (lapses card) finalValue (learning_steps card)
  else if String.eqb field "learning_steps" then
    mkFSRSCard (due card) (last_review card) (stability card) (difficulty card)
               (elapsed_days card) (state card)
               (reps card) (lapses card) (scheduled_days card) finalValue
  else card.

Definition validateAndParseNumber (parsed : Parsed) (field : string)
    (validator : number -> bool) (allowFloat required : bool)
    (st : FSRSCard number * list Error) : FSRSCard number * list Error :=
  let (card, errors) := st in
  match parsed !! field with
  | None =>
      if required then
        (card, (errors ++ [mkError None MISSING_REQUIRED_FIELD (Some field) None None
                             (Some "Provide valid numeric value")])%list)
      else (card, errors)
  | Some value =>
      match Number_ value with
      | None =>
          (card, (errors ++ [mkError None NON_NUMERIC_VALUE (Some field)
                               (Some (VString value)) None
                               (Some "Provide valid number")])%list)
      | Some numericValue =>
          if negb (validator numericValue) then
            (card, (errors ++ [mkError None INVALID_VALUE_BOUNDS (Some field)
                                 (Some (VString value)) None
                                 (Some (getValidationSuggestion field))])%list)
          else
            let finalValue := if allowFloat then numericValue else num_floor numericValue in
            let errors :=
              if negb allowFloat && negb (num_eqb finalValue numericValue) then
                (errors ++ [mkError None FLOAT_VALUE_NOT_ALLOWED (Some field)
                              (Some (VString value)) None
                              (Some "Use integer values for count fields")])%list
              else errors in
            (set_number field finalValue card, errors)
      end
  end.

Definition set_state (s : State) (card : FSRSCard number) : FSRSCard number :=
  mkFSRSCard (due card) (last_review card) (stability card) (difficulty card)
             (elapsed_days card) s
             (reps card) (lapses card) (scheduled_days card) (learning_steps card).

Definition validateAndParseState (parsed : Parsed)
    (st : FSRSCard number * list Error) : FSRSCard number * list Error :=
  let (card, errors) := st in
  match parsed !! "state" with
  | None =>
      (card, (errors ++ [mkError None MISSING_REQUIRED_FIELD (Some "state") None None
                           (Some "Use 0=New, 1=Learning, 2=Review, 3=Relearning")])%list)
  | Some stateValue =>
      let invalid :=
        (card, (errors ++ [mkError None INVALID_STATE_VALUE (Some "state")
                             (Some (VString stateValue)) None
                             (Some "Use 0=New, 1=Learning, 2=Review, 3=Relearning")])%list) in
      match Number_ stateValue with
      | None => invalid
      | Some stateNum =>
          if num_ltb stateNum (num_lit 0) || num_ltb (num_lit 3) stateNum
             || negb (isInteger stateNum)
          then invalid
          else if num_eqb stateNum (num_lit 0) then (set_state New card, errors)
          else if num_eqb stateNum (num_lit 1) then (set_state Learning card, errors)
          else if num_eqb stateNum (num_lit 2) then (set_state Review card, errors)
          else if num_eqb stateNum (num_lit 3) then (set_state Relearning card, errors)
          else (card, errors)
      end
  end.

(** The validators handed to [validateAndParseNumber]. *)
Definition at_least_0 (n : number) : bool := num_leb (num_lit 0) n.
Definition from_0_to_10 (n : number) : bool :=
  num_leb (num_lit 0) n && num_leb n (num_lit 10).

(** The calls after the loop, on the default card and the errors so far. *)
Definition validate_fields (parsed : Parsed) (st : FSRSCard number * list Error)
  : FSRSCard number * list Error :=
  let st := validateAndParseDate parsed "due" true st in
  let st := validateAndParseDate parsed "last_review" false st in
  let st := validateAndParseNumber parsed "stability" at_least_0 true true st in
  let st := validateAndParseNumber parsed "difficulty" from_0_to_10 true true st in
  let st := validateAndParseNumber parsed "reps" at_least_0 false true st in
  let st := validateAndParseNumber parsed "lapses" at_least_0 false true st in
  let st := validateAndParseNumber parsed "scheduled_days" at_least_0 true true st in
  let st := validateAndParseNumber parsed "learning_steps" at_least_0 false true st in
  validateAndParseState parsed st.

(** [srData] is [None] when it is missing or not an array. *)
Definition validateAndParseFrontmatter (srData : option (list (JSValue Other)))
  : ValidationResult (FSRSCard number) (JSValue Other) :=
  let defaultCard := createEmptyCard in
  match srData with
  | None => mkResult [] (Some defaultCard)
  | Some items =>
      if (length items =? 0)%nat then mkResult [] (Some defaultCard)
      else
        let (parsed, errors) := foldl scan_item (∅, []) items in
        let (card, errors) := validate_fields parsed (defaultCard, errors) in
        let isValid := (length errors =? 0)%nat in
        mkResult errors (if isValid then Some card else None)
  end.

(** [`${card.state}`]: the number of the enumeration. *)
Definition state_toString (s : State) : string :=
  match s with
  | New => "0" | Learning => "1" | Review => "2" | Relearning => "3"
  end.

Definition formatSRData (card : FSRSCard number) : list string :=
  let data := ["due=" ++ toISOString (due card)] in
  let data :=
    match last_review card with
    | Some d => (data ++ ["last_review=" ++ toISOString d]%string)%list
    | None => data
    end in
  (data ++ ["stability=" ++ num_toString (stability card);
            "difficulty=" ++ num_toString (difficulty card);
            "state=" ++ state_toString (state card);
            "reps=" ++ num_toString (reps card);
            "lapses=" ++ num_toString (lapses card);
            "scheduled_days=" ++ num_toString (scheduled_days card);
            "learning_steps=" ++ num_toString (learning_steps card)]%string)%list.

(** The key and the value that the loop reads from a string entry. *)
Definition key_of (s : string) : string := trim (nth 0 (JS.split s "=") "").
Definition value_of (s : string) : string := trim (nth 1 (JS.split s "=") "").

(** An entry that the loop accepts. *)
Definition well_formed (item : JSValue Other) : Prop :=
  exists s, item = VString s /\ JS.includes s "=" = true /\ key_of s ∈ validFields.

Definition requiredFields : list string :=
  ["due"; "stability"; "difficulty"; "state"; "reps"; "lapses"; "scheduled_days";
   "learning_steps"].

(** A count: a whole number that is at least 0. *)
Definition whole (x : number) : Prop :=
  exists n, at_least_0 n = true /\ num_eqb (num_floor n) n = true /\ x = num_floor n.

Definition in_bounds (card : FSRSCard number) : Prop :=
  at_least_0 (stability card) = true /\
  from_0_to_10 (difficulty card) = true /\
  at_least_0 (scheduled_days card) = true /\
  whole (reps card) /\ whole (lapses card) /\ whole (learning_steps card).

(** The [switch (stateNum)] of [validateAndParseState]. *)
Definition state_of_number (n : number) : option State :=
  if num_eqb n (num_lit 0) then Some New
  else if num_eqb n (num_lit 1) then Some Learning
  else if num_eqb n (num_lit 2) then Some Review
  else if num_eqb n (num_lit 3) then Some Relearning
  else None.

(** A printed value that an entry [key=value] gives back as it is. *)
Definition plain (v : string) : Prop := JS.includes v "=" = false /\ trim v = v.

(** The runtime reads back what it prints for the values of a card, and the
    values are those of a card within bounds. *)
Definition reads_date (d : Z) : Prop :=
  plain (toISOString d) /\ Date_parse (toISOString d) = Some d.

Definition reads_number (x : number) : Prop :=
  plain (num_toString x) /\ Number_ (num_toString x) = Some x.

Definition reads_count (x : number) : Prop :=
  reads_number x /\ at_least_0 x = true /\ num_floor x = x /\ num_eqb x x = true.

Definition reads_state (s : State) : Prop :=
  trim (state_toString s) = state_toString s /\
  exists n, Number_ (state_toString s) = Some n /\
            num_ltb n (num_lit 0) = false /\ num_ltb (num_lit 3) n = false /\
            isInteger n = true /\ state_of_number n = Some s.

Definition reads_back (card : FSRSCard number) : Prop :=
  (forall k, k ∈ validFields -> trim k = k) /\
  reads_date (due card) /\
  (forall d, last_review card = Some d -> reads_date d) /\
  (reads_number (stability card) /\ at_least_0 (stability card) = true) /\
  (reads_number (difficulty card) /\ from_0_to_10 (difficulty card) = true) /\
  reads_count (reps card) /\
  reads_count (lapses card) /\
  (reads_number (scheduled_days card) /\ at_least_0 (scheduled_days card) = true) /\
  reads_count (learning_steps card) /\
  reads_state (state card).

(** What is left of a card after it is written and read: [elapsed_days] is
    not stored, and a missing [last_review] is that of an empty card. *)
Definition stored (card : FSRSCard number) : FSRSCard number :=
  mkFSRSCard (due card)
             (match last_review card with
              | Some d => Some d
              | None => last_review createEmptyCard
              end)
             (stability card) (difficulty card) (elapsed_days createEmptyCard)
             (state card) (reps card) (lapses card) (scheduled_days card)
             (learning_steps card).

End Storage.

End CardStorage.

(** *** Scenario: a runtime of whole numbers

    Numbers are integers written in decimal, [trim] removes spaces, and one
    date can be parsed and printed. *)
Fixpoint trimStart (s : string) : string :=
  match s with
  | String c s' => if Ascii.eqb c " " then trimStart s' else s
  | EmptyString => EmptyString
  end.

Fixpoint trimEnd (s : string) : string :=
  match s with
  | EmptyString => EmptyString
  | String c s' =>
      match trimEnd s' with
      | EmptyString => if Ascii.eqb c " " then EmptyString else String c EmptyString
      | t => String c t
      end
  end.

Definition decimal (z : Z) : string :=
  DecimalString.NilZero.string_of_int (Z.to_int z).

Definition of_decimal (s : string) : option Z :=
  option_map Z.of_int (DecimalString.NilZero.int_of_string s).

Definition sample_date : string := "2025-08-26T15:30:00.000Z".
Definition sample_time : Z := 1756222200000%Z.

Definition empty_card : CardStorage.FSRSCard Z :=
  CardStorage.mkFSRSCard 0%Z None 0%Z 0%Z 0%Z New 0%Z 0%Z 0%Z 0%Z.

Definition whole_runtime : CardStorage.Runtime Z unit := {|
  CardStorage.typeof_ := fun _ => "object";
  CardStorage.trim := fun s => trimEnd (trimStart s);
  CardStorage.Number_ := of_decimal;
  CardStorage.Date_parse := fun s => if String.eqb s sample_date then Some sample_time else None;
  CardStorage.toISOString := fun d => if Z.eqb d sample_time then sample_date else "";
  CardStorage.num_toString := decimal;
  CardStorage.num_lit := fun z => z;
  CardStorage.num_leb := Z.leb;
  CardStorage.num_ltb := Z.ltb;
  CardStorage.num_eqb := Z.eqb;
  CardStorage.num_floor := fun z => z;
  CardStorage.isInteger := fun _ => true;
  CardStorage.createEmptyCard := empty_card
|}.

Definition review_card : CardStorage.FSRSCard Z :=
  CardStorage.mkFSRSCard sample_time None 2%Z 5%Z 0%Z Review 3%Z 1%Z 4%Z 0%Z.

Definition review_data : list (CardStorage.JSValue unit) :=
  CardStorage.VString <$>
    ["due=2025-08-26T15:30:00.000Z"; " stability = 2"; "difficulty=5"; "state=2";
     "reps=3"; "lapses=1"; "scheduled_days=4"; "learning_steps=0"].

(** * Properties *)

(** ** JavaScript sets *)

Lemma elem_Set_values (x : nat) (l : JSSet) : x ∈ Set_values l <-> Some x ∈ l.
Proof.
  unfold Set_values. rewrite list_elem_of_omap. split.
  - intros (y & Hy & Heq). simpl in Heq. by subst.
  - intros H. by exists (Some x).
Qed.

Lemma Set_has_true (x : nat) (l : JSSet) : Set_has x l = true <-> Some x ∈ l.
Proof. unfold Set_has. apply bool_decide_eq_true. Qed.

Lemma Set_has_false (x : nat) (l : JSSet) : Set_has x l = false <-> Some x ∉ l.
Proof. unfold Set_has. apply bool_decide_eq_false. Qed.

Lemma elem_Set_add (y x : nat) (l : JSSet) : Some y ∈ Set_add x l <-> y = x \/ Some y ∈ l.
Proof.
  unfold Set_add. destruct (Set_has x l) eqn:E.
  - apply Set_has_true in E. split; [tauto|]. intros [->|]; done.
  - rewrite elem_of_app, list_elem_of_singleton. split; intros [H|H]; auto.
    left. congruence.
Qed.

Lemma elem_Set_delete (y x : nat) (l : JSSet) :
  Some y ∈ Set_delete x l <-> y <> x /\ Some y ∈ l.
Proof.
  unfold Set_delete. rewrite list_elem_of_fmap. split.
  - intros (e & Heq & He). case_bool_decide; [done|]. subst e.
    split; [congruence | done].
  - intros [Hne H]. exists (Some y). split; [|done].
    rewrite bool_decide_eq_false_2; [done | congruence].
Qed.

Lemma children_set_eq (d : nat) (l : JSSet) (s : Store) : children (set_children d l s) d = l.
Proof. unfold children, set_children. apply lookup_total_insert_eq. Qed.

Lemma children_set_ne (d q : nat) (l : JSSet) (s : Store) :
  q <> d -> children (set_children d l s) q = children s q.
Proof. intros. unfold children, set_children. by apply lookup_total_insert_ne. Qed.

Lemma delete_all_ne (p q : nat) (t : JSSet) (s : Store) :
  q <> p -> children (delete_all p t s) q = children s q.
Proof.
  intros Hne. unfold delete_all. generalize (Set_values t). intros vs.
  revert s. induction vs as [|v vs IH]; intros s; simpl; [done|].
  rewrite IH. by apply children_set_ne.
Qed.

Lemma elem_delete_all (p y : nat) (t : JSSet) (s : Store) :
  Some y ∈ children (delete_all p t s) p <-> Some y ∈ children s p /\ Some y ∉ t.
Proof.
  unfold delete_all. rewrite <- (elem_Set_values y t).
  generalize (Set_values t). intros vs.
  revert s. induction vs as [|v vs IH]; intros s; simpl.
  - rewrite elem_of_nil. tauto.
  - rewrite IH, children_set_eq, elem_Set_delete, elem_of_cons. split.
    + intros [[Hne H] Hn]. split; [done|]. intros [->|]; done.
    + intros [H Hn]. split; [split; [|done]|]; intros Hx; apply Hn; auto.
Qed.

Lemma elem_fold_delete (y : nat) (vs : list nat) (top : JSSet) :
  Some y ∈ foldl (fun top deck => Set_delete deck top) top vs <-> Some y ∈ top /\ y ∉ vs.
Proof.
  revert top. induction vs as [|v vs IH]; intros top; simpl.
  - rewrite elem_of_nil. tauto.
  - rewrite IH, elem_Set_delete, elem_of_cons. split.
    + intros [[Hne H] Hn]. split; [done|]. intros [->|]; done.
    + intros [H Hn]. split; [split; [|done]|]; intros Hx; apply Hn; auto.
Qed.

(** ** The relation [isChildOf] *)

Section Relation.

Context {FSRSCard : Type}.
Implicit Types d : Deck FSRSCard.

Lemma isSubset_irrefl (p : string) : PatternHierarchy.isSubset p p = false.
Proof. unfold PatternHierarchy.isSubset. by rewrite String.eqb_refl. Qed.

Lemma every_own_path (ps : list string) :
  forallb (fun p => existsb (String.eqb p) ps) ps = true.
Proof.
  apply forallb_forall. intros p Hp. apply existsb_exists.
  exists p. split; [done | apply String.eqb_refl].
Qed.

Lemma isChildOf_irrefl d : isChildOf d d = false.
Proof.
  unfold isChildOf. rewrite Nat.ltb_irrefl, every_own_path, Nat.eqb_refl, isSubset_irrefl.
  simpl. by destruct (_ && _).
Qed.

Variable decks : list (Deck FSRSCard).

Lemma childOf_irrefl (i : nat) : childOf decks i i = false.
Proof. unfold childOf. destruct (decks !! i); [apply isChildOf_irrefl | done]. Qed.

Lemma childOf_lookup (i j : nat) :
  childOf decks i j = true ->
  exists a b, decks !! i = Some a /\ decks !! j = Some b /\ isChildOf a b = true.
Proof.
  unfold childOf. destruct (decks !! i) as [a|], (decks !! j) as [b|]; try done.
  intros H. by exists a, b.
Qed.

Lemma childOf_lt (i j : nat) :
  childOf decks i j = true -> i < length decks /\ j < length decks.
Proof.
  intros (a & b & Ha & Hb & _)%childOf_lookup.
  split; eapply lookup_lt_Some; eauto.
Qed.

Lemma childOf_trans :
  transitive_on decks ->
  forall a b c, childOf decks a b = true -> childOf decks b c = true ->
                childOf decks a c = true.
Proof.
  intros Ht a b c (x & y & Hx & Hy & Hxy)%childOf_lookup
                  (y' & z & Hy' & Hz & Hyz)%childOf_lookup.
  assert (y' = y) as -> by congruence.
  unfold childOf. rewrite Hx, Hz.
  eapply (Ht x y z); eauto using list_elem_of_lookup_2.
Qed.

End Relation.

(** ** Members of a [children] set are children of the owner

    Whatever the relation and whenever [addChild] returns. *)

Section Below.

Context {FSRSCard : Type}.
Variable decks : list (Deck FSRSCard).
Local Abbreviation R := (childOf decks).

Lemma nest_below rec this child :
  keeps_below decks rec ->
  forall steps i added s r,
    below decks s ->
    addChild_nest decks rec this child steps i added s = Some r ->
    below decks r.2.
Proof.
  intros Hrec. induction steps as [|steps IH]; intros i added s r Hs; simpl; [done|].
  destruct (children s this !! i) as [[existing|]|] eqn:Hi.
  - destruct (R child existing) eqn:Hc.
    + destruct (rec existing child s) as [s'|] eqn:Hr; [|done].
      apply IH. eapply Hrec; eauto.
    + by apply IH.
  - by apply IH.
  - intros [= <-]. done.
Qed.

Lemma reparent_below rec this child :
  keeps_below decks rec ->
  forall steps i toRemove s r,
    below decks s ->
    addChild_reparent decks rec this child steps i toRemove s = Some r ->
    below decks r.2.
Proof.
  intros Hrec. induction steps as [|steps IH]; intros i t s r Hs; simpl; [done|].
  destruct (children s this !! i) as [[existing|]|] eqn:Hi.
  - destruct (R existing child) eqn:Hc.
    + destruct (rec child existing s) as [s'|] eqn:Hr; [|done].
      apply IH. eapply Hrec; eauto.
    + by apply IH.
  - by apply IH.
  - intros [= <-]. done.
Qed.

Lemma delete_all_below this toRemove s :
  below decks s -> below decks (delete_all this toRemove s).
Proof.
  intros Hs p c. destruct (decide (p = this)) as [->|Hne].
  - rewrite elem_delete_all. intros [H _]. by apply Hs.
  - rewrite delete_all_ne by done. apply Hs.
Qed.

Lemma add_below this child s :
  R child this = true -> below decks s ->
  below decks (set_children this (Set_add child (children s this)) s).
Proof.
  intros Hc Hs p c. destruct (decide (p = this)) as [->|Hne].
  - rewrite children_set_eq, elem_Set_add. intros [->|H]; [done | by apply Hs].
  - rewrite children_set_ne by done. apply Hs.
Qed.

Lemma addChild_below fuel : keeps_below decks (addChild decks fuel).
Proof.
  induction fuel as [|fuel IH]; intros this child s s' Hc Hs; [done|].
  cbn [addChild]. destruct (Set_has child (children s this)); [by intros [= <-]|].
  destruct (addChild_nest _ _ _ _ _ _ _ _) as [[[] s1]|] eqn:H1; [| |done].
  - intros [= <-]. eapply (nest_below _ _ _ IH) in H1; eauto.
  - eapply (nest_below _ _ _ IH) in H1; eauto. simpl in H1.
    destruct (addChild_reparent _ _ _ _ _ _ _ _) as [[t s2]|] eqn:H2; [|done].
    eapply (reparent_below _ _ _ IH) in H2; eauto. simpl in H2.
    intros [= <-]. by apply add_below, delete_all_below.
Qed.

End Below.

(** ** The top level after the build *)

Lemma for_each_inv {A St : Type} (I : St -> Prop) (body : A -> St -> option St) xs :
  (forall x st st', I st -> body x st = Some st' -> I st') ->
  forall st st', I st -> for_each body xs st = Some st' -> I st'.
Proof.
  intros Hb. induction xs as [|x xs IH]; intros st st' Hst; simpl.
  - by intros [= <-].
  - destruct (body x st) as [st1|] eqn:E; [|done]. eauto.
Qed.

Section TopLevel.

Context {FSRSCard : Type}.
Variable decks : list (Deck FSRSCard).
Local Abbreviation R := (childOf decks).

Lemma relate_below fuel deck other st st' :
  below decks st.1 -> relate decks fuel deck other st = Some st' -> below decks st'.1.
Proof.
  unfold relate. intros Hs. destruct (deck =? other)%nat; [by intros [= <-]|].
  destruct (R deck other) eqn:Hc; [|by intros [= <-]].
  destruct (addChild decks fuel other deck st.1) as [s'|] eqn:Ha; [|done].
  intros [= <-]. simpl. eapply addChild_below; eauto.
Qed.

Lemma relate_toRemove fuel deck other st st' :
  relate decks fuel deck other st = Some st' ->
  forall x, Some x ∈ st'.2 <->
            Some x ∈ st.2 \/ (x = deck /\ deck <> other /\ R deck other = true).
Proof.
  unfold relate. destruct (Nat.eqb_spec deck other) as [->|Hne].
  { intros [= <-] x. split; [tauto|]. intros [|(_ & ? & _)]; done. }
  destruct (R deck other) eqn:Hc.
  - destruct (addChild decks fuel other deck st.1) as [s'|]; [|done].
    intros [= <-] x. simpl. rewrite elem_Set_add. split; [intros [|]; auto|].
    intros [|(? & _)]; auto.
  - intros [= <-] x. split; [tauto|]. intros [|(_ & _ & ?)]; done.
Qed.

Lemma scan_toRemove fuel deck os : forall st st',
  for_each (relate decks fuel deck) os st = Some st' ->
  forall x, Some x ∈ st'.2 <->
            Some x ∈ st.2 \/ (x = deck /\ exists o, o ∈ os /\ deck <> o /\ R deck o = true).
Proof.
  induction os as [|o os IH]; intros st st'; simpl.
  - intros [= <-] x. split; [tauto|]. intros [|(_ & o & []%elem_of_nil & _)]; done.
  - destruct (relate decks fuel deck o st) as [st1|] eqn:E; [|done].
    intros H x. rewrite (IH _ _ H), (relate_toRemove _ _ _ _ _ E). split.
    + intros [[|(-> & ? & ?)]|(-> & o' & ? & ? & ?)]; auto.
      * right. split; [done|]. exists o. rewrite elem_of_cons. auto.
      * right. split; [done|]. exists o'. rewrite elem_of_cons. auto.
    + intros [|(-> & o' & [->|]%elem_of_cons & ? & ?)]; eauto 8.
Qed.

Lemma build_toRemove fuel os ds : forall st st',
  for_each (fun deck => for_each (relate decks fuel deck) os) ds st = Some st' ->
  forall x, Some x ∈ st'.2 <->
            Some x ∈ st.2 \/ (x ∈ ds /\ exists o, o ∈ os /\ x <> o /\ R x o = true).
Proof.
  induction ds as [|d ds IH]; intros st st'; simpl.
  - intros [= <-] x. split; [tauto|]. intros [|([]%elem_of_nil & _)]; done.
  - destruct (for_each _ os st) as [st1|] eqn:E; [|done].
    intros H x. rewrite (IH _ _ H), (scan_toRemove _ _ _ _ _ E), elem_of_cons.
    split.
    + intros [[|(-> & ?)]|(? & ?)]; auto.
    + intros [|([->|] & ?)]; auto.
Qed.

Lemma build_below fuel os ds : forall st st',
  below decks st.1 ->
  for_each (fun deck => for_each (relate decks fuel deck) os) ds st = Some st' ->
  below decks st'.1.
Proof.
  apply (for_each_inv (fun st => below decks st.1)). intros d.
  apply (for_each_inv (fun st => below decks st.1)). intros o.
  apply relate_below.
Qed.

Lemma below_empty : below decks ∅.
Proof.
  intros p c. unfold children. rewrite lookup_total_empty. by intros ?%elem_of_nil.
Qed.

(** A deck stays at the top level exactly when it is a child of no deck, and
    the members of a [children] set are children of its owner, whenever
    [buildDeckHierarchy] returns. *)
Lemma buildDeckHierarchy_sound fuel r :
  buildDeckHierarchy decks fuel = Some r ->
  below decks r.2 /\
  forall d, d ∈ roots r <-> d < length decks /\ forall o, R d o = false.
Proof.
  unfold buildDeckHierarchy.
  destruct (for_each _ _ _) as [[s t]|] eqn:E; [|done].
  intros [= <-]. split.
  - apply build_below in E; [done | apply below_empty].
  - intros d. unfold roots. simpl.
    rewrite elem_Set_values, elem_fold_delete, elem_Set_values.
    rewrite (build_toRemove _ _ _ _ _ E d). simpl.
    rewrite list_elem_of_fmap, elem_of_nil. split.
    + intros [(x & [= <-] & [_ Hx]%elem_of_seq) Hn]. simpl in Hx. split; [done|].
      intros o. destruct (R d o) eqn:Ho; [|done]. exfalso. apply Hn. right.
      split; [apply elem_of_seq; simpl; lia|].
      exists o. split; [apply elem_of_seq; apply childOf_lt in Ho; simpl; lia|].
      split; [|done]. intros ->. by rewrite childOf_irrefl in Ho.
    + intros [Hd Hn]. split.
      * exists d. split; [done|]. apply elem_of_seq. simpl. lia.
      * intros [[]|(_ & o & _ & _ & Ho)]. by rewrite Hn in Ho.
Qed.

End TopLevel.

(** ** The build when [isChildOf] is transitive on the decks *)

Lemma desc_trans s a b c : desc s a b -> desc s b c -> desc s a c.
Proof.
  induction 1 as [p e He|p e x He _ IH]; intros Hc.
  - by eapply desc_step.
  - eapply desc_step; eauto.
Qed.

Lemma desc_top s p x :
  desc s p x -> exists e, Some e ∈ children s p /\ (x = e \/ desc s e x).
Proof. destruct 1 as [p c Hc|p e c He Hd]; eauto. Qed.

Lemma filter_length_lt {A : Type} (P Q : A -> Prop)
    `{!forall x, Decision (P x)} `{!forall x, Decision (Q x)} (l : list A) :
  (forall x, x ∈ l -> P x -> Q x) ->
  (exists y, y ∈ l /\ Q y /\ ~ P y) ->
  length (filter P l) < length (filter Q l).
Proof.
  intros Hsub (y & Hy & HQ & HP).
  induction l as [|a l IH]; [by apply elem_of_nil in Hy|].
  assert (Hle : forall l', (forall x, x ∈ l' -> P x -> Q x) ->
                           length (filter P l') <= length (filter Q l')).
  { clear. induction l' as [|b l' IH']; intros Hs; [done|].
    rewrite !filter_cons. pose proof (Hs b (list_elem_of_here _ _)) as Hb.
    assert (Hs' : forall x, x ∈ l' -> P x -> Q x) by (intros; apply Hs; [by right|done]).
    specialize (IH' Hs').
    destruct (decide (P b)), (decide (Q b)); simpl; try lia. tauto. }
  rewrite !filter_cons. apply elem_of_cons in Hy as [->|Hy].
  - assert (length (filter P l) <= length (filter Q l)).
    { apply Hle. intros; apply Hsub; [by right|done]. }
    destruct (decide (P a)), (decide (Q a)); simpl; try lia; tauto.
  - assert (length (filter P l) < length (filter Q l)) as Hlt.
    { apply IH; [|done]. intros; apply Hsub; [by right|done]. }
    pose proof (Hsub a (list_elem_of_here _ _)) as Ha.
    destruct (decide (P a)), (decide (Q a)); simpl; try lia. tauto.
Qed.

Lemma for_each_total {A St : Type} (body : nat -> A -> St -> option St)
    (I : St -> Prop) (ext : St -> St -> Prop) (Q : A -> St -> Prop) :
  (forall st, ext st st) ->
  (forall a b c, ext a b -> ext b c -> ext a c) ->
  (forall x st st', ext st st' -> Q x st -> Q x st') ->
  (forall x st, I st ->
     exists f0 st', (forall f, f0 <= f -> body f x st = Some st') /\
                    I st' /\ ext st st' /\ Q x st') ->
  forall xs st, I st ->
    exists f0 st', (forall f, f0 <= f -> for_each (body f) xs st = Some st') /\
                   I st' /\ ext st st' /\ forall x, x ∈ xs -> Q x st'.
Proof.
  intros Hrefl Htr HQ Hbody. induction xs as [|x xs IH]; intros st Hst.
  - exists 0, st. repeat split; auto. by intros x ?%elem_of_nil.
  - destruct (Hbody x st Hst) as (f1 & st1 & Hf1 & Hi1 & He1 & Hq1).
    destruct (IH st1 Hi1) as (f2 & st2 & Hf2 & Hi2 & He2 & Hq2).
    exists (max f1 f2), st2. split; [|split; [done|split; [eauto|]]].
    + intros f Hf. simpl. rewrite Hf1 by lia. apply Hf2. lia.
    + intros y [->|Hy]%elem_of_cons; eauto.
Qed.

Section Transitive.

Context {FSRSCard : Type}.
Variable decks : list (Deck FSRSCard).
Hypothesis Htrans : transitive_on decks.
Local Abbreviation R := (childOf decks).

Lemma R_trans a b c : R a b = true -> R b c = true -> R a c = true.
Proof. by apply childOf_trans. Qed.

Lemma R_asym a b : R a b = true -> R b a = false.
Proof.
  intros H. destruct (R b a) eqn:E; [|done].
  pose proof (R_trans _ _ _ H E) as Hc. by rewrite childOf_irrefl in Hc.
Qed.

Lemma R_ne a b : R a b = true -> a <> b.
Proof. intros H ->. by rewrite childOf_irrefl in H. Qed.

Lemma desc_below s p x : below decks s -> desc s p x -> R x p = true.
Proof.
  intros Hs. induction 1 as [p c Hc|p e c He _ IH]; [by apply Hs|].
  eapply R_trans; eauto.
Qed.

Lemma rank_lt e p : R e p = true -> rank decks e < rank decks p.
Proof.
  intros H. unfold rank. apply filter_length_lt.
  - intros x _ Hx%Is_true_true. apply Is_true_true. by eapply R_trans.
  - exists e. split; [|split].
    + apply elem_of_seq. apply childOf_lt in H. simpl. lia.
    + by apply Is_true_true.
    + rewrite childOf_irrefl. by intros [].
Qed.

(** The last statements of [addChild]: the children of [p] that are children
    of [c] leave, [c] enters. *)
Lemma step_final s2 s' p c :
  inv decks s2 -> R c p = true ->
  (forall q, q <> p -> children s' q = children s2 q) ->
  (forall x, Some x ∈ children s' p <->
             x = c \/ (Some x ∈ children s2 p /\ R x c = false)) ->
  (forall e, Some e ∈ children s2 p -> R e c = true -> desc s2 c e) ->
  (forall e, Some e ∈ children s2 p -> R c e = false) ->
  inv decks s' /\ mono s2 s' /\ desc s' p c.
Proof.
  intros [Hb Hm] Hcp Hother Hp Hmoved Hnest.
  assert (Hc' : desc s' p c) by (apply desc_child, Hp; auto).
  assert (Hlow : forall q x, desc s2 q x -> q <> p -> ~ desc s2 q p -> desc s' q x).
  { induction 1 as [q x Hx|q e x He Hd IH]; intros Hq Hnp.
    - apply desc_child. by rewrite Hother.
    - eapply desc_step; [by rewrite Hother|]. apply IH.
      + intros ->. apply Hnp. by apply desc_child.
      + intros Hd'. apply Hnp. by eapply desc_step. }
  assert (Hc_low : forall x, desc s2 c x -> desc s' c x).
  { intros x Hx. apply Hlow; [done | by apply R_ne|].
    intros Hd%(desc_below _ _ _ Hb). by rewrite (R_asym _ _ Hcp) in Hd. }
  assert (Hmono : mono s2 s').
  { intros q x. induction 1 as [q x Hx|q e x He Hd IH].
    - destruct (decide (q = p)) as [->|Hq]; [|apply desc_child; by rewrite Hother].
      destruct (R x c) eqn:Hxc.
      + eapply desc_trans; [exact Hc'|]. apply Hc_low. by apply Hmoved.
      + apply desc_child, Hp. auto.
    - destruct (decide (q = p)) as [->|Hq]; [|eapply desc_step; [by rewrite Hother|done]].
      destruct (R e c) eqn:Hec.
      + eapply desc_trans; [exact Hc'|]. eapply desc_trans; [|exact IH].
        apply Hc_low. by apply Hmoved.
      + eapply desc_step; [apply Hp; eauto|done]. }
  assert (Hnew : forall q x, desc s' q x ->
            desc s2 q x \/ ((q = p \/ desc s2 q p) /\ (x = c \/ desc s2 c x))).
  { induction 1 as [q x Hx|q e x He Hd IH].
    - destruct (decide (q = p)) as [->|Hq].
      + apply Hp in Hx as [->|[Hx _]]; [right; auto | left; by apply desc_child].
      + rewrite Hother in Hx by done. left. by apply desc_child.
    - destruct (decide (q = p)) as [->|Hq].
      + apply Hp in He as [->|[He _]].
        * right. split; [auto|]. destruct IH as [|[_ ?]]; auto.
        * destruct IH as [|[_ ?]]; [left; by eapply desc_step | right; auto].
      + rewrite Hother in He by done. destruct IH as [|[Hqp ?]].
        * left. by eapply desc_step.
        * right. split; [|done]. right.
          destruct Hqp as [->|]; [by apply desc_child | by eapply desc_step]. }
  split; [split|done].
  - intros q x. destruct (decide (q = p)) as [->|Hq].
    + intros [->|[Hx _]]%Hp; [done | by apply Hb].
    + rewrite Hother by done. apply Hb.
  - intros q k x Hk Hx. destruct (R k x) eqn:Hkx; [exfalso|done].
    assert (Hxc : x = c \/ desc s2 c x -> R k c = true).
    { intros [->|Hd%(desc_below _ _ _ Hb)]; [done | by eapply R_trans]. }
    destruct (decide (q = p)) as [->|Hq].
    + apply Hp in Hk as [->|[Hk Hkc]].
      * apply Hnew in Hx as [Hx|[_ Hx]].
        -- apply desc_top in Hx as (e & He & Hxe).
           assert (R c e = true); [|by rewrite Hnest in *].
           destruct Hxe as [->|Hd%(desc_below _ _ _ Hb)]; [done | by eapply R_trans].
        -- apply Hxc in Hx. by rewrite childOf_irrefl in Hx.
      * apply Hnew in Hx as [Hx|[_ Hx]].
        -- by rewrite (Hm _ _ _ Hk Hx) in Hkx.
        -- apply Hxc in Hx. congruence.
    + rewrite Hother in Hk by done. apply Hnew in Hx as [Hx|[[->|Hqp] Hx]].
      * by rewrite (Hm _ _ _ Hk Hx) in Hkx.
      * done.
      * apply Hxc in Hx. pose proof (R_trans _ _ _ Hx Hcp) as Hkp.
        by rewrite (Hm _ _ _ Hk Hqp) in Hkp.
Qed.

(** The first loop of [p.addChild(c)], from the entry after [pre]. *)
Lemma nest_total h p c :
  returns_below decks h -> rank decks p <= h ->
  forall suf pre s added,
    inv decks s -> children s p = (pre ++ suf)%list ->
    exists f0 s',
      (forall f steps, f0 <= f -> length suf < steps ->
         addChild_nest decks (addChild decks f) p c steps (length pre) added s
         = Some (added || existsb (from_option (R c) false) suf, s')) /\
      inv decks s' /\ mono s s' /\ frame_lt decks p s s' /\
      (forall e, Some e ∈ suf -> R c e = true -> desc s' e c).
Proof.
  intros Hrec Hp. induction suf as [|[e|] suf IH]; intros pre s added Hinv Hch.
  - exists 0, s. split; [|split; [done|split; [by intros ??|split; [by intros ??|]]]];
      cycle 1.
    { by intros e ?%elem_of_nil. }
    intros f [|steps] _ Hlt; [simpl in Hlt; lia|]. simpl.
    rewrite Hch, app_nil_r, lookup_ge_None_2 by lia. by rewrite orb_false_r.
  - assert (Hep : R e p = true).
    { apply Hinv. rewrite Hch, elem_of_app, elem_of_cons. auto. }
    assert (Hpre : length (pre ++ [Some e]) = S (length pre)).
    { rewrite length_app. simpl. lia. }
    destruct (R c e) eqn:Hce.
    + assert (Hre : rank decks e < h) by (apply rank_lt in Hep; lia).
      destruct (Hrec e c s Hre Hinv Hce) as (f1 & s1 & Hf1 & Hi1 & Hm1 & Hd1 & Hfr1).
      assert (Hch1 : children s1 p = ((pre ++ [Some e]) ++ suf)%list).
      { rewrite Hfr1, Hch, <- app_assoc; [done| |by apply R_asym].
        intros ->. by rewrite childOf_irrefl in Hep. }
      destruct (IH (pre ++ [Some e])%list s1 true Hi1 Hch1)
        as (f2 & s2 & Hf2 & Hi2 & Hm2 & Hfr2 & Hd2).
      exists (max f1 f2), s2. split; [|split; [done|split; [|split]]].
      * intros f [|steps] Hf Hlt; [simpl in Hlt; lia|]. cbn [addChild_nest].
        rewrite Hch, list_lookup_middle, Hce, Hf1 by (done || lia).
        specialize (Hf2 f steps). rewrite Hpre in Hf2.
        rewrite Hf2 by (simpl in Hlt; lia). simpl. rewrite Hce.
        by rewrite orb_true_r.
      * intros q x Hx. by apply Hm2, Hm1.
      * intros q Hq. rewrite Hfr2, Hfr1; [done| |by destruct (R q e) eqn:Hqe;
          [rewrite (R_trans _ _ _ Hqe Hep) in Hq|] |done].
        intros ->. congruence.
      * intros x [[= ->]|Hx]%elem_of_cons Hx'; [by apply Hm2 | by apply Hd2].
    + assert (Hch1 : children s p = ((pre ++ [Some e]) ++ suf)%list).
      { by rewrite Hch, <- app_assoc. }
      destruct (IH (pre ++ [Some e])%list s added Hinv Hch1)
        as (f2 & s2 & Hf2 & Hi2 & Hm2 & Hfr2 & Hd2).
      exists f2, s2. split; [|split; [done|split; [done|split; [done|]]]].
      * intros f [|steps] Hf Hlt; [simpl in Hlt; lia|]. cbn [addChild_nest].
        rewrite Hch, list_lookup_middle, Hce by done.
        specialize (Hf2 f steps). rewrite Hpre in Hf2.
        rewrite Hf2 by (simpl in Hlt; lia). simpl. by rewrite Hce.
      * intros x [[= ->]|Hx]%elem_of_cons Hx'; [congruence | by apply Hd2].
  - assert (Hpre : length (pre ++ [None]) = S (length pre)).
    { rewrite length_app. simpl. lia. }
    assert (Hch1 : children s p = ((pre ++ [None]) ++ suf)%list).
    { by rewrite Hch, <- app_assoc. }
    destruct (IH (pre ++ [None])%list s added Hinv Hch1)
      as (f2 & s2 & Hf2 & Hi2 & Hm2 & Hfr2 & Hd2).
    exists f2, s2. split; [|split; [done|split; [done|split; [done|]]]].
    * intros f [|steps] Hf Hlt; [simpl in Hlt; lia|]. cbn [addChild_nest].
      rewrite Hch, list_lookup_middle by done.
      specialize (Hf2 f steps). rewrite Hpre in Hf2.
      by rewrite Hf2 by (simpl in Hlt; lia).
    * intros x [[=]|Hx]%elem_of_cons Hx'. by apply Hd2.
Qed.

(** The second loop of [p.addChild(c)], from the entry after [pre]. *)
Lemma reparent_total h p c :
  returns_below decks h -> rank decks p <= h -> R c p = true ->
  forall suf pre s t,
    inv decks s -> children s p = (pre ++ suf)%list ->
    exists f0 s' t',
      (forall f steps, f0 <= f -> length suf < steps ->
         addChild_reparent decks (addChild decks f) p c steps (length pre) t s
         = Some (t', s')) /\
      inv decks s' /\ mono s s' /\ frame_lt decks p s s' /\
      (forall x, Some x ∈ t' <-> Some x ∈ t \/ (Some x ∈ suf /\ R x c = true)) /\
      (forall e, Some e ∈ suf -> R e c = true -> desc s' c e).
Proof.
  intros Hrec Hp Hcp.
  assert (Hrc : rank decks c < h) by (apply rank_lt in Hcp; lia).
  induction suf as [|[e|] suf IH]; intros pre s t Hinv Hch.
  - exists 0, s, t.
    split; [|split; [done|split; [by intros ??|split; [by intros ??|split]]]]; cycle 1.
    { intros x. split; [auto|]. by intros [|[[]%elem_of_nil _]]. }
    { by intros e ?%elem_of_nil. }
    intros f [|steps] _ Hlt; [simpl in Hlt; lia|]. simpl.
    by rewrite Hch, app_nil_r, lookup_ge_None_2 by lia.
  - assert (Hpre : length (pre ++ [Some e]) = S (length pre)).
    { rewrite length_app. simpl. lia. }
    destruct (R e c) eqn:Hec.
    + destruct (Hrec c e s Hrc Hinv Hec) as (f1 & s1 & Hf1 & Hi1 & Hm1 & Hd1 & Hfr1).
      assert (Hch1 : children s1 p = ((pre ++ [Some e]) ++ suf)%list).
      { rewrite Hfr1, Hch, <- app_assoc; [done| |by apply R_asym].
        intros ->. by rewrite childOf_irrefl in Hcp. }
      destruct (IH (pre ++ [Some e])%list s1 (Set_add e t) Hi1 Hch1)
        as (f2 & s2 & t2 & Hf2 & Hi2 & Hm2 & Hfr2 & Ht2 & Hd2).
      exists (max f1 f2), s2, t2. split; [|split; [done|split; [|split; [|split]]]].
      * intros f [|steps] Hf Hlt; [simpl in Hlt; lia|]. cbn [addChild_reparent].
        rewrite Hch, list_lookup_middle, Hec, Hf1 by (done || lia).
        specialize (Hf2 f steps). rewrite Hpre in Hf2.
        by rewrite Hf2 by (simpl in Hlt; lia).
      * intros q x Hx. by apply Hm2, Hm1.
      * intros q Hq. rewrite Hfr2, Hfr1; [done| |by destruct (R q c) eqn:Hqc;
          [rewrite (R_trans _ _ _ Hqc Hcp) in Hq|] |done].
        intros ->. congruence.
      * intros x. rewrite Ht2, elem_Set_add, elem_of_cons. split.
        -- intros [[->|]|[? ?]]; auto.
        -- intros [|[[[= ->]|] ?]]; auto.
      * intros x [[= ->]|Hx]%elem_of_cons Hx'; [by apply Hm2 | by apply Hd2].
    + assert (Hch1 : children s p = ((pre ++ [Some e]) ++ suf)%list).
      { by rewrite Hch, <- app_assoc. }
      destruct (IH (pre ++ [Some e])%list s t Hinv Hch1)
        as (f2 & s2 & t2 & Hf2 & Hi2 & Hm2 & Hfr2 & Ht2 & Hd2).
      exists f2, s2, t2. split; [|split; [done|split; [done|split; [done|split]]]].
      * intros f [|steps] Hf Hlt; [simpl in Hlt; lia|]. cbn [addChild_reparent].
        rewrite Hch, list_lookup_middle, Hec by done.
        specialize (Hf2 f steps). rewrite Hpre in Hf2.
        by rewrite Hf2 by (simpl in Hlt; lia).
      * intros x. rewrite Ht2, elem_of_cons. split.
        -- intros [|[? ?]]; auto.
        -- intros [|[[[= ->]|] ?]]; auto. congruence.
      * intros x [[= ->]|Hx]%elem_of_cons Hx'; [congruence | by apply Hd2].
  - assert (Hpre : length (pre ++ [None]) = S (length pre)).
    { rewrite length_app. simpl. lia. }
    assert (Hch1 : children s p = ((pre ++ [None]) ++ suf)%list).
    { by rewrite Hch, <- app_assoc. }
    destruct (IH (pre ++ [None])%list s t Hinv Hch1)
      as (f2 & s2 & t2 & Hf2 & Hi2 & Hm2 & Hfr2 & Ht2 & Hd2).
    exists f2, s2, t2. split; [|split; [done|split; [done|split; [done|split]]]].
    * intros f [|steps] Hf Hlt; [simpl in Hlt; lia|]. cbn [addChild_reparent].
      rewrite Hch, list_lookup_middle by done.
      specialize (Hf2 f steps). rewrite Hpre in Hf2.
      by rewrite Hf2 by (simpl in Hlt; lia).
    * intros x. rewrite Ht2, elem_of_cons. split.
      -- intros [|[? ?]]; auto.
      -- intros [|[[[=]|] ?]]; auto.
    * intros x [[=]|Hx]%elem_of_cons Hx'. by apply Hd2.
Qed.

(** [addChild] returns and keeps the invariant. *)
Lemma addChild_total h : returns_below decks h.
Proof.
  induction h as [|h IH]; intros p c s Hr Hinv Hcp; [lia|].
  assert (Hp : rank decks p <= h) by lia.
  destruct (Set_has c (children s p)) eqn:Hhas.
  { exists 1, s. split.
    - intros [|f] Hf; [lia|]. cbn [addChild]. by rewrite Hhas.
    - split; [done|]. split; [by intros ??|]. split; [|done].
      by apply desc_child, Set_has_true. }
  destruct (nest_total h p c IH Hp (children s p) [] s false Hinv eq_refl)
    as (f1 & s1 & Hf1 & Hi1 & Hm1 & Hfr1 & Hd1).
  cbn [length orb app] in Hf1.
  assert (Hch1 : children s1 p = children s p) by apply Hfr1, childOf_irrefl.
  destruct (existsb (from_option (R c) false) (children s p)) eqn:Hex.
  { exists (S (max f1 (length (children s p)))), s1. split.
    - intros [|f] Hf; [lia|]. cbn [addChild].
      by rewrite Hhas, (Hf1 f (S f)) by lia.
    - split; [done|]. split; [done|]. split; [|by intros q _ Hq; apply Hfr1].
      apply existsb_exists in Hex as ([e|] & He%list_elem_of_In & Hce); [|done].
      simpl in Hce. eapply desc_step; [|by apply Hd1]. by rewrite Hch1. }
  destruct (reparent_total h p c IH Hp Hcp (children s1 p) [] s1 [] Hi1 eq_refl)
    as (f2 & s2 & t2 & Hf2 & Hi2 & Hm2 & Hfr2 & Ht2 & Hd2).
  cbn [length app] in Hf2, Ht2, Hd2.
  assert (Hch2 : children s2 p = children s p).
  { rewrite <- Hch1. apply Hfr2, childOf_irrefl. }
  set (s3 := delete_all p t2 s2).
  set (s' := set_children p (Set_add c (children s3 p)) s3).
  destruct (step_final s2 s' p c Hi2 Hcp) as (Hi' & Hm' & Hd').
  { intros q Hq. unfold s', s3. by rewrite children_set_ne, delete_all_ne. }
  { intros x. unfold s', s3.
    rewrite children_set_eq, elem_Set_add, elem_delete_all, Ht2, Hch2, Hch1.
    rewrite elem_of_nil. split.
    - intros [|[Hx Hn]]; [auto|]. right. split; [done|].
      destruct (R x c) eqn:Hxc; [|done]. exfalso. apply Hn. auto.
    - intros [|[Hx Hxc]]; [auto|]. right. split; [done|].
      intros [[]|[_ ?]]. congruence. }
  { intros e He Hec. apply Hd2; [|done]. by rewrite Hch1, <- Hch2. }
  { intros e He. destruct (R c e) eqn:Hce; [|done].
    assert (existsb (from_option (R c) false) (children s p) = true); [|congruence].
    apply existsb_exists. exists (Some e). split; [|done].
    apply list_elem_of_In. by rewrite <- Hch2. }
  exists (S (max (max f1 f2) (length (children s p)))), s'. split.
  - intros [|f] Hf; [lia|]. cbn [addChild].
    rewrite Hhas, (Hf1 f (S f)) by lia.
    by rewrite (Hf2 f (S f)) by (rewrite ?Hch1; lia).
  - split; [done|]. split; [|split; [done|]].
    + intros q x Hx. by apply Hm', Hm2, Hm1.
    + intros q Hq Hqp. unfold s', s3.
      by rewrite children_set_ne, delete_all_ne, Hfr2, Hfr1.
Qed.

Lemma inv_empty : inv decks ∅.
Proof.
  split; [apply below_empty|]. intros p k x Hk.
  unfold children in Hk. rewrite lookup_total_empty in Hk. by apply elem_of_nil in Hk.
Qed.

Lemma relate_total deck other st :
  inv decks st.1 ->
  exists f0 st',
    (forall f, f0 <= f -> relate decks f deck other st = Some st') /\
    inv decks st'.1 /\ mono st.1 st'.1 /\
    (R deck other = true -> desc st'.1 other deck).
Proof.
  intros Hinv. unfold relate. destruct (Nat.eqb_spec deck other) as [->|Hne].
  { exists 0, st. repeat split; try apply Hinv; [by intros ??|].
    by rewrite childOf_irrefl. }
  destruct (R deck other) eqn:Hc.
  - destruct (addChild_total (S (rank decks other)) other deck st.1)
      as (f0 & s' & Hf & Hi & Hm & Hd & _); [lia|done..|].
    exists f0, (s', Set_add deck st.2). split; [|done].
    intros f Hle. by rewrite Hf.
  - exists 0, st. repeat split; try apply Hinv; [by intros ??|done].
Qed.

(** With enough fuel the build returns; every child, by [isChildOf], of a deck
    is then among its descendants, and the [children] sets hold the maximal
    ones. *)
Lemma build_total :
  exists f0 r,
    (forall f, f0 <= f -> buildDeckHierarchy decks f = Some r) /\
    inv decks r.2 /\
    (forall d o, R d o = true -> desc r.2 o d).
Proof.
  set (ids := seq 0 (length decks)).
  set (ext := fun st st' : Store * JSSet => mono st.1 st'.1).
  assert (Hrefl : forall st, ext st st) by (by intros ???).
  assert (Htr : forall a b c, ext a b -> ext b c -> ext a c).
  { intros a b c Hab Hbc q x Hx. by apply Hbc, Hab. }
  destruct (for_each_total
              (fun f deck => for_each (relate decks f deck) ids)
              (fun st => inv decks st.1) ext
              (fun d st => forall o, o ∈ ids -> R d o = true -> desc st.1 o d)
              Hrefl Htr) with (xs := ids) (st := ((∅, []) : Store * JSSet))
    as (f0 & [s t] & Hf & Hi & _ & Hq).
  - intros d st st' Hext Hd o Ho Hdo. apply Hext. by apply Hd.
  - intros d st Hst.
    apply (for_each_total (fun f => relate decks f d) (fun st => inv decks st.1) ext
             (fun o st => R d o = true -> desc st.1 o d) Hrefl Htr).
    + intros o st1 st2 Hext Ho Hdo. apply Hext. by apply Ho.
    + intros o st1 Hst1. apply relate_total. done.
    + done.
  - apply inv_empty.
  - exists f0, (foldl (fun top deck => Set_delete deck top) (Some <$> ids)
                        (Set_values t), s).
    split; [|split; [done|]].
    + intros f Hle. unfold buildDeckHierarchy. fold ids. by rewrite Hf.
    + intros d o Hdo. simpl. pose proof (childOf_lt _ _ _ Hdo) as [Hd Ho].
      apply Hq; [| |done]; apply elem_of_seq; simpl; lia.
Qed.

(** The [children] sets of the result are the immediate children. *)
Lemma inv_children s :
  inv decks s -> (forall d o, R d o = true -> desc s o d) ->
  forall p c, Some c ∈ children s p <->
              R c p = true /\ forall m, R c m = true -> R m p = true -> False.
Proof.
  intros [Hb Hm] Hall p c. split.
  - intros Hc. split; [by apply Hb|]. intros m Hcm Hmp.
    by rewrite (Hm p c m Hc (Hall _ _ Hmp)) in Hcm.
  - intros [Hcp Hno]. destruct (desc_top _ _ _ (Hall _ _ Hcp)) as (e & He & [->|Hd]).
    + done.
    + exfalso. apply (Hno e); [by eapply desc_below | by apply Hb].
Qed.

(** Every child of a deck is a child of one of its immediate parents. *)
Lemma immediate_parent d : forall h o,
  rank decks o < h -> R d o = true ->
  exists p, R d p = true /\ forall m, R d m = true -> R m p = true -> False.
Proof.
  induction h as [|h IH]; intros o Hr Hdo; [lia|].
  destruct (existsb (fun m => R d m && R m o) (seq 0 (length decks))) eqn:E.
  - apply existsb_exists in E as (m & _ & [Hdm Hmo]%andb_true_iff).
    apply (IH m); [|done]. apply rank_lt in Hmo. lia.
  - exists o. split; [done|]. intros m Hdm Hmo.
    assert (existsb (fun m => R d m && R m o) (seq 0 (length decks)) = true);
      [|congruence].
    apply existsb_exists. exists m. split; [|by rewrite Hdm, Hmo].
    apply list_elem_of_In, elem_of_seq. apply childOf_lt in Hdm. simpl. lia.
Qed.

End Transitive.

(** ** The build when [isChildOf] has no cycle among the decks *)

Lemma moves_refl (P : nat -> Prop) s : moves P s s.
Proof. split; [done | auto]. Qed.

Lemma moves_trans (P : nat -> Prop) s1 s2 s3 :
  moves P s1 s2 -> moves P s2 s3 -> moves P s1 s3.
Proof.
  intros [Hf1 Hk1] [Hf2 Hk2]. split.
  - intros q Hq. by rewrite Hf2, Hf1.
  - intros x q Hx. destruct (Hk1 x q Hx) as [H|(q1 & Hq1 & H)].
    + apply Hk2 in H. done.
    + right. destruct (Hk2 x q1 H) as [H'|(q2 & Hq2 & H')]; eauto.
Qed.

Lemma moves_mono (P P' : nat -> Prop) s s' :
  (forall q, P q -> P' q) -> moves P s s' -> moves P' s s'.
Proof.
  intros HP [Hf Hk]. split.
  - intros q Hq. apply Hf. auto.
  - intros x q Hx. destruct (Hk x q Hx) as [H|(q1 & Hq1 & H)]; eauto.
Qed.

Lemma moves_placed (P : nat -> Prop) s s' x : moves P s s' -> placed s x -> placed s' x.
Proof.
  intros [_ Hk] [q Hq]. destruct (Hk x q Hq) as [H|(q1 & _ & H)]; by eexists.
Qed.

Lemma rank_check_sound {F : Type} (decks : list (Deck F)) (h : nat -> nat) :
  rank_check decks h = true -> acyclic_on decks.
Proof.
  unfold rank_check. rewrite forallb_forall. intros H.
  assert (Hstep : forall a b, childOf decks a b = true -> h a < h b).
  { intros a b Hab. pose proof (childOf_lt _ _ _ Hab) as [Ha Hb].
    assert (Ha' : In a (seq 0 (length decks))) by (apply in_seq; lia).
    specialize (H a Ha'). rewrite forallb_forall in H.
    assert (Hb' : In b (seq 0 (length decks))) by (apply in_seq; lia).
    specialize (H b Hb'). rewrite Hab in H. by apply Nat.ltb_lt in H. }
  assert (Hlt : forall a b, under decks a b -> h a < h b).
  { induction 1 as [a b Hab|a b c Hab _ IH]; [by apply Hstep|].
    apply Hstep in Hab. lia. }
  intros x Hx%Hlt. lia.
Qed.

Section Acyclic.

Context {FSRSCard : Type}.
Variable decks : list (Deck FSRSCard).
Hypothesis Hacyc : acyclic_on decks.
Local Abbreviation R := (childOf decks).

Lemma under_child a b : R a b = true -> under decks a b.
Proof. intros H. by apply tc_once. Qed.

Lemma under_up a b c : under decks a b -> R b c = true -> under decks a c.
Proof. intros H1 H2. eapply tc_r; eauto. Qed.

Lemma region_under e p q : R e p = true -> region decks e q -> under decks q p.
Proof. intros He [->|Hq]; [by apply under_child | by eapply under_up]. Qed.

Lemma not_under_self p : ~ under decks p p.
Proof. apply Hacyc. Qed.

Lemma not_region_parent e p : R e p = true -> ~ region decks e p.
Proof. intros He Hr. apply (not_under_self p). by eapply region_under. Qed.

(** Every deck is accessible: the decks under it are finitely many and none
    is met twice. *)
Lemma acc_from k : forall l p,
  NoDup (p :: l) -> (forall x, x ∈ p :: l -> x < length decks) ->
  (forall x, x ∈ l -> under decks p x) ->
  length (p :: l) + k = S (length decks) ->
  Acc (fun a b => R a b = true) p.
Proof.
  induction k as [|k IH]; intros l p Hnd Hlt Hup Hlen.
  - exfalso. assert (Hsub : p :: l ⊆+ seq 0 (length decks)).
    { apply NoDup_submseteq; [done|]. intros x Hx. apply elem_of_seq.
      specialize (Hlt x Hx). lia. }
    apply submseteq_length in Hsub. rewrite length_seq in Hsub. lia.
  - constructor. intros e He. apply (IH (p :: l) e).
    + constructor; [|done]. intros [->|Hin]%elem_of_cons.
      * by rewrite childOf_irrefl in He.
      * apply (not_under_self e). eapply tc_l; [exact He|]. by apply Hup.
    + intros x [->|Hx]%elem_of_cons; [|by apply Hlt].
      by apply childOf_lt in He as [? _].
    + intros x [->|Hx]%elem_of_cons; [by apply under_child|].
      eapply tc_l; [exact He|]. by apply Hup.
    + simpl in *. lia.
Qed.

Lemma acc_all p : Acc (fun a b => R a b = true) p.
Proof.
  destruct (decide (p < length decks)) as [Hp|Hp].
  - apply (acc_from (length decks) [] p).
    + apply NoDup_singleton.
    + by intros x ->%list_elem_of_singleton.
    + by intros x ?%elem_of_nil.
    + simpl. lia.
  - constructor. intros e He. apply childOf_lt in He. lia.
Qed.

(** The first loop of [p.addChild(c)], from the entry after [pre]. *)
Lemma nest_places p c :
  returns_under decks p ->
  forall suf pre s added,
    below decks s -> children s p = (pre ++ suf)%list ->
    exists f0 s',
      (forall f steps, f0 <= f -> length suf < steps ->
         addChild_nest decks (addChild decks f) p c steps (length pre) added s
         = Some (added || existsb (from_option (R c) false) suf, s')) /\
      below decks s' /\ moves (fun q => under decks q p) s s' /\
      (existsb (from_option (R c) false) suf = true ->
       exists q, under decks q p /\ Some c ∈ children s' q).
Proof.
  intros Hrec. induction suf as [|[e|] suf IH]; intros pre s added Hs Hch.
  - exists 0, s. split; [|split; [done|split; [apply moves_refl|done]]].
    intros f [|steps] _ Hlt; [simpl in Hlt; lia|]. simpl.
    rewrite Hch, app_nil_r, lookup_ge_None_2 by lia. by rewrite orb_false_r.
  - assert (Hep : R e p = true).
    { apply Hs. rewrite Hch, elem_of_app, elem_of_cons. auto. }
    assert (Hpre : length (pre ++ [Some e]) = S (length pre)).
    { rewrite length_app. simpl. lia. }
    destruct (R c e) eqn:Hce.
    + destruct (Hrec e Hep c s Hs Hce) as (f1 & s1 & Hf1 & Hm1 & q1 & Hq1 & Hc1).
      assert (Hs1 : below decks s1).
      { eapply (addChild_below decks f1); [exact Hce|exact Hs|]. by apply Hf1. }
      assert (Hch1 : children s1 p = ((pre ++ [Some e]) ++ suf)%list).
      { destruct Hm1 as [Hfr _]. rewrite Hfr, Hch, <- app_assoc; [done|].
        by apply not_region_parent. }
      destruct (IH (pre ++ [Some e])%list s1 true Hs1 Hch1)
        as (f2 & s2 & Hf2 & Hs2 & Hm2 & _).
      assert (Hm1' : moves (fun q => under decks q p) s s1).
      { eapply moves_mono; [|exact Hm1]. intros q. by apply region_under. }
      exists (max f1 f2), s2. split; [|split; [done|split]].
      * intros f [|steps] Hf Hlt; [simpl in Hlt; lia|]. cbn [addChild_nest].
        rewrite Hch, list_lookup_middle, Hce, Hf1 by (done || lia).
        specialize (Hf2 f steps). rewrite Hpre in Hf2.
        rewrite Hf2 by (simpl in Hlt; lia). simpl. rewrite Hce.
        by rewrite orb_true_r.
      * by eapply moves_trans.
      * intros _. destruct Hm2 as [_ Hk2].
        destruct (Hk2 c q1 Hc1) as [H|(q2 & Hq2 & H)].
        -- exists q1. split; [by eapply region_under | done].
        -- by exists q2.
    + assert (Hch1 : children s p = ((pre ++ [Some e]) ++ suf)%list).
      { by rewrite Hch, <- app_assoc. }
      destruct (IH (pre ++ [Some e])%list s added Hs Hch1)
        as (f2 & s2 & Hf2 & Hs2 & Hm2 & Hc2).
      exists f2, s2. split; [|split; [done|split; [done|]]].
      * intros f [|steps] Hf Hlt; [simpl in Hlt; lia|]. cbn [addChild_nest].
        rewrite Hch, list_lookup_middle, Hce by done.
        specialize (Hf2 f steps). rewrite Hpre in Hf2.
        rewrite Hf2 by (simpl in Hlt; lia). simpl. by rewrite Hce.
      * simpl. by rewrite Hce.
  - assert (Hpre : length (pre ++ [None]) = S (length pre)).
    { rewrite length_app. simpl. lia. }
    assert (Hch1 : children s p = ((pre ++ [None]) ++ suf)%list).
    { by rewrite Hch, <- app_assoc. }
    destruct (IH (pre ++ [None])%list s added Hs Hch1)
      as (f2 & s2 & Hf2 & Hs2 & Hm2 & Hc2).
    exists f2, s2. split; [|split; [done|split; [done|done]]].
    intros f [|steps] Hf Hlt; [simpl in Hlt; lia|]. cbn [addChild_nest].
    rewrite Hch, list_lookup_middle by done.
    specialize (Hf2 f steps). rewrite Hpre in Hf2.
    by rewrite Hf2 by (simpl in Hlt; lia).
Qed.

(** The second loop of [p.addChild(c)], from the entry after [pre]. *)
Lemma reparent_places p c :
  returns_under decks p -> R c p = true ->
  forall suf pre s t,
    below decks s -> children s p = (pre ++ suf)%list ->
    exists f0 s' t',
      (forall f steps, f0 <= f -> length suf < steps ->
         addChild_reparent decks (addChild decks f) p c steps (length pre) t s
         = Some (t', s')) /\
      below decks s' /\ moves (region decks c) s s' /\
      (forall x, Some x ∈ t' <-> Some x ∈ t \/ (Some x ∈ suf /\ R x c = true)) /\
      (forall e, Some e ∈ suf -> R e c = true ->
         exists q, region decks c q /\ Some e ∈ children s' q).
Proof.
  intros Hrec Hcp.
  induction suf as [|[e|] suf IH]; intros pre s t Hs Hch.
  - exists 0, s, t.
    split; [|split; [done|split; [apply moves_refl|split]]]; cycle 1.
    { intros x. split; [auto|]. by intros [|[[]%elem_of_nil _]]. }
    { by intros e ?%elem_of_nil. }
    intros f [|steps] _ Hlt; [simpl in Hlt; lia|]. simpl.
    by rewrite Hch, app_nil_r, lookup_ge_None_2 by lia.
  - assert (Hpre : length (pre ++ [Some e]) = S (length pre)).
    { rewrite length_app. simpl. lia. }
    destruct (R e c) eqn:Hec.
    + destruct (Hrec c Hcp e s Hs Hec) as (f1 & s1 & Hf1 & Hm1 & q1 & Hq1 & He1).
      assert (Hs1 : below decks s1).
      { eapply (addChild_below decks f1); [exact Hec|exact Hs|]. by apply Hf1. }
      assert (Hch1 : children s1 p = ((pre ++ [Some e]) ++ suf)%list).
      { destruct Hm1 as [Hfr _]. rewrite Hfr, Hch, <- app_assoc; [done|].
        by apply not_region_parent. }
      destruct (IH (pre ++ [Some e])%list s1 (Set_add e t) Hs1 Hch1)
        as (f2 & s2 & t2 & Hf2 & Hs2 & Hm2 & Ht2 & Hd2).
      exists (max f1 f2), s2, t2. split; [|split; [done|split; [|split]]].
      * intros f [|steps] Hf Hlt; [simpl in Hlt; lia|]. cbn [addChild_reparent].
        rewrite Hch, list_lookup_middle, Hec, Hf1 by (done || lia).
        specialize (Hf2 f steps). rewrite Hpre in Hf2.
        by rewrite Hf2 by (simpl in Hlt; lia).
      * by eapply moves_trans.
      * intros x. rewrite Ht2, elem_Set_add, elem_of_cons. split.
        -- intros [[->|]|[? ?]]; auto.
        -- intros [|[[[= ->]|] ?]]; auto.
      * intros x [[= ->]|Hx]%elem_of_cons Hx'; [|by apply Hd2].
        destruct Hm2 as [_ Hk2]. destruct (Hk2 e q1 He1) as [H|(q2 & Hq2 & H)]; eauto.
    + assert (Hch1 : children s p = ((pre ++ [Some e]) ++ suf)%list).
      { by rewrite Hch, <- app_assoc. }
      destruct (IH (pre ++ [Some e])%list s t Hs Hch1)
        as (f2 & s2 & t2 & Hf2 & Hs2 & Hm2 & Ht2 & Hd2).
      exists f2, s2, t2. split; [|split; [done|split; [done|split]]].
      * intros f [|steps] Hf Hlt; [simpl in Hlt; lia|]. cbn [addChild_reparent].
        rewrite Hch, list_lookup_middle, Hec by done.
        specialize (Hf2 f steps). rewrite Hpre in Hf2.
        by rewrite Hf2 by (simpl in Hlt; lia).
      * intros x. rewrite Ht2, elem_of_cons. split.
        -- intros [|[? ?]]; auto.
        -- intros [|[[[= ->]|] ?]]; auto. congruence.
      * intros x [[= ->]|Hx]%elem_of_cons Hx'; [congruence | by apply Hd2].
  - assert (Hpre : length (pre ++ [None]) = S (length pre)).
    { rewrite length_app. simpl. lia. }
    assert (Hch1 : children s p = ((pre ++ [None]) ++ suf)%list).
    { by rewrite Hch, <- app_assoc. }
    destruct (IH (pre ++ [None])%list s t Hs Hch1)
      as (f2 & s2 & t2 & Hf2 & Hs2 & Hm2 & Ht2 & Hd2).
    exists f2, s2, t2. split; [|split; [done|split; [done|split]]].
    * intros f [|steps] Hf Hlt; [simpl in Hlt; lia|]. cbn [addChild_reparent].
      rewrite Hch, list_lookup_middle by done.
      specialize (Hf2 f steps). rewrite Hpre in Hf2.
      by rewrite Hf2 by (simpl in Hlt; lia).
    * intros x. rewrite Ht2, elem_of_cons. split.
      -- intros [|[? ?]]; auto.
      -- intros [|[[[=]|] ?]]; auto.
    * intros x [[=]|Hx]%elem_of_cons Hx'. by apply Hd2.
Qed.

(** [addChild] returns on every deck and leaves the new child in the
    [children] set of the deck or of a deck under it; no member of a
    [children] set is lost. *)
Lemma addChild_places p c s :
  below decks s -> R c p = true ->
  exists f0 s', (forall f, f0 <= f -> addChild decks f p c s = Some s') /\
                moves (region decks p) s s' /\
                exists q, region decks p q /\ Some c ∈ children s' q.
Proof.
  revert c s. induction (acc_all p) as [p _ IHp]. intros c s Hs Hcp.
  assert (IH : returns_under decks p).
  { intros p' Hp' c' s0 Hs0 Hc'. by apply (IHp p' Hp'). }
  clear IHp.
  destruct (Set_has c (children s p)) eqn:Hhas.
  { exists 1, s. split; [|split; [apply moves_refl|]].
    - intros [|f] Hf; [lia|]. cbn [addChild]. by rewrite Hhas.
    - exists p. split; [by left | by apply Set_has_true]. }
  destruct (nest_places p c IH (children s p) [] s false Hs eq_refl)
    as (f1 & s1 & Hf1 & Hs1 & Hm1 & Hc1).
  cbn [length orb app] in Hf1.
  assert (Hch1 : children s1 p = children s p).
  { destruct Hm1 as [Hfr _]. apply Hfr, not_under_self. }
  assert (Hin : forall q, under decks q p -> region decks p q) by (by right).
  destruct (existsb (from_option (R c) false) (children s p)) eqn:Hex.
  { exists (S (max f1 (length (children s p)))), s1. split; [|split].
    - intros [|f] Hf; [lia|]. cbn [addChild].
      by rewrite Hhas, (Hf1 f (S f)) by lia.
    - eapply moves_mono; [exact Hin | exact Hm1].
    - destruct (Hc1 eq_refl) as (q & Hq & H). exists q. auto. }
  destruct (reparent_places p c IH Hcp (children s1 p) [] s1 [] Hs1 eq_refl)
    as (f2 & s2 & t2 & Hf2 & Hs2 & Hm2 & Ht2 & Hd2).
  cbn [length app] in Hf2, Ht2, Hd2.
  assert (Hm2' : moves (fun q => under decks q p) s1 s2).
  { eapply moves_mono; [|exact Hm2]. intros q. by apply region_under. }
  assert (Hch2 : children s2 p = children s p).
  { rewrite <- Hch1. destruct Hm2' as [Hfr _]. apply Hfr, not_under_self. }
  set (s3 := delete_all p t2 s2).
  set (s' := set_children p (Set_add c (children s3 p)) s3).
  assert (Hother : forall q, q <> p -> children s' q = children s2 q).
  { intros q Hq. unfold s', s3. by rewrite children_set_ne, delete_all_ne. }
  assert (Hp : forall x, Some x ∈ children s' p <->
                         x = c \/ (Some x ∈ children s2 p /\ Some x ∉ t2)).
  { intros x. unfold s', s3. by rewrite children_set_eq, elem_Set_add, elem_delete_all. }
  assert (Hlow : forall q, under decks q p -> q <> p).
  { intros q Hq ->. by apply (not_under_self p). }
  exists (S (max (max f1 f2) (length (children s p)))), s'. split; [|split].
  - intros [|f] Hf; [lia|]. cbn [addChild].
    rewrite Hhas, (Hf1 f (S f)) by lia.
    by rewrite (Hf2 f (S f)) by (rewrite ?Hch1; lia).
  - pose proof (moves_trans _ _ _ _ Hm1 Hm2') as [Hfr Hk]. split.
    + intros q Hq. rewrite Hother, Hfr; [done| |].
      * intros Hu. apply Hq. by right.
      * intros ->. apply Hq. by left.
    + intros x q Hx. destruct (Hk x q Hx) as [H|(q1 & Hq1 & H)].
      * destruct (decide (q = p)) as [->|Hq]; [|left; by rewrite Hother].
        destruct (decide (Some x ∈ t2)) as [Ht|Ht].
        -- apply Ht2 in Ht as [[]%elem_of_nil|[Hx2 Hxc]].
           destruct (Hd2 x Hx2 Hxc) as (q2 & Hq2 & H2). right. exists q2.
           assert (Hu : under decks q2 p) by (by eapply region_under).
           split; [by right|]. rewrite Hother; [done | by apply Hlow].
        -- left. apply Hp. auto.
      * right. exists q1. split; [by right|]. rewrite Hother; [done | by apply Hlow].
  - exists p. split; [by left|]. apply Hp. auto.
Qed.

Lemma relate_places deck other st :
  below decks st.1 ->
  exists f0 st',
    (forall f, f0 <= f -> relate decks f deck other st = Some st') /\
    below decks st'.1 /\
    (forall x, placed st.1 x -> placed st'.1 x) /\
    (R deck other = true -> placed st'.1 deck).
Proof.
  intros Hs. unfold relate. destruct (Nat.eqb_spec deck other) as [->|Hne].
  { exists 0, st. split; [done|]. split; [done|]. split; [done|].
    by rewrite childOf_irrefl. }
  destruct (R deck other) eqn:Hc.
  - destruct (addChild_places other deck st.1 Hs Hc) as (f0 & s' & Hf & Hm & q & _ & Hq).
    exists f0, (s', Set_add deck st.2). split; [|split; [|split]].
    + intros f Hle. by rewrite Hf.
    + simpl. eapply (addChild_below decks f0); [exact Hc|exact Hs|]. by apply Hf.
    + intros x. simpl. by apply (moves_placed _ _ _ _ Hm).
    + intros _. by exists q.
  - exists 0, st. split; [done|]. split; [done|]. split; [done|done].
Qed.

(** The build returns; afterwards every deck that is a child of another is a
    member of some [children] set. *)
Lemma build_places :
  exists f0 r,
    (forall f, f0 <= f -> buildDeckHierarchy decks f = Some r) /\
    below decks r.2 /\
    (forall d o, R d o = true -> placed r.2 d).
Proof.
  set (ids := seq 0 (length decks)).
  set (ext := fun st st' : Store * JSSet => forall x, placed st.1 x -> placed st'.1 x).
  assert (Hrefl : forall st, ext st st) by (by intros ??).
  assert (Htr : forall a b c, ext a b -> ext b c -> ext a c).
  { intros a b c Hab Hbc x Hx. by apply Hbc, Hab. }
  destruct (for_each_total
              (fun f deck => for_each (relate decks f deck) ids)
              (fun st => below decks st.1) ext
              (fun d st => forall o, o ∈ ids -> R d o = true -> placed st.1 d)
              Hrefl Htr) with (xs := ids) (st := ((∅, []) : Store * JSSet))
    as (f0 & [s t] & Hf & Hi & _ & Hq).
  - intros d st st' Hext Hd o Ho Hdo. apply Hext. by apply (Hd o).
  - intros d st Hst.
    apply (for_each_total (fun f => relate decks f d) (fun st => below decks st.1) ext
             (fun o st => R d o = true -> placed st.1 d) Hrefl Htr).
    + intros o st1 st2 Hext Ho Hdo. apply Hext. by apply Ho.
    + intros o st1 Hst1. apply relate_places. done.
    + done.
  - apply below_empty.
  - exists f0, (foldl (fun top deck => Set_delete deck top) (Some <$> ids)
                        (Set_values t), s).
    split; [|split; [done|]].
    + intros f Hle. unfold buildDeckHierarchy. fold ids. by rewrite Hf.
    + intros d o Hdo. simpl. pose proof (childOf_lt _ _ _ Hdo) as [Hd Ho].
      apply (Hq d) with o; [| |done]; apply elem_of_seq; simpl; lia.
Qed.

End Acyclic.

Lemma transitive_check_sound {F : Type} (decks : list (Deck F)) :
  transitive_check decks = true -> transitive_on decks.
Proof.
  unfold transitive_check. rewrite forallb_forall.
  intros H a b c Ha%list_elem_of_In Hb%list_elem_of_In Hc%list_elem_of_In Hab Hbc.
  specialize (H a Ha). rewrite forallb_forall in H.
  specialize (H b Hb). rewrite forallb_forall in H.
  specialize (H c Hc). by rewrite Hab, Hbc in H.
Qed.

Lemma transitive_on_perm {F : Type} (l1 l2 : list (Deck F)) :
  l1 ≡ₚ l2 -> transitive_on l1 -> transitive_on l2.
Proof.
  intros Hp Ht a b c Ha Hb Hc. rewrite <- Hp in Ha, Hb, Hc. by apply Ht.
Qed.

(** ** The forest by deck value *)

Section ByValue.

Context {FSRSCard : Type}.
Variable decks : list (Deck FSRSCard).
Local Abbreviation R := (childOf decks).

Lemma childOf_value i j a b :
  decks !! i = Some a -> decks !! j = Some b -> R i j = isChildOf a b.
Proof. intros Hi Hj. unfold childOf. by rewrite Hi, Hj. Qed.

Lemma root_deck_spec fuel r a :
  buildDeckHierarchy decks fuel = Some r ->
  root_deck decks r a <-> a ∈ decks /\ forall b, b ∈ decks -> isChildOf a b = false.
Proof.
  intros [_ Hroots]%buildDeckHierarchy_sound. unfold root_deck. split.
  - intros (i & [_ Hi]%Hroots & Ha). split; [by eapply list_elem_of_lookup_2|].
    intros b (j & Hb)%list_elem_of_lookup. by rewrite <- (childOf_value i j), Hi.
  - intros [(i & Ha)%list_elem_of_lookup Hb]. exists i. split; [|done].
    apply Hroots. split; [by eapply lookup_lt_Some|]. intros o.
    destruct (R i o) eqn:E; [|done].
    apply childOf_lookup in E as (a' & b & Ha' & Hb' & Hab).
    assert (a' = a) as -> by congruence.
    rewrite Hb in Hab; [done | by eapply list_elem_of_lookup_2].
Qed.

Lemma child_deck_spec r a b :
  (forall p c, Some c ∈ children r.2 p <->
               R c p = true /\ forall m, R c m = true -> R m p = true -> False) ->
  child_deck decks r a b <->
  a ∈ decks /\ b ∈ decks /\ isChildOf b a = true /\
  forall m, m ∈ decks -> isChildOf b m = true -> isChildOf m a = true -> False.
Proof.
  intros Hch. unfold child_deck, childrenOf. split.
  - intros (i & j & Hi & Hj & [Hji Hno]%elem_Set_values%Hch).
    split; [by eapply list_elem_of_lookup_2|].
    split; [by eapply list_elem_of_lookup_2|].
    split; [by rewrite <- (childOf_value j i)|].
    intros m (k & Hk)%list_elem_of_lookup Hbm Hma. apply (Hno k).
    + by rewrite (childOf_value j k b m).
    + by rewrite (childOf_value k i m a).
  - intros ((i & Hi)%list_elem_of_lookup & (j & Hj)%list_elem_of_lookup & Hba & Hno).
    exists i, j. split; [done|]. split; [done|]. apply elem_Set_values, Hch.
    split; [by rewrite (childOf_value j i b a)|].
    intros k (b' & m & Hb' & Hm & Hbm)%childOf_lookup
             (m' & a' & Hm' & Ha' & Hma)%childOf_lookup.
    assert (b' = b) as -> by congruence. assert (m' = m) as -> by congruence.
    assert (a' = a) as -> by congruence.
    apply (Hno m); [by eapply list_elem_of_lookup_2|done..].
Qed.

End ByValue.

(** ** More fuel never changes a result *)

Section Fuel.

Context {FSRSCard : Type}.
Variable decks : list (Deck FSRSCard).

Lemma nest_mono rec rec' this child :
  refines rec rec' ->
  forall steps steps' i added s r,
    steps <= steps' ->
    addChild_nest decks rec this child steps i added s = Some r ->
    addChild_nest decks rec' this child steps' i added s = Some r.
Proof.
  intros Hrec. induction steps as [|steps IH]; intros [|steps'] i added s r Hle;
    simpl; try done; try lia.
  destruct (children s this !! i) as [[existing|]|]; [| |done].
  - destruct (childOf decks child existing).
    + destruct (rec existing child s) as [s'|] eqn:E; [|done].
      rewrite (Hrec _ _ _ _ E). apply IH. lia.
    + apply IH. lia.
  - apply IH. lia.
Qed.

Lemma reparent_mono rec rec' this child :
  refines rec rec' ->
  forall steps steps' i t s r,
    steps <= steps' ->
    addChild_reparent decks rec this child steps i t s = Some r ->
    addChild_reparent decks rec' this child steps' i t s = Some r.
Proof.
  intros Hrec. induction steps as [|steps IH]; intros [|steps'] i t s r Hle;
    simpl; try done; try lia.
  destruct (children s this !! i) as [[existing|]|]; [| |done].
  - destruct (childOf decks existing child).
    + destruct (rec child existing s) as [s'|] eqn:E; [|done].
      rewrite (Hrec _ _ _ _ E). apply IH. lia.
    + apply IH. lia.
  - apply IH. lia.
Qed.

Lemma addChild_mono fuel fuel' :
  fuel <= fuel' -> refines (addChild decks fuel) (addChild decks fuel').
Proof.
  revert fuel'. induction fuel as [|fuel IH]; intros [|fuel'] Hle p c s s';
    try done; try lia.
  assert (Hrec : refines (addChild decks fuel) (addChild decks fuel')) by (apply IH; lia).
  cbn [addChild]. destruct (Set_has c (children s p)); [done|].
  destruct (addChild_nest _ _ _ _ (S fuel) _ _ _) as [[added s1]|] eqn:E1; [|done].
  rewrite (nest_mono _ _ _ _ Hrec _ (S fuel') _ _ _ _ Hle E1).
  destruct added; [done|].
  destruct (addChild_reparent _ _ _ _ (S fuel) _ _ _) as [[t s2]|] eqn:E2; [|done].
  by rewrite (reparent_mono _ _ _ _ Hrec _ (S fuel') _ _ _ _ Hle E2).
Qed.

Lemma for_each_mono {A St : Type} (body body' : A -> St -> option St) xs :
  (forall x st st', body x st = Some st' -> body' x st = Some st') ->
  forall st st', for_each body xs st = Some st' -> for_each body' xs st = Some st'.
Proof.
  intros Hb. induction xs as [|x xs IH]; intros st st'; simpl; [done|].
  destruct (body x st) as [st1|] eqn:E; [|done]. rewrite (Hb _ _ _ E). apply IH.
Qed.

Lemma buildDeckHierarchy_mono fuel fuel' r :
  fuel <= fuel' ->
  buildDeckHierarchy decks fuel = Some r -> buildDeckHierarchy decks fuel' = Some r.
Proof.
  intros Hle. unfold buildDeckHierarchy.
  destruct (for_each _ _ _) as [[s t]|] eqn:E; [|done]. intros [= <-].
  assert (Hm : forall d st st',
             for_each (relate decks fuel d) (seq 0 (length decks)) st = Some st' ->
             for_each (relate decks fuel' d) (seq 0 (length decks)) st = Some st');
    [|by rewrite (for_each_mono
                    (fun deck => for_each (relate decks fuel deck) (seq 0 (length decks)))
                    (fun deck => for_each (relate decks fuel' deck) (seq 0 (length decks)))
                    _ Hm _ _ E)].
  intros d. apply for_each_mono. intros o st st'. unfold relate.
  destruct (_ =? _)%nat; [done|]. destruct (childOf decks d o); [|done].
  destruct (addChild decks fuel o d st.1) as [s'|] eqn:Ea; [|done].
  by rewrite (addChild_mono _ _ Hle _ _ _ _ Ea).
Qed.

Lemma buildDeckHierarchy_deterministic fuel fuel' r r' :
  buildDeckHierarchy decks fuel = Some r ->
  buildDeckHierarchy decks fuel' = Some r' -> r = r'.
Proof.
  intros H H'.
  apply (buildDeckHierarchy_mono _ (max fuel fuel')) in H; [|lia].
  apply (buildDeckHierarchy_mono _ (max fuel fuel')) in H'; [|lia].
  congruence.
Qed.

End Fuel.

(** * The claims *)

(** ** Pattern relation *)

(** C6. The eight pattern-relation scenarios of the specification:
    [isSubset] returns exactly the listed values. *)
Theorem pattern_relation_scenarios :
  PatternHierarchy.isSubset "Work/Math/**" "Work/**" = true /\
  PatternHierarchy.isSubset "Work/**" "Work/Math/**" = false /\
  PatternHierarchy.isSubset "**" "**" = false /\
  PatternHierarchy.isSubset "*" "**" = true /\
  PatternHierarchy.isSubset "**" "*" = false /\
  PatternHierarchy.isSubset "README.md" "*.md" = true /\
  PatternHierarchy.isSubset "*.md" "*.js" = false /\
  PatternHierarchy.isSubset "Workshop/**" "Work/**" = false.
Proof. vm_compute. repeat split. Qed.

(** ** [isChildOf] *)

(** C7. Cardinality guard: a deck with strictly more cards than another is
    never its child. *)
Theorem cardinality_guard {F : Type} (A B : Deck F) :
  length (cards B) < length (cards A) -> isChildOf A B = false.
Proof.
  intros H. unfold isChildOf.
  by rewrite (proj2 (Nat.ltb_lt _ _) H).
Qed.

Lemma cardinality_guard_witness :
  length (cards (emptyDeck "**")) < length (cards (mkDeck "*" [note])) /\
  isChildOf (mkDeck "*" [note]) (emptyDeck "**") = false.
Proof.
  split; [simpl; lia|].
  apply (cardinality_guard (mkDeck "*" [note]) (emptyDeck "**")). simpl. lia.
Defined.

(** C4, as stated, fails: a deck with a card is not a child of a deck without
    cards, whatever [isSubset] says of the patterns. *)
Lemma zero_items_counterexample :
  (length (cards (mkDeck "*" [note])) = 0 \/ length (cards (emptyDeck "**")) = 0) /\
  isChildOf (mkDeck "*" [note]) (emptyDeck "**")
  <> PatternHierarchy.isSubset (pattern (mkDeck "*" [note])) (pattern (emptyDeck "**")).
Proof. split; [by right|]. vm_compute. discriminate. Qed.

(** C4, amended. When one of the two decks has no cards, [A.isChildOf(B)] is
    [isSubset] of the patterns if [A] has none, and [false] if [A] has cards
    (then [B] has none and the cardinality guard answers). *)
Theorem zero_items_fallback {F : Type} (A B : Deck F) :
  cards A = [] \/ cards B = [] ->
  isChildOf A B = match cards A with
                  | [] => PatternHierarchy.isSubset (pattern A) (pattern B)
                  | _ :: _ => false
                  end.
Proof.
  unfold isChildOf. intros [H|H]; rewrite H.
  - simpl. by destruct (cards B).
  - by destruct (cards A).
Qed.

Lemma zero_items_fallback_witness :
  (cards (emptyDeck "*") = [] \/ cards (mkDeck "**" [note]) = []) /\
  isChildOf (emptyDeck "*") (mkDeck "**" [note])
  = PatternHierarchy.isSubset "*" "**".
Proof.
  split; [by left|].
  apply (zero_items_fallback (emptyDeck "*") (mkDeck "**" [note])). by left.
Defined.

(** C8. Equal-set tie-break: for two decks with cards, with as many cards and
    the same card paths, [isChildOf] is [isSubset] of the patterns; and when
    [isSubset] holds in neither direction, neither deck is in the [children]
    set of the other after the build. *)
Theorem equal_sets_tie_break {F : Type} (decks : list (Deck F)) (i j : nat) (A B : Deck F) :
  decks !! i = Some A -> decks !! j = Some B ->
  cards A <> [] -> cards B <> [] ->
  length (cards A) = length (cards B) ->
  (forall p, p ∈ (path <$> cards A) <-> p ∈ (path <$> cards B)) ->
  isChildOf A B = PatternHierarchy.isSubset (pattern A) (pattern B) /\
  (PatternHierarchy.isSubset (pattern A) (pattern B) = false ->
   PatternHierarchy.isSubset (pattern B) (pattern A) = false ->
   forall fuel r, buildDeckHierarchy decks fuel = Some r ->
                  (i ∉ childrenOf r j) /\ (j ∉ childrenOf r i)).
Proof.
  intros Hi Hj HA HB Hlen Hsame.
  assert (Htie : forall (X Y : Deck F),
             cards X <> [] -> length (cards X) = length (cards Y) ->
             (forall p, p ∈ (path <$> cards X) -> p ∈ (path <$> cards Y)) ->
             isChildOf X Y = PatternHierarchy.isSubset (pattern X) (pattern Y)).
  { intros X Y HX Hl Hsub.
    assert (Hall : forallb (fun p => existsb (String.eqb p) (map path (cards Y)))
                           (map path (cards X)) = true).
    { apply forallb_forall. intros p Hp%list_elem_of_In.
      apply existsb_exists. exists p. split; [|apply String.eqb_refl].
      apply list_elem_of_In. by apply Hsub. }
    unfold isChildOf. rewrite Hl, Nat.ltb_irrefl, Nat.eqb_refl, Hall. simpl.
    by destruct (_ && _). }
  assert (HAB := Htie A B HA Hlen (fun p => proj1 (Hsame p))).
  assert (HBA := Htie B A HB (eq_sym Hlen) (fun p => proj2 (Hsame p))).
  split; [done|]. intros Hab Hba fuel r Hr.
  destruct (buildDeckHierarchy_sound decks fuel r Hr) as [Hbelow _].
  unfold childrenOf. rewrite !elem_Set_values.
  split; intros Hc%Hbelow; unfold childOf in Hc; rewrite Hi, Hj in Hc; congruence.
Qed.

Lemma equal_sets_tie_break_witness :
  (tie_decks !! 0 = Some (mkDeck "x*" [note]) /\
   tie_decks !! 1 = Some (mkDeck "y*" [note]) /\
   PatternHierarchy.isSubset "x*" "y*" = false /\
   PatternHierarchy.isSubset "y*" "x*" = false /\
   buildDeckHierarchy tie_decks 3 = Some ([Some 0; Some 1], ∅)) /\
  isChildOf (mkDeck "x*" [note]) (mkDeck "y*" [note])
  = PatternHierarchy.isSubset "x*" "y*" /\
  (0 ∉ childrenOf ([Some 0; Some 1], ∅) 1) /\
  (1 ∉ childrenOf ([Some 0; Some 1], ∅) 0).
Proof.
  destruct (equal_sets_tie_break tie_decks 0 1 (mkDeck "x*" [note]) (mkDeck "y*" [note]))
    as [H1 H2]; try done.
  split; [repeat split|]. split; [exact H1|].
  apply (H2 eq_refl eq_refl 3); reflexivity.
Defined.

(** ** The forest *)

(** C3. Forest scenario: the five patterns without cards, inserted in any
    order, build the forest with ["**"] as sole root, ["**/*"] as its only
    child, ["*"] and ["Work/**"] as the children of ["**/*"], and ["README.md"]
    as the child of ["*"]. *)
Theorem forest_scenario (l : list string) (fuel : nat) :
  l ≡ₚ forest_patterns -> 30 <= fuel ->
  exists r, buildDeckHierarchy (emptyDeck <$> l) fuel = Some r /\
            forest_expected (emptyDeck <$> l) r.
Proof.
  intros Hl Hfuel.
  assert (Hall : forallb forest_check (permutations forest_patterns) = true)
    by (vm_compute; reflexivity).
  rewrite forallb_forall in Hall.
  assert (Hc : forest_check l = true).
  { apply Hall, list_elem_of_In, permutations_Permutation. by symmetry. }
  unfold forest_check in Hc.
  destruct (buildDeckHierarchy (emptyDeck <$> l) 30) as [r|] eqn:E; [|done].
  exists r. split; [by eapply buildDeckHierarchy_mono | by apply bool_decide_eq_true in Hc].
Qed.

Lemma forest_scenario_witness :
  forest_patterns ≡ₚ forest_patterns /\ 30 <= 30 /\
  exists r, buildDeckHierarchy (emptyDeck <$> forest_patterns) 30 = Some r /\
            forest_expected (emptyDeck <$> forest_patterns) r.
Proof.
  split; [reflexivity|]. split; [lia|].
  apply (forest_scenario forest_patterns 30); [reflexivity | lia].
Defined.

(** C2. The forest is not always acyclic: [isSubset] orders ["**/*"] and
    ["**/**"] in both directions, and building these two decks removes both
    from the top level and makes each the only child of the other. *)
Theorem cyclic_patterns_build_a_cycle :
  PatternHierarchy.isSubset "**/*" "**/**" = true /\
  PatternHierarchy.isSubset "**/**" "**/*" = true /\
  match buildDeckHierarchy cyclic_decks 2 with
  | Some r => roots r = [] /\ childrenOf r 0 = [1] /\ childrenOf r 1 = [0] /\
              desc r.2 0 0
  | None => False
  end.
Proof.
  split; [reflexivity|]. split; [reflexivity|].
  vm_compute buildDeckHierarchy.
  split; [reflexivity|]. split; [reflexivity|]. split; [reflexivity|].
  apply desc_step with 1; [|apply desc_child]; by apply elem_Set_values; vm_compute; left.
Qed.

(** C1, as stated, fails: ["README.md"] is a child of ["*"] and of ["**.md"],
    which are unrelated, and ends in the [children] sets of both. *)
Lemma two_parents_counterexample :
  match buildDeckHierarchy diamond_decks 2 with
  | Some r => roots r = [0; 1] /\ 2 ∈ childrenOf r 0 /\ 2 ∈ childrenOf r 1
  | None => False
  end.
Proof.
  vm_compute buildDeckHierarchy.
  split; [reflexivity|]. split; vm_compute; left.
Qed.

(** C1, amended. When [isChildOf] has no cycle among the decks, the build
    returns and every deck is either at the top level and in no [children]
    set, or off the top level and in one or more [children] sets. *)
Theorem root_or_children {F : Type} (decks : list (Deck F)) :
  acyclic_on decks ->
  exists f0 r,
    (forall f, f0 <= f -> buildDeckHierarchy decks f = Some r) /\
    forall d, d < length decks ->
      (d ∈ roots r /\ forall p, d ∉ childrenOf r p) \/
      ((d ∉ roots r) /\ exists p, d ∈ childrenOf r p).
Proof.
  intros Ha. destruct (build_places decks Ha) as (f0 & r & Hf & Hb & Hall).
  exists f0, r. split; [done|]. intros d Hd.
  destruct (buildDeckHierarchy_sound decks f0 r (Hf f0 (le_n _))) as [_ Hroots].
  destruct (existsb (childOf decks d) (seq 0 (length decks))) eqn:E.
  - right. apply existsb_exists in E as (o & _ & Hdo). split.
    + intros [_ Hn]%Hroots. by rewrite Hn in Hdo.
    + destruct (Hall d o Hdo) as [p Hp]. exists p. by apply elem_Set_values.
  - left. assert (Hn : forall o, childOf decks d o = false).
    { intros o. destruct (childOf decks d o) eqn:Hdo; [|done].
      assert (existsb (childOf decks d) (seq 0 (length decks)) = true); [|congruence].
      apply existsb_exists. exists o. split; [|done].
      apply list_elem_of_In, elem_of_seq. apply childOf_lt in Hdo. simpl. lia. }
    split; [by apply Hroots|].
    intros p Hp%elem_Set_values%Hb. by rewrite Hn in Hp.
Qed.

Lemma root_or_children_witness :
  acyclic_on markdown_order_2 /\
  exists f0 r,
    (forall f, f0 <= f -> buildDeckHierarchy markdown_order_2 f = Some r) /\
    forall d, d < length markdown_order_2 ->
      (d ∈ roots r /\ forall p, d ∉ childrenOf r p) \/
      ((d ∉ roots r) /\ exists p, d ∈ childrenOf r p).
Proof.
  assert (H : acyclic_on markdown_order_2)
    by (apply (rank_check_sound _ (fun i => 4 - i)); vm_compute; reflexivity).
  split; [exact H|]. exact (root_or_children markdown_order_2 H).
Defined.

(** C5. The forest depends on the order in which the decks are inserted. The
    four decks without cards of the markdown scenario, in two orders, are built
    into different forests for every recursion budget of 2 or more: in the
    first order ["**"] has the one child ["**.md"], in the second it has
    ["**.md"] and ["chapter-*.md"]. *)
Theorem build_depends_on_insertion_order :
  markdown_order_1 ≡ₚ markdown_order_2 /\
  exists r1 r2,
    (forall f, 2 <= f ->
       buildDeckHierarchy markdown_order_1 f = Some r1 /\
       buildDeckHierarchy markdown_order_2 f = Some r2) /\
    childPatterns markdown_order_1 r1 "**" = ["**.md"] /\
    childPatterns markdown_order_2 r2 "**" = ["**.md"; "chapter-*.md"] /\
    ~ same_forest markdown_order_1 r1 markdown_order_2 r2.
Proof.
  split.
  { unfold markdown_order_1, markdown_order_2. apply fmap_Permutation.
    apply Permutation_skip.
    change ["*.md"; "chapter-*.md"; "**.md"]
      with (["*.md"; "chapter-*.md"] ++ ["**.md"])%list.
    change ["**.md"; "*.md"; "chapter-*.md"]
      with (["**.md"] ++ ["*.md"; "chapter-*.md"])%list.
    apply Permutation_app_comm. }
  destruct (buildDeckHierarchy markdown_order_1 2) as [r1|] eqn:E1; [|discriminate E1].
  destruct (buildDeckHierarchy markdown_order_2 2) as [r2|] eqn:E2; [|discriminate E2].
  exists r1, r2. split.
  { intros f Hf. split; eapply buildDeckHierarchy_mono; eauto. }
  vm_compute in E1, E2. injection E1 as <-. injection E2 as <-.
  split; [reflexivity|]. split; [reflexivity|].
  intros [_ H].
  destruct (H (emptyDeck "**") (emptyDeck "chapter-*.md")) as [_ Hc].
  destruct Hc as (i & j & Hi & Hj & Hc).
  { exists 0, 3. repeat split. vm_compute. right. left. }
  destruct i as [|[|[|[|i]]]]; try discriminate Hi.
  destruct j as [|[|[|[|j]]]]; try discriminate Hj.
  vm_compute in Hc. inversion Hc as [|? ? ? Hc']. inversion Hc'.
Qed.

(** The same happens with cards: the four decks of the vault scenario give two
    different forests in two insertion orders (["x/y/**"] is, or is not, a
    member of the [children] set of ["**"]). *)
Lemma insertion_order_of_vault :
  vault_order_1 ≡ₚ vault_order_2 /\
  match buildDeckHierarchy vault_order_1 3, buildDeckHierarchy vault_order_2 3 with
  | Some r1, Some r2 => ~ same_forest vault_order_1 r1 vault_order_2 r2
  | _, _ => False
  end.
Proof.
  split.
  { unfold vault_order_1, vault_order_2. apply Permutation_skip.
    change [deck_x; deck_xy; deck_md] with ([deck_x] ++ [deck_xy; deck_md])%list.
    change [deck_xy; deck_md; deck_x] with ([deck_xy; deck_md] ++ [deck_x])%list.
    apply Permutation_app_comm. }
  vm_compute buildDeckHierarchy. intros [_ H].
  destruct (H deck_all deck_xy) as [(i & j & Hi & Hj & Hc) _].
  { exists 0, 1. repeat split. vm_compute. left. }
  destruct i as [|[|[|[|i]]]]; try discriminate Hi.
  destruct j as [|[|[|[|j]]]]; try discriminate Hj.
  vm_compute in Hc. inversion Hc as [|? ? ? Hc']. inversion Hc'.
Qed.

(** Where [isChildOf] is transitive on the decks, the order does not matter:
    the builds of a list of decks and of any permutation of it return
    structurally identical forests. *)
Lemma transitive_build_any_order {F : Type} (l1 l2 : list (Deck F)) :
  l1 ≡ₚ l2 -> transitive_on l1 ->
  exists f0 r1 r2,
    (forall f, f0 <= f ->
       buildDeckHierarchy l1 f = Some r1 /\ buildDeckHierarchy l2 f = Some r2) /\
    same_forest l1 r1 l2 r2.
Proof.
  intros Hp Ht1. pose proof (transitive_on_perm _ _ Hp Ht1) as Ht2.
  destruct (build_total l1 Ht1) as (f1 & r1 & Hf1 & Hinv1 & Hall1).
  destruct (build_total l2 Ht2) as (f2 & r2 & Hf2 & Hinv2 & Hall2).
  exists (max f1 f2), r1, r2. split.
  { intros f Hf. split; [apply Hf1 | apply Hf2]; lia. }
  split.
  - intros a.
    rewrite (root_deck_spec l1 f1 r1 a), (root_deck_spec l2 f2 r2 a) by auto.
    split; intros [Ha Hb]; (split; [by rewrite ?Hp in *|]);
      intros b Hb'; apply Hb; by rewrite ?Hp in *.
  - intros a b.
    rewrite (child_deck_spec l1 r1 a b), (child_deck_spec l2 r2 a b)
      by (by apply inv_children).
    split; intros (Ha & Hb & Hba & Hno); (repeat split; [by rewrite ?Hp in *..|]);
      intros m Hm; apply Hno; by rewrite ?Hp in *.
Qed.

(** C9. A chain is flattened in one insertion order. In the markdown scenario
    ["chapter-*.md"] is a child of ["*.md"], ["*.md"] a child of ["**"] and
    ["chapter-*.md"] a child of ["**"]. Inserted in the second order, the
    build leaves ["chapter-*.md"] in the [children] set of ["**"] (and in that
    of ["*.md"]); inserted in the first order, it does not. *)
Theorem chain_flattened_in_one_order :
  (childOf markdown_order_2 3 2 = true /\
   childOf markdown_order_2 2 0 = true /\
   childOf markdown_order_2 3 0 = true) /\
  (patternOf markdown_order_2 3 = "chapter-*.md" /\
   patternOf markdown_order_2 2 = "*.md" /\
   patternOf markdown_order_2 0 = "**") /\
  exists r1 r2,
    (forall f, 2 <= f ->
       buildDeckHierarchy markdown_order_1 f = Some r1 /\
       buildDeckHierarchy markdown_order_2 f = Some r2) /\
    3 ∈ childrenOf r2 0 /\ 3 ∈ childrenOf r2 2 /\
    childPatterns markdown_order_2 r2 "**" = ["**.md"; "chapter-*.md"] /\
    childPatterns markdown_order_1 r1 "**" = ["**.md"] /\
    childPatterns markdown_order_1 r1 "*.md" = ["chapter-*.md"].
Proof.
  split; [by repeat split|]. split; [by repeat split|].
  destruct (buildDeckHierarchy markdown_order_1 2) as [r1|] eqn:E1; [|discriminate E1].
  destruct (buildDeckHierarchy markdown_order_2 2) as [r2|] eqn:E2; [|discriminate E2].
  exists r1, r2. split.
  { intros f Hf. split; eapply buildDeckHierarchy_mono; eauto. }
  vm_compute in E1, E2. injection E1 as <-. injection E2 as <-.
  split; [vm_compute; right; left|]. split; [vm_compute; left|].
  by repeat split.
Qed.

(** The same happens with cards: in the vault scenario ["x/y/**"] is a child
    of ["x/**"] and of ["**"], and ["x/**"] is a child of ["**"], yet after the
    build ["x/y/**"] is a direct child of ["**"]. *)
Lemma chain_flattened_in_vault :
  childOf vault_order_1 1 3 = true /\
  childOf vault_order_1 3 0 = true /\
  childOf vault_order_1 1 0 = true /\
  match buildDeckHierarchy vault_order_1 3 with
  | Some r => 1 ∈ childrenOf r 0
  | None => False
  end.
Proof.
  split; [reflexivity|]. split; [reflexivity|]. split; [reflexivity|].
  vm_compute. left.
Qed.

(** Where [isChildOf] is transitive on the decks and [A] is a child of [B],
    [B] of [C] and [A] of [C], the build returns with [A] among the descendants
    of [B] and not in the [children] set of [C]. *)
Lemma transitive_build_nests {F : Type} (decks : list (Deck F)) (A B C : nat) :
  transitive_on decks ->
  childOf decks A B = true -> childOf decks B C = true -> childOf decks A C = true ->
  exists f0 r,
    (forall f, f0 <= f -> buildDeckHierarchy decks f = Some r) /\
    desc r.2 B A /\ A ∉ childrenOf r C.
Proof.
  intros Ht HAB HBC HAC. destruct (build_total decks Ht) as (f0 & r & Hf & Hinv & Hall).
  exists f0, r. split; [done|]. split; [by apply Hall|].
  intros [_ Hno]%elem_Set_values%(inv_children decks Ht r.2 Hinv Hall).
  by apply (Hno B).
Qed.

(** ** [buildDecks] *)

Lemma for_each_app {A St : Type} (body : A -> St -> option St) xs ys st :
  for_each body (xs ++ ys)%list st
  = match for_each body xs st with
    | Some st' => for_each body ys st'
    | None => None
    end.
Proof.
  revert st. induction xs as [|x xs IH]; intros st; simpl; [done|].
  by destruct (body x st).
Qed.

(** In the looping scenario, once the first two decks are each other's child,
    adding the third below either never returns. *)
Lemma looping_addChild fuel :
  addChild looping_decks fuel 0 2 looping_store = None /\
  addChild looping_decks fuel 1 2 looping_store = None.
Proof.
  induction fuel as [|fuel [IH0 IH1]]; [done|].
  split; cbn [addChild addChild_nest].
  - change (Set_has 2 (children looping_store 0)) with false.
    change (children looping_store 0 !! 0) with (Some (Some 1)).
    change (childOf looping_decks 2 1) with true.
    cbv iota. by rewrite IH1.
  - change (Set_has 2 (children looping_store 1)) with false.
    change (children looping_store 1 !! 0) with (Some (Some 0)).
    change (childOf looping_decks 2 0) with true.
    cbv iota. by rewrite IH0.
Qed.

Lemma looping_build fuel : buildDeckHierarchy looping_decks fuel = None.
Proof.
  destruct fuel as [|fuel]; [reflexivity|].
  assert (E : for_each (fun deck => for_each (relate looping_decks (S fuel) deck) [0; 1; 2])
                       [0; 1] (∅, [])
              = Some (looping_store, [Some 0; Some 1])).
  { apply (for_each_mono
             (fun deck => for_each (relate looping_decks 1 deck) [0; 1; 2])); [|reflexivity].
    intros d. apply for_each_mono. intros o st st'. unfold relate.
    destruct (_ =? _)%nat; [done|]. destruct (childOf looping_decks d o); [|done].
    destruct (addChild looping_decks 1 o d st.1) as [s'|] eqn:Ea; [|done].
    by rewrite (addChild_mono looping_decks 1 (S fuel) ltac:(lia) _ _ _ _ Ea). }
  unfold buildDeckHierarchy.
  change (seq 0 (length looping_decks)) with [0; 1; 2].
  change [0; 1; 2] with ([0; 1] ++ [2])%list at 2.
  rewrite for_each_app, E. cbn [for_each].
  unfold relate at 1. cbn [fst snd Nat.eqb].
  change (childOf looping_decks 2 0) with true. cbv iota.
  by rewrite (proj1 (looping_addChild (S fuel))).
Qed.

(** C10. [buildDecks] does not return on every input: in a vault without
    markdown files, the include patterns ["**/*"], ["**/**"] and ["**/*.md"]
    make the hierarchy build recurse for ever, whatever the collaborators. *)
Theorem buildDecks_never_returns {JSValue FrontMatterCache : Type}
    (minimatch : string -> string -> bool)
    (frontmatterOf : TFile -> option FrontMatterCache)
    (flashcard_question : FrontMatterCache -> option string)
    (spaced_repetition : FrontMatterCache -> option (list JSValue))
    (validateAndParseFrontmatter : option (list JSValue) -> ValidationResult unit JSValue)
    (fuel : nat) :
  buildDecks minimatch frontmatterOf flashcard_question spaced_repetition
             validateAndParseFrontmatter tt fuel [] looping_settings
  = None.
Proof.
  unfold buildDecks. cbn [collect looping_settings include exclude foldl visit_pattern
    filterFiles length Nat.eqb filter list_filter fst snd app cardsOf allErrors
    errorProcessedFiles].
  change [mkDeck "**/*" []; mkDeck "**/**" []; mkDeck "**/*.md" []] with looping_decks.
  by rewrite looping_build.
Qed.

(** On every run that returns, the two results do not mix: the errors are
    returned exactly when a visited file fails card validation, and they are
    the errors of the failing files, each path once. *)

Section Channel.

Context {FSRSCard JSValue FrontMatterCache : Type}.
Variable minimatch : string -> string -> bool.
Variable frontmatterOf : TFile -> option FrontMatterCache.
Variable flashcard_question : FrontMatterCache -> option string.
Variable spaced_repetition : FrontMatterCache -> option (list JSValue).
Variable validateAndParseFrontmatter :
  option (list JSValue) -> ValidationResult FSRSCard JSValue.
Variable createEmptyCard : FSRSCard.

Local Abbreviation init file :=
  (Card_init flashcard_question spaced_repetition validateAndParseFrontmatter
             createEmptyCard file (frontmatterOf file)).
Local Abbreviation errors_of :=
  (file_errors frontmatterOf flashcard_question spaced_repetition
               validateAndParseFrontmatter createEmptyCard).
Local Abbreviation fails :=
  (failing frontmatterOf flashcard_question spaced_repetition
           validateAndParseFrontmatter createEmptyCard).
Local Abbreviation gathered :=
  (collected frontmatterOf flashcard_question spaced_repetition
             validateAndParseFrontmatter createEmptyCard).
Local Abbreviation matched := (matched_files minimatch).
Local Abbreviation visit :=
  (visit_file frontmatterOf flashcard_question spaced_repetition
              validateAndParseFrontmatter createEmptyCard).

Lemma Card_init_errors file result : init file = inr result -> result <> [].
Proof.
  unfold Card_init, fromFrontmatter.
  destruct (length (errors _) =? 0)%nat eqn:E; simpl; [done|].
  intros [= <-]. destruct (errors _); [done|]. done.
Qed.

Lemma has_path (p : string) (ps : list string) :
  existsb (String.eqb p) ps = true <-> p ∈ ps.
Proof.
  rewrite existsb_exists. split.
  - intros (q & Hq%list_elem_of_In & Heq%String.eqb_eq). by subst.
  - intros H. exists p. split; [by apply list_elem_of_In | apply String.eqb_refl].
Qed.

Lemma visit_collected visited st file :
  gathered visited st -> gathered (visited ++ [file]) (visit st file).
Proof.
  intros (fs & He & Hp & Hnd & Hin & Hall). unfold visit_file.
  assert (Hold : forall f, f ∈ fs -> f ∈ (visited ++ [file])%list /\ fails f).
  { intros f Hf. rewrite elem_of_app. split; [left|]; by apply Hin. }
  destruct (existsb _ _) eqn:Hhas.
  - exists fs. repeat split; try done; try (by apply Hold).
    intros f [Hf|Hf]%elem_of_app Hfail; [by apply Hall|].
    apply list_elem_of_singleton in Hf as ->. rewrite <- Hp. by apply has_path.
  - assert (Hnew : file_path file ∉ (file_path <$> fs)).
    { rewrite <- Hp. intros H%has_path. congruence. }
    destruct (init file) as [c|result] eqn:Hinit; simpl.
    + exists fs. repeat split; try done; try (by apply Hold).
      intros f [Hf|Hf]%elem_of_app [e Hfail]; [apply Hall; [done | by exists e]|].
      apply list_elem_of_singleton in Hf as ->. congruence.
    + exists (fs ++ [file])%list. split; [|split; [|split; [|split]]].
      * rewrite flat_map_app, He. simpl. rewrite app_nil_r.
        unfold errors_of at 3. by rewrite Hinit.
      * by rewrite Hp, fmap_app.
      * rewrite fmap_app. apply NoDup_app. split; [done|]. split.
        -- intros p Hp' Hp''. apply list_elem_of_singleton in Hp'' as ->. done.
        -- apply NoDup_singleton.
      * intros f [Hf|Hf]%elem_of_app; [by apply Hold|].
        apply list_elem_of_singleton in Hf as ->.
        rewrite elem_of_app, list_elem_of_singleton. split; [by right | by exists result].
      * intros f [Hf|Hf]%elem_of_app Hfail;
          rewrite fmap_app, elem_of_app; [left; by apply Hall|].
        apply list_elem_of_singleton in Hf as ->.
        right. by apply list_elem_of_singleton.
Qed.

Lemma visit_all_collected files : forall visited st,
  gathered visited st -> gathered (visited ++ files) (foldl visit st files).
Proof.
  induction files as [|file files IH]; intros visited st H; simpl.
  - by rewrite app_nil_r.
  - replace (visited ++ file :: files)%list with ((visited ++ [file]) ++ files)%list
      by (by rewrite <- app_assoc).
    by apply IH, visit_collected.
Qed.

Lemma collect_collected allFiles settings :
  gathered (matched allFiles settings)
    (collect minimatch frontmatterOf flashcard_question spaced_repetition
             validateAndParseFrontmatter createEmptyCard allFiles settings).2.
Proof.
  unfold collect, matched_files.
  set (step := visit_pattern _ _ _ _ _ _ _ _).
  assert (H : forall ps visited acc,
             gathered visited acc.2 ->
             gathered (visited ++ flat_map (fun pattern =>
                          filterFiles minimatch allFiles [pattern] (exclude settings)) ps)
                       (foldl step acc ps).2).
  { induction ps as [|p ps IH]; intros visited acc Hc; simpl.
    - by rewrite app_nil_r.
    - rewrite app_assoc. apply IH. unfold step, visit_pattern. simpl.
      apply visit_all_collected. destruct Hc as (fs & ?). by exists fs. }
  apply (H (include settings) [] ([], mkCollected [] [] [])).
  exists []. split; [done|]. split; [done|]. split; [apply NoDup_nil_2|].
  split; intros g Hg; by apply elem_of_nil in Hg.
Qed.

Lemma buildDecks_channel fuel allFiles settings res :
  buildDecks minimatch frontmatterOf flashcard_question spaced_repetition
             validateAndParseFrontmatter createEmptyCard fuel allFiles settings
  = Some res ->
  match res with
  | inl _ => forall f, f ∈ matched allFiles settings -> ~ fails f
  | inr errs =>
      errs <> [] /\
      exists fs,
        errs = flat_map errors_of fs /\
        NoDup (file_path <$> fs) /\
        (forall f, f ∈ fs ->
           f ∈ matched allFiles settings /\ fails f) /\
        (forall f, f ∈ matched allFiles settings -> fails f ->
           file_path f ∈ (file_path <$> fs))
  end.
Proof.
  unfold buildDecks. pose proof (collect_collected allFiles settings) as Hc.
  destruct (collect _ _ _ _ _ _ _ _) as [decks st]. simpl in Hc.
  destruct (buildDeckHierarchy decks fuel) as [h|]; [|done].
  destruct Hc as (fs & He & Hp & Hnd & Hin & Hall).
  destruct (length (allErrors st) =? 0)%nat eqn:E; intros [= <-].
  - intros f Hf Hfail. pose proof (Hall f Hf Hfail) as Hmem.
    apply list_elem_of_fmap in Hmem as (g & _ & Hg).
    destruct (Hin g Hg) as [_ [e Hinit]].
    apply Nat.eqb_eq in E. rewrite He in E.
    apply list_elem_of_In, in_split in Hg as (l1 & l2 & ->).
    rewrite flat_map_app in E. simpl in E. unfold errors_of at 2 in E.
    rewrite Hinit, !length_app in E. apply Card_init_errors in Hinit.
    destruct e; [done|]. simpl in E. lia.
  - split; [|by exists fs]. intros H. by rewrite H in E.
Qed.

End Channel.

(** * Further properties of the code *)

(** ** [isChildOf] and the built forest *)

(** X1. No deck is its own child, whatever its pattern and cards. *)
Theorem isChildOf_never_reflexive {F : Type} (d : Deck F) : isChildOf d d = false.
Proof.
  unfold isChildOf. rewrite Nat.ltb_irrefl, Nat.eqb_refl.
  assert (Hown : forallb (fun p => existsb (String.eqb p) (map path (cards d)))
                         (map path (cards d)) = true).
  { apply forallb_forall. intros p Hp. apply existsb_exists.
    exists p. split; [done | apply String.eqb_refl]. }
  rewrite Hown. unfold PatternHierarchy.isSubset. rewrite String.eqb_refl.
  simpl. by destruct (_ && _).
Qed.

(** X2. Whenever [buildDeckHierarchy] returns, the decks left at the top level
    are exactly those that are a child of no deck, and every member of a
    [children] set is a child, by [isChildOf], of the owner of the set. *)
Theorem top_level_and_children_sound {F : Type} (decks : list (Deck F)) fuel r :
  buildDeckHierarchy decks fuel = Some r ->
  (forall d, d ∈ roots r <->
             d < length decks /\ forall o, childOf decks d o = false) /\
  (forall p c, c ∈ childrenOf r p -> childOf decks c p = true).
Proof.
  intros [Hb Hr]%buildDeckHierarchy_sound. split; [exact Hr|].
  intros p c Hc%elem_Set_values. by apply Hb.
Qed.

Lemma top_level_and_children_sound_witness :
  buildDeckHierarchy chain_decks 3 = Some ([Some 0; None; None], chain_store) /\
  (forall d, d ∈ roots ([Some 0; None; None], chain_store) <->
             d < length chain_decks /\ forall o, childOf chain_decks d o = false) /\
  (forall p c, c ∈ childrenOf ([Some 0; None; None], chain_store) p ->
               childOf chain_decks c p = true).
Proof.
  split; [reflexivity|].
  apply (top_level_and_children_sound chain_decks 3). reflexivity.
Defined.

(** X3. Whenever [buildDeckHierarchy] returns, every descendant of a deck is
    linked to it by a chain of [isChildOf]; so a deck can be its own
    descendant only if [isChildOf] has a cycle among the decks. *)
Theorem forest_follows_isChildOf {F : Type} (decks : list (Deck F)) fuel r :
  buildDeckHierarchy decks fuel = Some r ->
  (forall p x, desc r.2 p x -> tc (fun a b => childOf decks a b = true) x p) /\
  ((forall x, ~ tc (fun a b => childOf decks a b = true) x x) ->
   forall p, ~ desc r.2 p p).
Proof.
  intros [Hb _]%buildDeckHierarchy_sound.
  assert (H : forall p x, desc r.2 p x ->
                          tc (fun a b => childOf decks a b = true) x p).
  { induction 1 as [p c Hc|p e c He _ IH].
    - apply tc_once. by apply Hb.
    - eapply tc_r; [exact IH|]. by apply Hb. }
  split; [exact H|]. intros Hacyclic p Hp. by apply (Hacyclic p), H.
Qed.

Lemma forest_follows_isChildOf_witness :
  (buildDeckHierarchy chain_decks 3 = Some ([Some 0; None; None], chain_store) /\
   forall x, ~ tc (fun a b => childOf chain_decks a b = true) x x) /\
  (forall p x, desc chain_store p x ->
               tc (fun a b => childOf chain_decks a b = true) x p) /\
  (forall p, ~ desc chain_store p p).
Proof.
  assert (Hlt : forall a b, tc (fun a b => childOf chain_decks a b = true) a b -> b < a).
  { assert (H1 : forall a b, childOf chain_decks a b = true -> b < a).
    { intros a b H. destruct (childOf_lt _ _ _ H) as [Ha Hb]. simpl in Ha, Hb.
      destruct a as [|[|[|a]]], b as [|[|[|b]]]; try lia; by vm_compute in H. }
    induction 1 as [a b H|a b c H _ IH]; [by apply H1|].
    apply H1 in H. lia. }
  assert (Hacyclic : forall x, ~ tc (fun a b => childOf chain_decks a b = true) x x).
  { intros x Hx%Hlt. lia. }
  destruct (forest_follows_isChildOf chain_decks 3 ([Some 0; None; None], chain_store))
    as [H1 H2]; [reflexivity|].
  split; [split; [reflexivity | exact Hacyclic]|]. split; [exact H1 | exact (H2 Hacyclic)].
Defined.

(** ** [buildDecks]: what the returned decks hold *)

Section Built.

Context {FSRSCard JSValue FrontMatterCache : Type}.
Variable minimatch : string -> string -> bool.
Variable frontmatterOf : TFile -> option FrontMatterCache.
Variable flashcard_question : FrontMatterCache -> option string.
Variable spaced_repetition : FrontMatterCache -> option (list JSValue).
Variable validateAndParseFrontmatter :
  option (list JSValue) -> ValidationResult FSRSCard JSValue.
Variable createEmptyCard : FSRSCard.

Local Abbreviation init file :=
  (Card_init flashcard_question spaced_repetition validateAndParseFrontmatter
             createEmptyCard file (frontmatterOf file)).
Local Abbreviation visit :=
  (visit_file frontmatterOf flashcard_question spaced_repetition
              validateAndParseFrontmatter createEmptyCard).
Local Abbreviation visit_p :=
  (visit_pattern minimatch frontmatterOf flashcard_question spaced_repetition
                 validateAndParseFrontmatter createEmptyCard).
Local Abbreviation collect_ :=
  (collect minimatch frontmatterOf flashcard_question spaced_repetition
           validateAndParseFrontmatter createEmptyCard).
Local Abbreviation build_ :=
  (buildDecks minimatch frontmatterOf flashcard_question spaced_repetition
              validateAndParseFrontmatter createEmptyCard).

Lemma filterFiles_elem allFiles inc exc f :
  f ∈ filterFiles minimatch allFiles inc exc <->
  f ∈ allFiles /\ extension f = "md" /\
  (exists p, p ∈ inc /\ minimatch (file_path f) p = true) /\
  (forall e, e ∈ exc -> minimatch (file_path f) e = false).
Proof.
  unfold filterFiles. destruct inc as [|p0 inc]; simpl.
  { rewrite elem_of_nil. split; [done|]. by intros (_ & _ & (p & ?%elem_of_nil & _) & _). }
  rewrite list_elem_of_filter.
  destruct (String.eqb_spec (extension f) "md") as [Hmd|Hmd]; simpl;
    [|split; [by intros [[] _] | by intros (_ & ? & _)]].
  set (inc' := p0 :: inc).
  change (minimatch (file_path f) p0 || existsb (fun pattern => minimatch (file_path f) pattern) inc)
    with (existsb (fun pattern => minimatch (file_path f) pattern) inc').
  destruct (existsb _ inc') eqn:Hin; simpl.
  - apply existsb_exists in Hin as (p & Hp%list_elem_of_In & Hm).
    destruct (existsb _ exc) eqn:Hex; simpl.
    + apply existsb_exists in Hex as (e & He%list_elem_of_In & Hme).
      split; [by intros [[] _]|]. intros (_ & _ & _ & Hn). specialize (Hn e He).
      congruence.
    + split; [|by intuition]. intros [_ Hf]. repeat split; eauto.
      intros e He. destruct (minimatch (file_path f) e) eqn:Hme; [|done].
      assert (existsb (fun pattern => minimatch (file_path f) pattern) exc = true);
        [|congruence].
      apply existsb_exists. exists e. split; [by apply list_elem_of_In | done].
  - split; [by intros [[] _]|]. intros (_ & _ & (p & Hp & Hm) & _).
    assert (existsb (fun pattern => minimatch (file_path f) pattern) inc' = true);
      [|congruence].
    apply existsb_exists. exists p. split; [by apply list_elem_of_In | done].
Qed.

Lemma Card_init_path file c : init file = inl c -> path c = file_path file.
Proof.
  unfold Card_init. destruct (fromFrontmatter _ _ _); [|done]. by intros [= <-].
Qed.

Lemma Card_init_filePath file result e :
  init file = inr result -> e ∈ result -> filePath e = Some (file_path file).
Proof.
  unfold Card_init. destruct (fromFrontmatter _ _ _) as [|errs]; [done|].
  intros [= <-] (x & -> & _)%list_elem_of_fmap. done.
Qed.

(** The errors only grow. *)
Lemma errors_grow files : forall st,
  exists more, allErrors (foldl visit st files) = (allErrors st ++ more)%list.
Proof.
  induction files as [|file files IH]; intros st; simpl.
  - exists []. by rewrite app_nil_r.
  - destruct (IH (visit st file)) as (more & ->). unfold visit_file.
    destruct (existsb _ _); [by exists more|].
    destruct (init file); simpl; [by exists more|].
    eexists. by rewrite <- app_assoc.
Qed.

(** A pattern visited without any error gathers the card of each file. *)
Lemma visit_clean files : forall st,
  allErrors (foldl visit st files) = [] -> errorProcessedFiles st = [] ->
  errorProcessedFiles (foldl visit st files) = [] /\
  exists cs, cardsOf (foldl visit st files) = (cardsOf st ++ cs)%list /\
             Forall2 (fun f c => init f = inl c) files cs.
Proof.
  induction files as [|file files IH]; intros st Hall Hepf; simpl in *.
  - split; [done|]. exists []. by rewrite app_nil_r.
  - destruct (errors_grow files (visit st file)) as (more & Hmore).
    rewrite Hall in Hmore. symmetry in Hmore. apply app_eq_nil in Hmore as [H1 _].
    assert (Hv : exists c, init file = inl c /\
                           visit st file = mkCollected (cardsOf st ++ [c])%list
                                             (allErrors st) (errorProcessedFiles st)).
    { unfold visit_file in *. rewrite Hepf in *. simpl in *.
      destruct (init file) as [c|result] eqn:Hi; simpl in *; [by exists c|].
      apply app_eq_nil in H1 as [_ ->].
      by apply (Card_init_errors frontmatterOf flashcard_question spaced_repetition
                  validateAndParseFrontmatter createEmptyCard) in Hi. }
    destruct Hv as (c & Hi & Hv). destruct (IH (visit st file) Hall) as [He (cs & Hc & Hcs)].
    { by rewrite Hv. }
    split; [done|]. exists (c :: cs). rewrite Hc, Hv. simpl.
    rewrite <- app_assoc. split; [done | by constructor].
Qed.

Lemma collect_clean allFiles settings :
  forall ps acc,
    allErrors (foldl (visit_p allFiles settings) acc ps).2 = [] ->
    errorProcessedFiles acc.2 = [] ->
    Forall2 (fun p d =>
               pattern d = p /\
               Forall2 (fun f c => init f = inl c)
                       (filterFiles minimatch allFiles [p] (exclude settings)) (cards d))
            ps (drop (length acc.1) (foldl (visit_p allFiles settings) acc ps).1) /\
    take (length acc.1) (foldl (visit_p allFiles settings) acc ps).1 = acc.1.
Proof.
  induction ps as [|p ps IH]; intros acc Hall Hepf; simpl in *.
  - rewrite drop_all, firstn_all. split; [constructor | done].
  - assert (Hstep : allErrors (visit_p allFiles settings acc p).2 = []).
    { clear IH Hepf. revert Hall. generalize (visit_p allFiles settings acc p).
      induction ps as [|q ps IHp]; intros acc' Hall; simpl in *; [done|].
      apply IHp in Hall. unfold visit_pattern in Hall. simpl in Hall.
      destruct (errors_grow (filterFiles minimatch allFiles [q] (exclude settings))
                  (mkCollected [] (allErrors acc'.2) (errorProcessedFiles acc'.2)))
        as (more & Hmore).
      rewrite Hall in Hmore. symmetry in Hmore. simpl in Hmore.
      by apply app_eq_nil in Hmore as [-> _]. }
    unfold visit_pattern in Hstep. simpl in Hstep.
    destruct (visit_clean _ _ Hstep Hepf) as [Hepf' (cs & Hcards & Hcs)]. simpl in Hcards.
    destruct (IH (visit_p allFiles settings acc p) Hall) as [Hd Ht].
    { unfold visit_pattern. simpl. exact Hepf'. }
    set (res := (foldl (visit_p allFiles settings) (visit_p allFiles settings acc p) ps).1)
      in *.
    unfold visit_pattern in Hd, Ht at 2. simpl in Hd, Ht.
    rewrite length_app in Hd, Ht. simpl in Hd, Ht.
    assert (Hres : res = (acc.1 ++ [mkDeck p cs] ++ drop (length acc.1 + 1) res)%list).
    { rewrite <- (take_drop (length acc.1 + 1) res) at 1.
      by rewrite Ht, Hcards, <- app_assoc. }
    split.
    + rewrite Hres at 1. rewrite drop_app_length. simpl. by constructor.
    + rewrite Hres. by rewrite take_app_length.
Qed.

(** X4. When [buildDecks] returns decks, there is one deck per include
    pattern, in the order of the setting, and the cards of each deck are the
    results of [Card.init] on the files that [filterFiles] keeps for the
    pattern of the deck alone, in the order of the vault. *)
Theorem returned_decks_hold_filtered_files fuel allFiles settings decks h :
  build_ fuel allFiles settings = Some (inl (decks, h)) ->
  Forall2 (fun p d =>
             pattern d = p /\
             Forall2 (fun f c => init f = inl c)
                     (filterFiles minimatch allFiles [p] (exclude settings)) (cards d))
          (include settings) decks.
Proof.
  unfold buildDecks.
  pose proof (collect_clean allFiles settings (include settings)
                ([], mkCollected [] [] [])) as H.
  fold (collect_ allFiles settings) in H.
  destruct (collect_ allFiles settings) as [ds st]. simpl in H.
  destruct (buildDeckHierarchy ds fuel) as [h'|]; [|done].
  destruct (length (allErrors st) =? 0)%nat eqn:E; [|done].
  intros [= <- _]. apply Nat.eqb_eq, length_zero_iff_nil in E.
  destruct (H E eq_refl) as [Hd _]. by rewrite drop_0 in Hd.
Qed.

(** X5. [filterFiles] keeps, in the order of the vault, exactly the files with
    extension [md] whose path matches some include pattern and no exclude
    pattern; with no include pattern it keeps nothing. *)
Theorem filterFiles_spec allFiles inc exc :
  sublist (filterFiles minimatch allFiles inc exc) allFiles /\
  (forall f, f ∈ filterFiles minimatch allFiles inc exc <->
             f ∈ allFiles /\ extension f = "md" /\
             (exists p, p ∈ inc /\ minimatch (file_path f) p = true) /\
             (forall e, e ∈ exc -> minimatch (file_path f) e = false)) /\
  filterFiles minimatch allFiles [] exc = [].
Proof.
  split; [|split].
  - unfold filterFiles. destruct (length inc =? 0)%nat.
    + apply sublist_nil_l.
    + apply sublist_filter.
  - intros f. apply filterFiles_elem.
  - done.
Qed.

(** X6. Every error that [buildDecks] returns carries the path of a file
    that some include pattern keeps and on which [Card.init] fails. *)
Theorem returned_errors_name_their_file fuel allFiles settings errs :
  build_ fuel allFiles settings = Some (inr errs) ->
  forall e, e ∈ errs ->
    exists f result,
      f ∈ matched_files minimatch allFiles settings /\
      init f = inr result /\ e ∈ result /\
      filePath e = Some (file_path f).
Proof.
  intros H%buildDecks_channel. destruct H as (_ & fs & -> & _ & Hin & _).
  intros e (f & Hf%list_elem_of_In & He%list_elem_of_In)%list_elem_of_In%in_flat_map.
  destruct (Hin f Hf) as [Hm _]. unfold file_errors in He.
  destruct (init f) as [c|result] eqn:Hi; [by apply elem_of_nil in He|].
  exists f, result. repeat split; try done.
  by apply (Card_init_filePath f result).
Qed.

(** X7. When [isChildOf] has no cycle among the decks built from the include
    patterns, [buildDecks] returns, for every large enough recursion budget:
    decks exactly when [Card.init] succeeds on every file kept by an include
    pattern; otherwise the errors of the failing files, those of a file once
    however many patterns keep it, and never an empty list of errors. *)
Theorem decks_or_errors allFiles settings :
  acyclic_on (collect_ allFiles settings).1 ->
  exists f0 res,
    (forall fuel, f0 <= fuel -> build_ fuel allFiles settings = Some res) /\
    match res with
    | inl _ =>
        forall f, f ∈ matched_files minimatch allFiles settings ->
                  exists c, init f = inl c
    | inr errs =>
        errs <> [] /\
        exists fs,
          errs = flat_map (file_errors frontmatterOf flashcard_question spaced_repetition
                             validateAndParseFrontmatter createEmptyCard) fs /\
          NoDup (file_path <$> fs) /\
          (forall f, f ∈ fs ->
             f ∈ matched_files minimatch allFiles settings /\
             exists result, init f = inr result) /\
          (forall f, f ∈ matched_files minimatch allFiles settings ->
             (exists result, init f = inr result) -> file_path f ∈ (file_path <$> fs))
    end.
Proof.
  intros Ha.
  destruct (build_places _ Ha) as (f0 & h & Hf & _).
  assert (Hres : exists res, forall fuel, f0 <= fuel ->
                   build_ fuel allFiles settings = Some res).
  { unfold buildDecks. destruct (collect_ allFiles settings) as [decks st].
    eexists. intros fuel Hle. simpl in Hf. by rewrite (Hf fuel Hle). }
  destruct Hres as [res Hres]. exists f0, res. split; [exact Hres|].
  pose proof (buildDecks_channel _ _ _ _ _ _ _ _ _ _ (Hres f0 (le_n _))) as H.
  destruct res as [ds|errs]; [|exact H].
  intros f Hf'. specialize (H f Hf'). destruct (init f) as [c|result] eqn:Hi; [by exists c|].
  exfalso. apply H. by exists result.
Qed.

End Built.

Lemma returned_decks_hold_filtered_files_witness :
  sample_buildDecks 1 [file_good; file_text] two_patterns
  = Some (inl (sample_decks, ([None; Some 1], sample_store))) /\
  Forall2 (fun p d =>
             pattern d = p /\
             Forall2 (fun f c =>
                        Card_init no_question sr_of reject_data tt f (frontmatter_of f)
                        = inl c)
                     (filterFiles match_all [file_good; file_text] [p] []) (cards d))
          ["*"; "**"] sample_decks.
Proof.
  split; [reflexivity|].
  apply (returned_decks_hold_filtered_files match_all frontmatter_of no_question sr_of
           reject_data tt 1 [file_good; file_text] two_patterns sample_decks
           ([None; Some 1], sample_store)).
  reflexivity.
Defined.

Lemma returned_errors_name_their_file_witness :
  sample_buildDecks 1 [file_bad; file_good] two_patterns = Some (inr [located_error]) /\
  forall e, e ∈ [located_error] ->
    exists f result,
      f ∈ matched_files match_all [file_bad; file_good] two_patterns /\
      Card_init no_question sr_of reject_data tt f (frontmatter_of f) = inr result /\
      e ∈ result /\
      filePath e = Some (file_path f).
Proof.
  split; [reflexivity|].
  apply (returned_errors_name_their_file match_all frontmatter_of no_question sr_of
           reject_data tt 1 [file_bad; file_good] two_patterns).
  reflexivity.
Defined.

Lemma decks_or_errors_witness :
  acyclic_on (collect match_all frontmatter_of no_question sr_of reject_data tt
                      [file_bad; file_good] two_patterns).1 /\
  exists f0 res,
    (forall fuel, f0 <= fuel ->
       sample_buildDecks fuel [file_bad; file_good] two_patterns = Some res) /\
    match res with
    | inl _ =>
        forall f, f ∈ matched_files match_all [file_bad; file_good] two_patterns ->
          exists c, Card_init no_question sr_of reject_data tt f (frontmatter_of f) = inl c
    | inr errs =>
        errs <> [] /\
        exists fs,
          errs = flat_map (file_errors frontmatter_of no_question sr_of reject_data tt) fs /\
          NoDup (file_path <$> fs) /\
          (forall f, f ∈ fs ->
             f ∈ matched_files match_all [file_bad; file_good] two_patterns /\
             exists result,
               Card_init no_question sr_of reject_data tt f (frontmatter_of f)
               = inr result) /\
          (forall f, f ∈ matched_files match_all [file_bad; file_good] two_patterns ->
             (exists result,
                Card_init no_question sr_of reject_data tt f (frontmatter_of f)
                = inr result) ->
             file_path f ∈ (file_path <$> fs))
    end.
Proof.
  assert (H : acyclic_on (collect match_all frontmatter_of no_question sr_of reject_data
                                  tt [file_bad; file_good] two_patterns).1)
    by (apply (rank_check_sound _ (fun i => i)); vm_compute; reflexivity).
  split; [exact H|].
  exact (decks_or_errors match_all frontmatter_of no_question sr_of reject_data tt
           [file_bad; file_good] two_patterns H).
Defined.

(** ** [asSingleDeck] after the build *)

Section Single.

Context {FSRSCard : Type}.
Variable decks : list (Deck FSRSCard).
Hypothesis Htrans : transitive_on decks.
Local Abbreviation R := (childOf decks).

(** Every deck is at the top level or a child of a deck of the top level. *)
Lemma root_above fuel r :
  buildDeckHierarchy decks fuel = Some r ->
  forall h x,
    length (filter (fun o => Is_true (R x o)) (seq 0 (length decks))) < h ->
    x < length decks ->
    exists t, t ∈ roots r /\ (t = x \/ R x t = true).
Proof.
  intros [_ Hroots]%buildDeckHierarchy_sound.
  induction h as [|h IH]; intros x Hh Hx; [lia|].
  destruct (existsb (R x) (seq 0 (length decks))) eqn:E.
  - apply existsb_exists in E as (o & Ho%list_elem_of_In%elem_of_seq & Hxo).
    destruct (IH o) as (t & Ht & Hto); [|simpl in Ho; lia|].
    + eapply Nat.lt_le_trans; [|apply Nat.lt_succ_r, Hh].
      apply filter_length_lt.
      * intros y _ Hy%Is_true_true. apply Is_true_true.
        by apply (childOf_trans decks Htrans x o y).
      * exists o. split; [by apply elem_of_seq|]. split; [by apply Is_true_true|].
        rewrite childOf_irrefl. by intros [].
    + exists t. split; [done|]. right. destruct Hto as [->|Hto]; [done|].
      by apply (childOf_trans decks Htrans x o t).
  - exists x. split; [|by left]. apply Hroots. split; [done|]. intros o.
    destruct (R x o) eqn:Hxo; [|done].
    assert (existsb (R x) (seq 0 (length decks)) = true); [|congruence].
    apply existsb_exists. exists o. split; [|done].
    apply list_elem_of_In, elem_of_seq. apply childOf_lt in Hxo. simpl. lia.
Qed.

End Single.

(** X8. When [isChildOf] is transitive on the decks, the build returns and
    [asSingleDeck] returns a deck exactly when there is one deck in all: a
    single deck at the top level without children hides no other deck. *)
Theorem asSingleDeck_iff_one_deck {F : Type} (decks : list (Deck F)) :
  transitive_on decks ->
  exists f0 r,
    (forall f, f0 <= f -> buildDeckHierarchy decks f = Some r) /\
    forall d, asSingleDeck r = Some d <-> length decks = 1 /\ d = 0.
Proof.
  intros Htrans.
  destruct (build_total decks Htrans) as (f0 & r & Hret & _ & Hall).
  exists f0, r. split; [exact Hret|]. intros d.
  pose proof (Hret f0 (Nat.le_refl _)) as Hr.
  destruct (buildDeckHierarchy_sound decks f0 r Hr) as [Hb Hroots].
  split.
  - unfold asSingleDeck.
    destruct (length (roots r) =? 1)%nat eqn:E1; simpl; [|done].
    destruct (roots r) as [|t [|t' tl]] eqn:Er; try done.
    destruct (length (childrenOf r t) =? 0)%nat eqn:E0; [|done].
    intros [= <-]. apply Nat.eqb_eq, length_zero_iff_nil in E0.
    assert (Ht : t ∈ [t]) by left.
    assert (Hone : forall x, x < length decks -> x = t).
    { intros x Hx.
      destruct (root_above decks Htrans f0 r Hr _ x (Nat.lt_succ_diag_r _) Hx)
        as (t0 & Ht0 & Hx0).
      rewrite Er in Ht0. apply list_elem_of_singleton in Ht0 as ->.
      destruct Hx0 as [->|Hxt]; [done|]. exfalso.
      destruct (desc_top _ _ _ (Hall _ _ Hxt)) as (e & He & _).
      apply elem_Set_values in He. unfold childrenOf in E0. rewrite E0 in He.
      by apply elem_of_nil in He. }
    apply Hroots in Ht as [Hlt _].
    destruct decks as [|a [|b l]]; simpl in *; [lia| |].
    + split; [done | lia].
    + pose proof (Hone 0 ltac:(lia)). pose proof (Hone 1 ltac:(lia)). lia.
  - intros [Hlen ->]. destruct decks as [|a [|b l]]; try done.
    assert (r = ([Some 0], ∅)) as ->; [|done].
    assert (Some r = Some ([Some 0], ∅ : Store)) as [= ->]; [|done].
    rewrite <- Hr. unfold buildDeckHierarchy. simpl. reflexivity.
Qed.

Lemma asSingleDeck_iff_one_deck_witness :
  transitive_on [deck_all] /\
  exists f0 r,
    (forall f, f0 <= f -> buildDeckHierarchy [deck_all] f = Some r) /\
    forall d, asSingleDeck r = Some d <-> length [deck_all] = 1 /\ d = 0.
Proof.
  assert (H : transitive_on [deck_all]).
  { apply transitive_check_sound. vm_compute. reflexivity. }
  split; [exact H|]. exact (asSingleDeck_iff_one_deck [deck_all] H).
Defined.

(** ** The daily limit *)

Section Daily.

Import DailyLimit.

Lemma markDirty_state dl : dailyState (markDirty dl) = dailyState dl.
Proof. unfold markDirty. by destruct (dailyState dl) eqn:E. Qed.

Lemma slice0_take {A : Type} (a : list A) (n : nat) :
  slice0 a (Z.of_nat n) = take n a.
Proof.
  unfold slice0. destruct (Z.of_nat n <? 0)%Z eqn:E; [apply Z.ltb_lt in E; lia|].
  destruct (decide (n <= length a)) as [Hle|Hgt].
  - by rewrite Z.min_l, Nat2Z.id by lia.
  - rewrite Z.min_r, Nat2Z.id by lia. rewrite !take_ge by lia. done.
Qed.

Lemma record_iter settings d st tm nx n :
  0 < maxPerDay settings ->
  dailyState (Nat.iter n (recordCardReviewed settings)
                (mkDailyLimit (Some d) st tm nx))
  = Some (mkDailyState (lastDate d) (served d + n)).
Proof.
  intros Hmax. induction n as [|n IH]; simpl.
  - destruct d. simpl. by rewrite Nat.add_0_r.
  - unfold recordCardReviewed at 1.
    destruct (maxPerDay settings <=? 0)%nat eqn:E; [apply Nat.leb_le in E; lia|].
    rewrite IH, markDirty_state. simpl. do 2 f_equal. lia.
Qed.

Lemma applyTo_take {A : Type} settings today (dueCards : list A) dl d :
  0 < maxPerDay settings ->
  dailyState dl = Some d ->
  (applyTo settings today dueCards dl).1
  = take (maxPerDay settings - served_on today d) dueCards.
Proof.
  intros Hmax Hd. unfold applyTo, isReached, served_on.
  destruct (maxPerDay settings <=? 0)%nat eqn:E; [apply Nat.leb_le in E; lia|].
  rewrite Hd. destruct (String.eqb (lastDate d) today) eqn:Ed; simpl.
  - destruct (maxPerDay settings <=? served d)%nat eqn:Er; simpl.
    + apply Nat.leb_le in Er.
      by replace (maxPerDay settings - served d) with 0 by lia.
    + rewrite Hd. simpl. apply Nat.leb_gt in Er.
      rewrite <- Nat2Z.inj_sub by lia. apply slice0_take.
  - rewrite Z.sub_0_r, Nat.sub_0_r. apply slice0_take.
Qed.

Lemma applyTo_unlimited {A : Type} settings today (dueCards : list A) dl :
  maxPerDay settings = 0 -> applyTo settings today dueCards dl = (dueCards, dl).
Proof.
  intros H. unfold applyTo, isReached. rewrite H. simpl.
  by destruct (dailyState dl).
Qed.

End Daily.

(** X9. With a limit set and the state loaded, [applyTo] returns the first
    [maxPerDay - served] due cards, where [served] counts for the current day
    only (and none when the limit is reached): [slice] is never given a
    negative end. *)
Theorem applyTo_remaining_budget {A : Type} settings today (dueCards : list A) dl d :
  0 < maxPerDay settings ->
  DailyLimit.dailyState dl = Some d ->
  (DailyLimit.applyTo settings today dueCards dl).1
  = take (maxPerDay settings - served_on today d) dueCards.
Proof. apply applyTo_take. Qed.

Lemma applyTo_remaining_budget_witness :
  (0 < maxPerDay three_a_day /\
   DailyLimit.dailyState today_1 = Some (DailyLimit.mkDailyState "2025-01-02" 1)) /\
  (DailyLimit.applyTo three_a_day "2025-01-02" ["a"; "b"; "c"; "d"] today_1).1
  = take (maxPerDay three_a_day
          - served_on "2025-01-02" (DailyLimit.mkDailyState "2025-01-02" 1))
         ["a"; "b"; "c"; "d"].
Proof.
  split; [split; [simpl; lia | reflexivity]|].
  apply (applyTo_remaining_budget three_a_day "2025-01-02" ["a"; "b"; "c"; "d"] today_1
           (DailyLimit.mkDailyState "2025-01-02" 1)); [simpl; lia | reflexivity].
Defined.

(** X10. Without a limit ([maxPerDay] is 0) nothing is counted: [isReached]
    is false, [applyTo] returns all the due cards, and no call changes the
    state or sets a timer. *)
Theorem unlimited_never_counts {A : Type} settings today (dueCards : list A) dl :
  maxPerDay settings = 0 ->
  DailyLimit.isReached settings today dl = (false, dl) /\
  DailyLimit.applyTo settings today dueCards dl = (dueCards, dl) /\
  DailyLimit.recordCardReviewed settings dl = dl.
Proof.
  intros H. unfold DailyLimit.applyTo, DailyLimit.isReached, DailyLimit.recordCardReviewed.
  rewrite H. simpl. repeat split. by destruct (DailyLimit.dailyState dl).
Qed.

Lemma unlimited_never_counts_witness :
  maxPerDay unlimited = 0 /\
  DailyLimit.isReached unlimited "2025-01-02" yesterday_5 = (false, yesterday_5) /\
  DailyLimit.applyTo unlimited "2025-01-02" ["a"; "b"] yesterday_5
  = (["a"; "b"], yesterday_5) /\
  DailyLimit.recordCardReviewed unlimited yesterday_5 = yesterday_5.
Proof.
  split; [reflexivity|].
  apply (unlimited_never_counts unlimited "2025-01-02" ["a"; "b"] yesterday_5).
  reflexivity.
Defined.

(** X11. On the day of the state, after [n] recorded reviews the limit is
    reached exactly when [served + n] is at least [maxPerDay], and then
    [applyTo] returns no card. *)
Theorem limit_reached_after_reviews {A : Type} settings today (dueCards : list A) d st tm nx n :
  0 < maxPerDay settings ->
  DailyLimit.lastDate d = today ->
  let dl := Nat.iter n (DailyLimit.recordCardReviewed settings)
                     (DailyLimit.mkDailyLimit (Some d) st tm nx) in
  (DailyLimit.isReached settings today dl).1
  = (maxPerDay settings <=? DailyLimit.served d + n)%nat /\
  (maxPerDay settings <= DailyLimit.served d + n ->
   (DailyLimit.applyTo settings today dueCards dl).1 = []).
Proof.
  intros Hmax Hday dl.
  pose proof (record_iter settings d st tm nx n Hmax) as Hs. fold dl in Hs.
  split.
  - unfold DailyLimit.isReached.
    destruct (maxPerDay settings <=? 0)%nat eqn:E; [apply Nat.leb_le in E; lia|].
    rewrite Hs. simpl. rewrite Hday, String.eqb_refl. done.
  - intros Hle. rewrite (applyTo_take settings today dueCards dl _ Hmax Hs).
    unfold served_on. simpl. rewrite Hday, String.eqb_refl.
    by replace (maxPerDay settings - (DailyLimit.served d + n)) with 0 by lia.
Qed.

Lemma limit_reached_after_reviews_witness :
  (0 < maxPerDay three_a_day /\
   DailyLimit.lastDate (DailyLimit.mkDailyState "2025-01-02" 1) = "2025-01-02") /\
  let dl := Nat.iter 2 (DailyLimit.recordCardReviewed three_a_day) today_1 in
  (DailyLimit.isReached three_a_day "2025-01-02" dl).1
  = (maxPerDay three_a_day <=? 1 + 2)%nat /\
  (maxPerDay three_a_day <= 1 + 2 ->
   (DailyLimit.applyTo three_a_day "2025-01-02" ["a"; "b"] dl).1 = []).
Proof.
  split; [split; [simpl; lia | reflexivity]|].
  apply (limit_reached_after_reviews three_a_day "2025-01-02" ["a"; "b"]
           (DailyLimit.mkDailyState "2025-01-02" 1) None [] 0 2);
    [simpl; lia | reflexivity].
Defined.

(** X12. On a new day [isReached] is false and starts the count again from 0,
    whatever was served: reviews recorded between midnight and the first
    [isReached] of the day are forgotten with those of the day before.  A save
    of the new state is pending afterwards. *)
Theorem new_day_forgets settings today d st tm nx n :
  0 < maxPerDay settings ->
  DailyLimit.lastDate d <> today ->
  let dl := Nat.iter n (DailyLimit.recordCardReviewed settings)
                     (DailyLimit.mkDailyLimit (Some d) st tm nx) in
  let r := DailyLimit.isReached settings today dl in
  r.1 = false /\
  DailyLimit.dailyState r.2 = Some (DailyLimit.mkDailyState today 0) /\
  exists t, DailyLimit.saveTimer r.2 = Some t /\ t ∈ DailyLimit.timers r.2.
Proof.
  intros Hmax Hday dl r.
  pose proof (record_iter settings d st tm nx n Hmax) as Hs. fold dl in Hs.
  subst r. unfold DailyLimit.isReached.
  destruct (maxPerDay settings <=? 0)%nat eqn:E; [apply Nat.leb_le in E; lia|].
  rewrite Hs. simpl.
  destruct (String.eqb_spec (DailyLimit.lastDate d) today) as [|_]; [done|]. simpl.
  split; [done|]. split; [done|]. eexists. split; [done|].
  apply elem_of_app. right. by left.
Qed.

Lemma new_day_forgets_witness :
  (0 < maxPerDay three_a_day /\
   DailyLimit.lastDate (DailyLimit.mkDailyState "2025-01-01" 5) <> "2025-01-02") /\
  let dl := Nat.iter 1 (DailyLimit.recordCardReviewed three_a_day) yesterday_5 in
  let r := DailyLimit.isReached three_a_day "2025-01-02" dl in
  r.1 = false /\
  DailyLimit.dailyState r.2 = Some (DailyLimit.mkDailyState "2025-01-02" 0) /\
  exists t, DailyLimit.saveTimer r.2 = Some t /\ t ∈ DailyLimit.timers r.2.
Proof.
  split; [split; [simpl; lia | discriminate]|].
  apply (new_day_forgets three_a_day "2025-01-02"
           (DailyLimit.mkDailyState "2025-01-01" 5) None [] 0 1);
    [simpl; lia | discriminate].
Defined.

Section Timers.

Import DailyLimit.

Lemma clearTimeout_one t u : clearTimeout t [u] = [] \/ clearTimeout t [u] = [u].
Proof.
  unfold clearTimeout. rewrite filter_cons, filter_nil.
  destruct (decide (u <> t)); auto.
Qed.

Lemma clearTimeout_same t : clearTimeout t [t] = [].
Proof.
  unfold clearTimeout. rewrite filter_cons, filter_nil.
  by destruct (decide (t <> t)).
Qed.

Lemma markDirty_debounced dl : debounced dl -> debounced (markDirty dl).
Proof.
  intros H. unfold markDirty. destruct (dailyState dl) eqn:E; [|done].
  right. exists (next_timer dl). split; [done|]. simpl.
  destruct H as [->|(t & -> & ->)].
  - by destruct (saveTimer dl).
  - by rewrite clearTimeout_same.
Qed.

Lemma markDirty_pending dl :
  debounced dl -> dailyState dl <> None ->
  exists t, saveTimer (markDirty dl) = Some t /\ timers (markDirty dl) = [t].
Proof.
  intros H Hd. unfold markDirty. destruct (dailyState dl) eqn:E; [|done].
  exists (next_timer dl). split; [done|]. simpl.
  destruct H as [->|(t & -> & ->)].
  - by destruct (saveTimer dl).
  - by rewrite clearTimeout_same.
Qed.

Lemma applyTo_state {A : Type} settings today (dueCards : list A) dl :
  (applyTo settings today dueCards dl).2 = (isReached settings today dl).2.
Proof.
  unfold applyTo. destruct (isReached settings today dl) as [[] dl']; simpl; [done|].
  destruct (dailyState dl'); [|done]. by destruct (_ <=? _)%nat.
Qed.

Lemma isReached_pending settings today dl :
  debounced dl ->
  dailyState (isReached settings today dl).2 <> dailyState dl ->
  exists t, saveTimer (isReached settings today dl).2 = Some t /\
            timers (isReached settings today dl).2 = [t].
Proof.
  intros H. unfold isReached.
  destruct (maxPerDay settings <=? 0)%nat; [done|].
  destruct (dailyState dl) as [d|] eqn:E; [|simpl; congruence].
  destruct (negb _); [|simpl; congruence]. intros _. by apply markDirty_pending.
Qed.

Lemma call_debounced dl c : debounced dl -> debounced (call dl c).
Proof.
  intros H. destruct c as [loaded|settings today|settings today due|settings|t]; simpl.
  - exact H.
  - unfold isReached. destruct (maxPerDay settings <=? 0)%nat; [done|].
    destruct (dailyState dl) as [d|]; [|done].
    destruct (negb _); [|done]. by apply markDirty_debounced.
  - unfold applyTo, isReached. destruct (maxPerDay settings <=? 0)%nat; simpl.
    { by destruct (dailyState dl). }
    destruct (dailyState dl) as [d|] eqn:E; simpl; [|by rewrite E].
    destruct (negb _); simpl.
    + by apply markDirty_debounced.
    + destruct (maxPerDay settings <=? served d)%nat; [done|]. by rewrite E.
  - unfold recordCardReviewed. destruct (maxPerDay settings <=? 0)%nat; [done|].
    destruct (dailyState dl) as [d|]; [|done]. by apply markDirty_debounced.
  - unfold fire. destruct H as [H|(u & Hu & H)]; unfold debounced; simpl; rewrite H.
    + by left.
    + destruct (clearTimeout_one t u) as [->| ->]; [by left | right; by exists u].
Qed.

Lemma run_debounced calls : forall dl, debounced dl -> debounced (run calls dl).
Proof.
  induction calls as [|c calls IH]; intros dl H; [done|].
  apply IH. by apply call_debounced.
Qed.

End Timers.

(** X13. Saves are debounced: whatever calls reach a [DailyLimit] object and
    whenever its timers fire, at most one timer is pending, and it is the one
    kept in [saveTimer]. *)
Theorem at_most_one_save_pending calls next :
  let dl := DailyLimit.run calls (DailyLimit.new next) in
  length (DailyLimit.timers dl) <= 1 /\
  forall t, t ∈ DailyLimit.timers dl -> DailyLimit.saveTimer dl = Some t.
Proof.
  intros dl. assert (H : debounced dl) by (apply run_debounced; by left).
  destruct H as [->|(t & Ht & ->)].
  - split; [simpl; lia|]. by intros t Ht%elem_of_nil.
  - split; [simpl; lia|]. by intros u ->%list_elem_of_singleton.
Qed.

(** X14. No change of the daily state goes unsaved: when a call other than
    [init] changes [dailyState], a timer for the save is pending after it. *)
Theorem every_change_schedules_a_save calls next c :
  let dl := DailyLimit.run calls (DailyLimit.new next) in
  (forall loaded, c <> DailyLimit.CallInit loaded) ->
  DailyLimit.dailyState (DailyLimit.call dl c) <> DailyLimit.dailyState dl ->
  exists t, DailyLimit.saveTimer (DailyLimit.call dl c) = Some t /\
            DailyLimit.timers (DailyLimit.call dl c) = [t].
Proof.
  intros dl Hc Hch. assert (H : debounced dl) by (apply run_debounced; by left).
  clearbody dl.
  destruct c as [loaded|settings today|settings today due|settings|t]; simpl in *.
  - by destruct (Hc loaded).
  - by apply isReached_pending.
  - rewrite applyTo_state in *. by apply isReached_pending.
  - unfold DailyLimit.recordCardReviewed in *.
    destruct (maxPerDay settings <=? 0)%nat; [done|].
    destruct (DailyLimit.dailyState dl) as [d|] eqn:E; [|congruence].
    by apply markDirty_pending.
  - done.
Qed.

Lemma every_change_schedules_a_save_witness :
  let dl := DailyLimit.run [DailyLimit.CallInit None] (DailyLimit.new 0) in
  let c := DailyLimit.CallRecordCardReviewed three_a_day in
  ((forall loaded, c <> DailyLimit.CallInit loaded) /\
   DailyLimit.dailyState (DailyLimit.call dl c) <> DailyLimit.dailyState dl) /\
  exists t, DailyLimit.saveTimer (DailyLimit.call dl c) = Some t /\
            DailyLimit.timers (DailyLimit.call dl c) = [t].
Proof.
  split; [split; [discriminate | discriminate]|].
  apply (every_change_schedules_a_save [DailyLimit.CallInit None] 0
           (DailyLimit.CallRecordCardReviewed three_a_day)); discriminate.
Defined.

(** ** Due cards and statistics *)

Section Sorting.

Context {A : Type}.
Variable cmp : A -> A -> Z.

Lemma sort_insert_perm x l : Permutation (sort_insert cmp x l) (x :: l).
Proof.
  induction l as [|y l IH]; simpl; [done|].
  destruct (0 <? cmp x y)%Z; [|done].
  rewrite IH. apply perm_swap.
Qed.

Lemma Array_sort_perm l : Permutation (Array_sort cmp l) l.
Proof.
  induction l as [|x l IH]; simpl; [done|].
  rewrite sort_insert_perm. by constructor.
Qed.

(** On elements where the comparator is consistent the result is sorted. *)
Variable P : A -> Prop.
Variable le : A -> A -> Prop.
Hypothesis le_cmp : forall a b, P a -> P b -> ((cmp a b <= 0)%Z <-> le a b).
Hypothesis le_total : forall a b, P a -> P b -> le a b \/ le b a.
Hypothesis le_trans : forall a b c, P a -> P b -> P c -> le a b -> le b c -> le a c.

Lemma sort_insert_sorted x l :
  P x -> Forall P l -> StronglySorted le l -> StronglySorted le (sort_insert cmp x l).
Proof.
  intros Hx Hl Hs. induction l as [|y l IH]; simpl.
  - repeat constructor.
  - apply Forall_cons in Hl as [Hy Hl]. apply StronglySorted_inv in Hs as [Hs Hall].
    destruct (0 <? cmp x y)%Z eqn:E.
    + apply Z.ltb_lt in E. assert (Hyx : le y x).
      { destruct (le_total x y Hx Hy) as [H|H]; [|done].
        apply le_cmp in H; [lia|done..]. }
      constructor; [by apply IH|].
      rewrite sort_insert_perm. by constructor.
    + apply Z.ltb_ge in E. apply le_cmp in E; [|done..].
      constructor; [by constructor|]. constructor; [done|].
      rewrite Forall_forall in Hall, Hl |- *. intros z Hz.
      apply (le_trans x y z); auto.
Qed.

Lemma Array_sort_sorted l : Forall P l -> StronglySorted le (Array_sort cmp l).
Proof.
  induction l as [|x l IH]; intros Hl; simpl; [constructor|].
  apply Forall_cons in Hl as [Hx Hl]. apply sort_insert_sorted; [done| |by apply IH].
  by rewrite Array_sort_perm.
Qed.

End Sorting.

(** X15. [getDueCards] returns the cards that are new or whose due date has
    passed, each as often as it is in the deck, and no other card. *)
Theorem getDueCards_keeps_the_due {F : Type} (state_of : F -> State)
    (due_of : F -> option Z) (now : Z) (cards : list (Card F)) :
  Permutation (getDueCards state_of due_of now cards)
              (filter (fun c => Is_true (is_due state_of due_of now c)) cards) /\
  forall c, c ∈ getDueCards state_of due_of now cards <->
            c ∈ cards /\
            (state_of (sr c) = New \/
             exists due, due_of (sr c) = Some due /\ (due <= now)%Z).
Proof.
  split; [apply Array_sort_perm|]. intros c.
  unfold getDueCards. rewrite Array_sort_perm, list_elem_of_filter.
  unfold is_due. split.
  - intros [H Hc]. split; [done|].
    destruct (state_of (sr c)); simpl in *; auto;
      (destruct (due_of (sr c)) as [due|]; [|done]; right; exists due;
       split; [done|]; apply Z.leb_le; by apply Is_true_true).
  - intros [Hc H]. split; [|done].
    destruct H as [->|(due & -> & Hle)]; [done|].
    destruct (is_new _); [done|]. by apply Is_true_true, Z.leb_le.
Qed.

(** X16. When every card has a due date, the result of [getDueCards] is in
    order: the new cards first, and among the new cards as among the others
    the earlier due date first. *)
Theorem getDueCards_sorted {F : Type} (state_of : F -> State)
    (due_of : F -> option Z) (now : Z) (cards : list (Card F)) :
  (forall c, c ∈ cards -> due_of (sr c) <> None) ->
  StronglySorted (due_before state_of due_of) (getDueCards state_of due_of now cards).
Proof.
  intros Hdue. unfold getDueCards.
  apply (Array_sort_sorted _ (fun c => due_of (sr c) <> None)).
  - intros a b Ha Hb. unfold compare_due, due_before.
    destruct (is_new (state_of (sr a))), (is_new (state_of (sr b))); simpl;
      destruct (due_of (sr a)), (due_of (sr b)); try done; lia.
  - intros a b Ha Hb. unfold due_before.
    destruct (is_new (state_of (sr a))), (is_new (state_of (sr b))); simpl;
      destruct (due_of (sr a)), (due_of (sr b)); try done; try tauto; lia.
  - intros a b c Ha Hb Hc. unfold due_before.
    destruct (is_new (state_of (sr a))), (is_new (state_of (sr b))),
      (is_new (state_of (sr c))); simpl;
      destruct (due_of (sr a)), (due_of (sr b)), (due_of (sr c)); try done; lia.
  - apply Forall_forall. intros c [_ Hc]%list_elem_of_filter. by apply Hdue.
Qed.

Lemma getDueCards_sorted_witness :
  (forall c, c ∈ four_cards -> sr_due (sr c) <> None) /\
  getDueCards sr_state sr_due 100 four_cards
  = [mkCard "b.md" "b" (New, 70%Z); mkCard "d.md" "d" (Review, 20%Z);
     mkCard "a.md" "a" (Review, 50%Z)] /\
  StronglySorted (due_before sr_state sr_due) (getDueCards sr_state sr_due 100 four_cards).
Proof.
  split; [done|]. split; [reflexivity|].
  apply (getDueCards_sorted sr_state sr_due 100 four_cards). done.
Defined.

Section Stats.

Context {F : Type}.
Variable state_of : F -> State.
Variable due_of : F -> option Z.
Variable now : Z.

Lemma getDueCards_length (cards : list (Card F)) :
  length (getDueCards state_of due_of now cards) <= length cards.
Proof.
  unfold getDueCards. rewrite Array_sort_perm. apply length_filter.
Qed.

Lemma stats_fold (decks : list (Deck F)) : forall acc : nat * list (Card F),
  length acc.2 <= acc.1 ->
  length (foldl (fun acc deck =>
                   ((acc.1 + length (cards deck))%nat,
                    (acc.2 ++ getDueCards state_of due_of now (cards deck))%list))
                acc decks).2
  <= (foldl (fun acc deck =>
               ((acc.1 + length (cards deck))%nat,
                (acc.2 ++ getDueCards state_of due_of now (cards deck))%list))
            acc decks).1.
Proof.
  induction decks as [|d decks IH]; intros acc H; simpl; [done|].
  apply IH. simpl. rewrite length_app.
  pose proof (getDueCards_length (cards d)). lia.
Qed.

End Stats.

(** X17. The three counts of [getStats] are ordered: the cards offered today
    are at most the due cards, and the due cards at most all the cards of
    the decks; with a limit set and the state loaded, the cards offered today
    are at most [maxPerDay]. *)
Theorem getStats_counts_ordered {F : Type} (state_of : F -> State)
    (due_of : F -> option Z) (now : Z) (decks : list (Deck F)) settings today dl :
  let '(totalCount, dueCount, todayCount) :=
    (getStats state_of due_of now decks settings today dl).1 in
  todayCount <= dueCount /\ dueCount <= totalCount /\
  (0 < maxPerDay settings -> DailyLimit.dailyState dl <> None ->
   todayCount <= maxPerDay settings).
Proof.
  unfold getStats.
  pose proof (stats_fold state_of due_of now decks (0, []) (Nat.le_refl _)) as Hfold.
  destruct (foldl _ _ decks) as [totalCount dueCards]. simpl in Hfold.
  destruct (DailyLimit.applyTo settings today dueCards dl) as [todayCards dl'] eqn:E.
  simpl. split; [|split; [done|]].
  - destruct (decide (0 < maxPerDay settings)) as [Hmax|Hmax].
    + destruct (DailyLimit.dailyState dl) as [d|] eqn:Hd.
      * pose proof (applyTo_take settings today dueCards dl d Hmax Hd) as H.
        rewrite E in H. simpl in H. subst. rewrite length_take. lia.
      * unfold DailyLimit.applyTo, DailyLimit.isReached in E.
        destruct (maxPerDay settings <=? 0)%nat; rewrite Hd in E; simpl in E;
          rewrite ?Hd in E; by injection E as <- _.
    + assert (H0 : maxPerDay settings = 0) by lia.
      rewrite (applyTo_unlimited settings today dueCards dl H0) in E.
      by injection E as <- _.
  - intros Hmax Hd. destruct (DailyLimit.dailyState dl) as [d|] eqn:Hd'; [|done].
    pose proof (applyTo_take settings today dueCards dl d Hmax Hd') as H.
    rewrite E in H. simpl in H. subst. rewrite length_take. lia.
Qed.

(** ** The wildcard patterns as parents *)

Section Wildcards.

Import JS PatternHierarchy.

Lemma segments_conflict_wild cs w :
  includes w "*" = true -> segments_conflict cs [w] = false.
Proof.
  intros Hw. destruct cs as [|c cs]; simpl; [done|].
  rewrite Hw, andb_false_r. by destruct cs.
Qed.

(** No pattern is incompatible with a parent without extension, prefix and
    literal segment. *)
Lemma areIncompatible_wild c w :
  match_ w re_ext = None -> match_ w re_prefix = None ->
  split w "/" = [w] -> includes w "*" = true ->
  areIncompatible c w = false.
Proof.
  intros He Hp Hs Hw. unfold areIncompatible. rewrite He, Hp, Hs.
  rewrite (segments_conflict_wild _ _ Hw).
  by destruct (match_ c re_ext), (match_ c re_prefix).
Qed.

Lemma isDirectoryChild_flat_parent c w :
  includes w "/" = false -> isDirectoryChild c w = false.
Proof. intros H. unfold isDirectoryChild. by rewrite H, andb_false_r. Qed.

Lemma isDirectoryChild_flat_child c p :
  includes c "/" = false -> isDirectoryChild c p = false.
Proof. intros H. unfold isDirectoryChild. by rewrite H. Qed.

Lemma replace_has_slash p :
  endsWith p "/**" = true -> includes (replace p "/**" "/") "/" = true.
Proof.
  assert (Hnil : forall x, startsWith x "" = true) by (by intros []).
  induction p as [|c p IH]; [done|]. intros H.
  cbn [replace]. destruct (startsWith (String c p) "/**") eqn:E.
  { simpl. by rewrite Hnil. }
  cbn [endsWith] in H. apply orb_true_iff in H as [H|H].
  - apply String.eqb_eq in H. by rewrite H in E.
  - cbn [includes]. by rewrite (IH H), orb_true_r.
Qed.

Lemma startsWith_stars x : startsWith "**" x = true -> includes x "/" = false.
Proof.
  destruct x as [|a [|b [|c x]]]; simpl; [done|..].
  - destruct (Ascii.eqb_spec a "*"); [by subst | done].
  - destruct (Ascii.eqb_spec a "*"); [subst|done].
    destruct (Ascii.eqb_spec b "*"); [by subst | done].
  - destruct (Ascii.eqb a "*"); [|done]. by destruct (Ascii.eqb b "*").
Qed.

Lemma isFilenamePattern_stars p : isFilenamePattern "**" p = false.
Proof.
  unfold isFilenamePattern.
  replace (match_ "**" re_root_ext) with (@None (list string)) by reflexivity.
  replace (match_ "**" re_exact) with (@None (list string)) by reflexivity.
  replace (match_ "**" re_subdir) with (@None (list string)) by reflexivity.
  replace (match_ "**" re_prefixed) with (@None (list string)) by reflexivity.
  replace (match_ "**" re_named) with (@None (list string)) by reflexivity.
  destruct (match_ p re_global_ext); simpl;
    destruct (includes p "/"); simpl; try done;
    by destruct (match_ p re_root_ext).
Qed.

End Wildcards.

(** X18. The pattern [**] is the top of [isSubset]: every pattern other than
    the empty one and [**] itself is a subset of it, and it is a subset of no
    pattern. *)
Theorem double_star_is_top (p : string) :
  PatternHierarchy.isSubset p "**" = negb (String.eqb p "") && negb (String.eqb p "**") /\
  PatternHierarchy.isSubset "**" p = false.
Proof.
  split.
  - unfold PatternHierarchy.isSubset.
    destruct (String.eqb p "**") eqn:E1; [by rewrite andb_false_r|].
    destruct (String.eqb p "") eqn:E2; [done|]. simpl.
    rewrite isDirectoryChild_flat_parent by reflexivity.
    rewrite areIncompatible_wild by reflexivity.
    unfold PatternHierarchy.isMoreSpecific. simpl. by rewrite E1.
  - unfold PatternHierarchy.isSubset.
    destruct (String.eqb "**" p); [done|].
    destruct (String.eqb "**" "" || String.eqb p ""); [done|].
    rewrite isDirectoryChild_flat_child by reflexivity.
    destruct (PatternHierarchy.areIncompatible "**" p); [done|].
    unfold PatternHierarchy.isMoreSpecific.
    destruct (String.eqb p "**"); [done|].
    destruct (String.eqb p "*"); [done|].
    destruct (String.eqb p "**/*"); [done|].
    destruct (String.eqb p "*/**"); [done|].
    rewrite isFilenamePattern_stars.
    destruct (JS.endsWith p "/**") eqn:E; [|done]. cbn [andb].
    destruct (JS.startsWith "**" (JS.replace p "/**" "/")) eqn:Es; [|done].
    apply startsWith_stars in Es. by rewrite (replace_has_slash p E) in Es.
Qed.

(** X19. The subsets of the pattern [*] are the patterns, other than the
    empty one and [*] itself, without [/] and without [**]. *)
Theorem subsets_of_star (c : string) :
  PatternHierarchy.isSubset c "*"
  = negb (String.eqb c "") && negb (String.eqb c "*")
    && negb (JS.includes c "/") && negb (JS.includes c "**").
Proof.
  unfold PatternHierarchy.isSubset.
  destruct (String.eqb c "*") eqn:E1; [by rewrite andb_false_r|].
  destruct (String.eqb c "") eqn:E2; [done|]. simpl.
  rewrite isDirectoryChild_flat_parent by reflexivity.
  rewrite areIncompatible_wild by reflexivity.
  unfold PatternHierarchy.isMoreSpecific. simpl. rewrite E1. simpl.
  by rewrite andb_true_r.
Qed.

(** ** Patterns inside a directory *)

Section Directories.

Import JS PatternHierarchy.

Lemma startsWith_nil x : startsWith x "" = true.
Proof. by destruct x. Qed.

Lemma append_nil_l (b : string) : "" ++ b = b.
Proof. reflexivity. Qed.

Lemma append_cons c (a b : string) : String c a ++ b = String c (a ++ b).
Proof. reflexivity. Qed.

Lemma append_assoc (a b c : string) : (a ++ b) ++ c = a ++ (b ++ c).
Proof.
  induction a as [|x a IH]; rewrite ?append_nil_l, ?append_cons; [done|].
  by rewrite IH.
Qed.

Lemma append_nil_r (a : string) : a ++ "" = a.
Proof.
  induction a as [|x a IH]; rewrite ?append_nil_l, ?append_cons; [done|].
  by rewrite IH.
Qed.

Lemma startsWith_append x y : startsWith (x ++ y) x = true.
Proof.
  induction x as [|c x IH]; rewrite ?append_nil_l, ?append_cons;
    [apply startsWith_nil|].
  cbn [startsWith]. by rewrite Ascii.eqb_refl.
Qed.

Lemma includes_append x y z : includes y z = true -> includes (x ++ y) z = true.
Proof.
  intros H. induction x as [|c x IH]; rewrite ?append_nil_l, ?append_cons; [done|].
  cbn [includes]. rewrite IH. apply orb_true_r.
Qed.

Lemma no_star_cons c a :
  includes (String c a) "*" = false -> c <> "*"%char /\ includes a "*" = false.
Proof.
  cbn [includes]. intros [H1 H2]%orb_false_iff. split; [|done].
  intros ->. cbn [startsWith] in H1. by rewrite startsWith_nil in H1.
Qed.

(** The first piece of [split] only grows. *)
Lemma split_head_extends s : forall cur,
  exists t, hd "" (split_from "/**" 0 cur s) = cur ++ t.
Proof.
  induction s as [|c s IH]; intros cur; cbn [split_from].
  - exists "". by rewrite append_nil_r.
  - destruct (startsWith (String c s) "/**").
    + exists "". by rewrite append_nil_r.
    + destruct (IH (cur ++ String c "")) as (t & ->).
      exists (String c t). by rewrite append_assoc.
Qed.

(** A stretch without [*] is passed over when what follows does not start
    with [*]. *)
Lemma split_from_literal a : forall cur s,
  includes a "*" = false -> startsWith s "*" = false ->
  split_from "/**" 0 cur (a ++ s) = split_from "/**" 0 (cur ++ a) s.
Proof.
  induction a as [|c a IH]; intros cur s Ha Hs.
  - by rewrite append_nil_l, append_nil_r.
  - apply no_star_cons in Ha as [Hc Ha].
    rewrite append_cons. cbn [split_from].
    assert (Hno : startsWith (String c (a ++ s)) "/**" = false).
    { cbn [startsWith]. destruct (Ascii.eqb "/" c); [|done]. cbn [andb].
      destruct a as [|d a].
      - rewrite append_nil_l. destruct s as [|e s]; [done|].
        cbn [startsWith] in Hs |- *.
        rewrite startsWith_nil, andb_true_r in Hs. by rewrite Hs.
      - apply no_star_cons in Ha as [Hd _]. rewrite append_cons. cbn [startsWith].
        destruct (Ascii.eqb_spec "*" d); [by subst | done]. }
    rewrite Hno, IH by done.
    replace (cur ++ String c a) with ((cur ++ String c "") ++ a); [done|].
    by rewrite append_assoc.
Qed.

Lemma append_length (x y : string) :
  String.length (x ++ y) = String.length x + String.length y.
Proof.
  induction x as [|c x IH]; rewrite ?append_nil_l, ?append_cons; [done|].
  cbn [String.length]. by rewrite IH.
Qed.

Lemma append_ne a b : b <> "" -> a ++ b <> a.
Proof.
  intros Hb H. assert (Hl : String.length (a ++ b) = String.length a) by (by rewrite H).
  rewrite append_length in Hl. destruct b; [done|]. cbn [String.length] in Hl. lia.
Qed.

Lemma append_inj_l a b c : a ++ b = a ++ c -> b = c.
Proof.
  induction a as [|x a IH]; rewrite ?append_nil_l, ?append_cons; [done|].
  intros [= H]. by apply IH.
Qed.

Lemma isDirectoryChild_inside dir rest :
  includes dir "*" = false -> startsWith rest "**" = false ->
  isDirectoryChild (dir ++ "/" ++ rest) (dir ++ "/**") = true.
Proof.
  intros Hdir Hrest. unfold isDirectoryChild.
  assert (H1 : includes ("/" ++ rest) "/" = true).
  { rewrite append_cons. cbn [includes startsWith].
    by rewrite startsWith_nil. }
  rewrite (includes_append dir _ _ H1), (includes_append dir "/**" "/") by reflexivity.
  cbn [andb]. unfold split_head, split.
  rewrite (split_from_literal dir "" ("/" ++ rest)) by done.
  rewrite (split_from_literal dir "" "/**") by (done || reflexivity).
  rewrite !append_nil_l.
  rewrite (append_cons "/" "" rest), append_nil_l. cbn [split_from].
  replace (startsWith (String "/" rest) "/**") with (startsWith rest "**") by reflexivity.
  rewrite Hrest.
  destruct (split_head_extends rest (dir ++ "/")) as (t & Ht).
  change (match split_from "/**" 0 (dir ++ "/") rest with
          | [] => "" | x :: _ => x end)
    with (hd "" (split_from "/**" 0 (dir ++ "/") rest)).
  rewrite Ht.
  replace (startsWith "/**" "/**") with true by reflexivity.
  rewrite startsWith_append. cbn [andb].
  destruct (String.eqb_spec ((dir ++ "/") ++ t) dir) as [H|H]; [|done].
  rewrite append_assoc in H. by apply append_ne in H.
Qed.

End Directories.

(** X20. A pattern inside a directory is a subset of the pattern of the
    directory: for a directory path [dir] without [*] and any rest that does
    not start with [**], [dir/rest] is a subset of [dir/**]. *)
Theorem inside_directory_is_subset (dir rest : string) :
  JS.includes dir "*" = false ->
  JS.startsWith rest "**" = false ->
  PatternHierarchy.isSubset (dir ++ "/" ++ rest) (dir ++ "/**") = true.
Proof.
  intros Hdir Hrest. unfold PatternHierarchy.isSubset.
  rewrite (isDirectoryChild_inside dir rest Hdir Hrest).
  destruct (String.eqb_spec (dir ++ "/" ++ rest) (dir ++ "/**")) as [H|_].
  { apply append_inj_l in H. rewrite append_cons, append_nil_l in H.
    injection H as ->. done. }
  destruct (String.eqb_spec (dir ++ "/" ++ rest) "") as [H|_].
  { apply (f_equal String.length) in H. rewrite !append_length in H.
    simpl in H. lia. }
  destruct (String.eqb_spec (dir ++ "/**") "") as [H|_]; [|done].
  apply (f_equal String.length) in H. rewrite !append_length in H. simpl in H. lia.
Qed.

Lemma inside_directory_is_subset_witness :
  (JS.includes "Work" "*" = false /\ JS.startsWith "Math/*.md" "**" = false) /\
  PatternHierarchy.isSubset ("Work" ++ "/" ++ "Math/*.md") ("Work" ++ "/**") = true.
Proof.
  split; [split; reflexivity|].
  apply (inside_directory_is_subset "Work" "Math/*.md"); reflexivity.
Defined.

(** ** Validation of the stored data *)

Section Validation.

Import CardStorage.

Context {number Other : Type} {RT : Runtime number Other}.

Local Abbreviation Error := (ValidationError (JSValue Other)).
Local Abbreviation St := (FSRSCard number * list Error)%type.

Lemma date_ok parsed field required (c c' : FSRSCard number) (e : list Error) :
  validateAndParseDate parsed field required (c, e) = (c', []) ->
  e = [] /\
  match parsed !! field with
  | None => required = false /\ c' = c
  | Some v => exists d, Date_parse v = Some d /\ c' = set_date field d c
  end.
Proof.
  unfold validateAndParseDate. destruct (parsed !! field) as [v|].
  - destruct (Date_parse v) as [d|] eqn:Hd.
    + intros [= <- ->]. split; [done|]. by exists d.
    + intros [= _ He]. by apply app_eq_nil in He as [_ ?].
  - destruct required.
    + intros [= _ He]. by apply app_eq_nil in He as [_ ?].
    + by intros [= <- ->].
Qed.

Lemma number_ok parsed field validator allowFloat (c c' : FSRSCard number)
    (e : list Error) :
  validateAndParseNumber parsed field validator allowFloat true (c, e) = (c', []) ->
  e = [] /\
  exists v n,
    parsed !! field = Some v /\ Number_ v = Some n /\ validator n = true /\
    (allowFloat = false -> num_eqb (num_floor n) n = true) /\
    c' = set_number field (if allowFloat then n else num_floor n) c.
Proof.
  unfold validateAndParseNumber. destruct (parsed !! field) as [v|] eqn:Hp.
  - destruct (Number_ v) as [n|] eqn:Hn.
    + destruct (validator n) eqn:Hv; simpl.
      * destruct allowFloat; simpl.
        -- intros [= <- ->]. split; [done|]. by exists v, n.
        -- destruct (num_eqb (num_floor n) n) eqn:Hfl; simpl.
           ++ intros [= <- ->]. split; [done|]. by exists v, n.
           ++ intros [= _ He]. by apply app_eq_nil in He as [_ ?].
      * intros [= _ He]. by apply app_eq_nil in He as [_ ?].
    + intros [= _ He]. by apply app_eq_nil in He as [_ ?].
  - intros [= _ He]. by apply app_eq_nil in He as [_ ?].
Qed.

Lemma state_ok parsed (c c' : FSRSCard number) (e : list Error) :
  validateAndParseState parsed (c, e) = (c', []) ->
  e = [] /\
  (exists v, parsed !! "state" = Some v) /\
  (c' = c \/ exists s, c' = set_state s c).
Proof.
  unfold validateAndParseState. destruct (parsed !! "state") as [v|] eqn:Hp.
  - destruct (Number_ v) as [n|].
    + destruct (_ || _ || _).
      * intros [= _ He]. by apply app_eq_nil in He as [_ ?].
      * repeat (destruct (num_eqb n _);
                [intros [= <- ->]; split; [done|]; split; [by exists v|];
                 right; by eexists|]).
        intros [= <- ->]. split; [done|]. split; [by exists v | by left].
    + intros [= _ He]. by apply app_eq_nil in He as [_ ?].
  - intros [= _ He]. by apply app_eq_nil in He as [_ ?].
Qed.

(** What [validate_fields] has found when it leaves no error. *)
Lemma fields_ok parsed (c0 c : FSRSCard number) (e0 : list Error) :
  validate_fields parsed (c0, e0) = (c, []) ->
  e0 = [] /\
  (forall f, f ∈ requiredFields -> exists v, parsed !! f = Some v) /\
  in_bounds c /\
  elapsed_days c = elapsed_days c0 /\
  (exists v, parsed !! "due" = Some v /\ Date_parse v = Some (due c)) /\
  match parsed !! "last_review" with
  | None => last_review c = last_review c0
  | Some v => exists d, Date_parse v = Some d /\ last_review c = Some d
  end.
Proof.
  unfold validate_fields.
  destruct (validateAndParseDate parsed "due" true (c0, e0)) as [c1 e1] eqn:E1.
  destruct (validateAndParseDate parsed "last_review" false (c1, e1)) as [c2 e2] eqn:E2.
  destruct (validateAndParseNumber parsed "stability" at_least_0 true true (c2, e2))
    as [c3 e3] eqn:E3.
  destruct (validateAndParseNumber parsed "difficulty" from_0_to_10 true true (c3, e3))
    as [c4 e4] eqn:E4.
  destruct (validateAndParseNumber parsed "reps" at_least_0 false true (c4, e4))
    as [c5 e5] eqn:E5.
  destruct (validateAndParseNumber parsed "lapses" at_least_0 false true (c5, e5))
    as [c6 e6] eqn:E6.
  destruct (validateAndParseNumber parsed "scheduled_days" at_least_0 true true (c6, e6))
    as [c7 e7] eqn:E7.
  destruct (validateAndParseNumber parsed "learning_steps" at_least_0 false true (c7, e7))
    as [c8 e8] eqn:E8.
  intros E9.
  apply state_ok in E9 as (-> & [v9 H9] & Hc9).
  apply number_ok in E8 as (-> & v8 & n8 & H8 & N8 & V8 & F8 & ->).
  apply number_ok in E7 as (-> & v7 & n7 & H7 & N7 & V7 & _ & ->).
  apply number_ok in E6 as (-> & v6 & n6 & H6 & N6 & V6 & F6 & ->).
  apply number_ok in E5 as (-> & v5 & n5 & H5 & N5 & V5 & F5 & ->).
  apply number_ok in E4 as (-> & v4 & n4 & H4 & N4 & V4 & _ & ->).
  apply number_ok in E3 as (-> & v3 & n3 & H3 & N3 & V3 & _ & ->).
  apply date_ok in E2 as (-> & Hlast).
  apply date_ok in E1 as (-> & Hdue).
  destruct (parsed !! "due") as [v1|] eqn:H1; [|by destruct Hdue].
  destruct Hdue as (d1 & D1 & ->).
  split; [done|]. split.
  { intros f Hf. unfold requiredFields in Hf.
    repeat (apply elem_of_cons in Hf as [->|Hf]; [eauto|]).
    by apply elem_of_nil in Hf. }
  specialize (F5 eq_refl). specialize (F6 eq_refl). specialize (F8 eq_refl).
  assert (Hc2 : elapsed_days c2 = elapsed_days c0 /\ due c2 = d1 /\
                match parsed !! "last_review" with
                | None => last_review c2 = last_review c0
                | Some v => exists d, Date_parse v = Some d /\ last_review c2 = Some d
                end).
  { destruct (parsed !! "last_review") as [v2|].
    - destruct Hlast as (d2 & D2 & ->). cbn. split_and!; [done..|]. by exists d2.
    - by destruct Hlast as [_ ->]. }
  destruct Hc2 as (He2 & Hd2 & Hl2).
  assert (Hc : in_bounds c /\ elapsed_days c = elapsed_days c2 /\ due c = due c2 /\
               last_review c = last_review c2).
  { destruct Hc9 as [->|[s ->]]; cbn; unfold in_bounds, whole; cbn;
      (split_and!; [done|done|done|by exists n5|by exists n6|by exists n8|done..]). }
  destruct Hc as (Hb & He & Hd & Hl). split; [done|]. split; [congruence|].
  split; [exists v1; split; [done|congruence]|].
  rewrite Hl. exact Hl2.
Qed.

(** The errors of the loop only grow, and without errors every entry is well
    formed and the keys found come from the entries. *)
Lemma scan_ok (items : list (JSValue Other)) : forall (acc : gmap string string * list Error),
  (foldl scan_item acc items).2 = [] ->
  acc.2 = [] /\ Forall well_formed items /\
  forall k v, (foldl scan_item acc items).1 !! k = Some v ->
    acc.1 !! k = Some v \/
    exists s, VString s ∈ items /\ JS.includes s "=" = true /\
              key_of s = k /\ value_of s = v.
Proof.
  induction items as [|item items IH]; intros acc H; simpl in *.
  - split; [done|]. split; [constructor | auto].
  - destruct (IH _ H) as (Hacc & Hwf & Hkeys).
    destruct item as [s|o]; simpl in Hacc.
    + destruct (JS.includes s "=") eqn:Hin; simpl in Hacc;
        [|by apply app_eq_nil in Hacc as [_ ?]].
      destruct (bool_decide (trim (nth 0 (JS.split s "=") "") ∈ validFields)) eqn:Hk;
        simpl in Hacc; [|by apply app_eq_nil in Hacc as [_ ?]].
      apply bool_decide_eq_true in Hk.
      split; [done|]. split.
      * constructor; [|done]. by exists s.
      * intros k v Hkv. destruct (Hkeys k v Hkv) as [Hold|(s' & Hs' & ?)].
        -- simpl in Hold. rewrite Hin in Hold. simpl in Hold.
           rewrite bool_decide_eq_true_2 in Hold by done. simpl in Hold.
           apply lookup_insert_Some in Hold as [[<- <-]|[_ Hold]]; [|by left].
           right. exists s. split; [left|done].
        -- right. exists s'. split; [by right|done].
    + by apply app_eq_nil in Hacc as [_ ?].
Qed.

Lemma validation_run (items : list (JSValue Other)) :
  items <> [] ->
  exists parsed errors back,
    foldl scan_item (∅, []) items = (parsed, errors) /\
    validate_fields parsed (createEmptyCard, errors) = back /\
    validateAndParseFrontmatter (Some items)
    = mkResult back.2 (if (length back.2 =? 0)%nat then Some back.1 else None).
Proof.
  intros Hne. unfold validateAndParseFrontmatter.
  destruct items as [|i items]; [done|]. cbn [length Nat.eqb].
  destruct (foldl scan_item (∅, []) (i :: items)) as [parsed errors].
  exists parsed, errors, (validate_fields parsed (createEmptyCard, errors)).
  split; [done|]. split; [done|]. by destruct (validate_fields _ _).
Qed.

End Validation.

(** X21. [validateAndParseFrontmatter] gives a card exactly when it gives no
    error, so that [fromFrontmatter] returns that card or the errors and never
    falls back on a second [createEmptyCard()]; without data the card is the
    default card. *)
Theorem validation_gives_card_or_errors {number Other : Type}
    {RT : CardStorage.Runtime number Other}
    (srData : option (list (CardStorage.JSValue Other))) :
  let r := CardStorage.validateAndParseFrontmatter srData in
  ((exists c, errors r = [] /\ card r = Some c /\
              fromFrontmatter CardStorage.validateAndParseFrontmatter
                              CardStorage.createEmptyCard srData = inl c) \/
   (errors r <> [] /\ card r = None /\
    fromFrontmatter CardStorage.validateAndParseFrontmatter
                    CardStorage.createEmptyCard srData = inr (errors r))) /\
  (srData = None \/ srData = Some [] ->
   r = mkResult [] (Some CardStorage.createEmptyCard)).
Proof.
  intros r. split; [|by intros [->| ->]].
  subst r. unfold fromFrontmatter.
  destruct srData as [items|]; [|left; by eexists].
  destruct items as [|i items]; [left; by eexists|].
  destruct (validation_run (i :: items)) as (parsed & errs & back & _ & _ & ->); [done|].
  simpl. destruct back.2 as [|e l]; simpl.
  - left. by eexists.
  - by right.
Qed.

(** X22. Data that is accepted is complete: when a non-empty list gives no
    error, each of its entries is a string [key=value] whose key is one of
    the nine fields, and each field other than [last_review] is the key of
    some entry. *)
Theorem accepted_data_is_complete {number Other : Type}
    {RT : CardStorage.Runtime number Other}
    (items : list (CardStorage.JSValue Other)) :
  items <> [] ->
  errors (CardStorage.validateAndParseFrontmatter (Some items)) = [] ->
  Forall CardStorage.well_formed items /\
  forall f, f ∈ CardStorage.requiredFields ->
    exists s, CardStorage.VString s ∈ items /\ JS.includes s "=" = true /\
              CardStorage.key_of s = f.
Proof.
  intros Hne Herr.
  destruct (validation_run items Hne) as (parsed & errs & [c e] & Hscan & Hval & Hr).
  rewrite Hr in Herr. simpl in Herr. subst e.
  apply fields_ok in Hval as (-> & Hreq & _).
  pose proof (scan_ok items (∅, [])) as Hs. rewrite Hscan in Hs.
  destruct (Hs eq_refl) as (_ & Hwf & Hkeys). split; [done|].
  intros f Hf. destruct (Hreq f Hf) as [v Hv].
  destruct (Hkeys f v Hv) as [Hempty|(s & Hs1 & Hs2 & Hs3 & _)].
  - simpl in Hempty. by rewrite lookup_empty in Hempty.
  - by exists s.
Qed.

(** X23. A card read from data is within bounds: stability and scheduled days
    are at least 0, difficulty is between 0 and 10, the three counts are whole
    numbers that are at least 0, the due date is the date of an entry, and
    [elapsed_days], which is not stored, is that of an empty card. *)
Theorem accepted_card_in_bounds {number Other : Type}
    {RT : CardStorage.Runtime number Other}
    (items : list (CardStorage.JSValue Other)) (c : CardStorage.FSRSCard number) :
  items <> [] ->
  card (CardStorage.validateAndParseFrontmatter (Some items)) = Some c ->
  CardStorage.in_bounds c /\
  CardStorage.elapsed_days c = CardStorage.elapsed_days CardStorage.createEmptyCard /\
  exists s, CardStorage.VString s ∈ items /\ CardStorage.key_of s = "due" /\
            CardStorage.Date_parse (CardStorage.value_of s) = Some (CardStorage.due c).
Proof.
  intros Hne Hcard.
  destruct (validation_run items Hne) as (parsed & errs & [c' e] & Hscan & Hval & Hr).
  rewrite Hr in Hcard. simpl in Hcard.
  destruct e as [|x e]; [|done]. simpl in Hcard. injection Hcard as ->.
  apply fields_ok in Hval as (-> & _ & Hb & He & (v & Hv & Hd) & _).
  split; [done|]. split; [done|].
  pose proof (scan_ok items (∅, [])) as Hs. rewrite Hscan in Hs.
  destruct (Hs eq_refl) as (_ & _ & Hkeys).
  destruct (Hkeys "due" v Hv) as [Hempty|(s & Hs1 & _ & Hs3 & Hs4)].
  - simpl in Hempty. by rewrite lookup_empty in Hempty.
  - exists s. by rewrite Hs4.
Qed.

Lemma accepted_data_is_complete_witness :
  (review_data <> [] /\
   errors (CardStorage.validateAndParseFrontmatter (RT := whole_runtime) (Some review_data))
   = []) /\
  Forall (CardStorage.well_formed (RT := whole_runtime)) review_data /\
  forall f, f ∈ CardStorage.requiredFields ->
    exists s, CardStorage.VString s ∈ review_data /\ JS.includes s "=" = true /\
              CardStorage.key_of (RT := whole_runtime) s = f.
Proof.
  split; [split; [discriminate | reflexivity]|].
  apply (accepted_data_is_complete (RT := whole_runtime) review_data);
    [discriminate | reflexivity].
Defined.

Lemma accepted_card_in_bounds_witness :
  (review_data <> [] /\
   card (CardStorage.validateAndParseFrontmatter (RT := whole_runtime) (Some review_data))
   = Some review_card) /\
  CardStorage.in_bounds (RT := whole_runtime) review_card /\
  CardStorage.elapsed_days review_card = CardStorage.elapsed_days empty_card /\
  exists s, CardStorage.VString s ∈ review_data /\
            CardStorage.key_of (RT := whole_runtime) s = "due" /\
            CardStorage.Date_parse (Runtime := whole_runtime)
              (CardStorage.value_of (RT := whole_runtime) s)
            = Some (CardStorage.due review_card).
Proof.
  split; [split; [discriminate | reflexivity]|].
  apply (accepted_card_in_bounds (RT := whole_runtime) review_data review_card);
    [discriminate | reflexivity].
Defined.

(** ** Written data is read back *)

Section RoundTrip.

Import JS CardStorage.

Context {number Other : Type} {RT : Runtime number Other}.

Local Abbreviation Error := (ValidationError (JSValue Other)).

Lemma split_plain v : forall cur,
  includes v "=" = false -> split_from "=" 0 cur v = [cur ++ v].
Proof.
  induction v as [|c v IH]; intros cur Hv; cbn [split_from].
  - by rewrite append_nil_r.
  - cbn [includes] in Hv. apply orb_false_iff in Hv as [Hs Hv].
    rewrite Hs, IH by done. by rewrite append_assoc.
Qed.

Lemma split_entry k v :
  includes k "=" = false -> includes v "=" = false ->
  split (k ++ "=" ++ v) "=" = [k; v].
Proof.
  intros Hk Hv. unfold split.
  assert (H : forall cur, split_from "=" 0 cur (k ++ "=" ++ v) = [cur ++ k; v]).
  { induction k as [|c k IH]; intros cur.
    - rewrite append_nil_l, append_nil_r, append_cons, append_nil_l.
      cbn [split_from startsWith]. rewrite startsWith_nil. cbn.
      by rewrite split_plain, append_nil_l.
    - cbn [includes] in Hk. apply orb_false_iff in Hk as [Hs Hk].
      rewrite append_cons. cbn [split_from].
      assert (Hs' : startsWith (String c (k ++ "=" ++ v)) "=" = false).
      { cbn [startsWith] in Hs |- *. rewrite startsWith_nil in Hs |- *. done. }
      rewrite Hs', IH by done. by rewrite append_assoc. }
  by rewrite H, append_nil_l.
Qed.

Lemma scan_entry (acc : gmap string string * list Error) k v :
  k ∈ validFields -> trim k = k -> includes k "=" = false -> plain v ->
  scan_item acc (VString (k ++ "=" ++ v)) = (<[k := v]> acc.1, acc.2).
Proof.
  intros Hin Hk Hne [Hv Ht]. unfold scan_item.
  rewrite (includes_append k ("=" ++ v) "=")
    by (rewrite append_cons; cbn [includes startsWith]; by rewrite startsWith_nil).
  cbn [negb]. rewrite split_entry by done. cbn [nth].
  rewrite Hk, Ht, bool_decide_eq_true_2 by done. done.
Qed.

Lemma scan_entries (entries : list (string * string)) :
  forall acc : gmap string string * list Error,
  (forall k v, (k, v) ∈ entries ->
     k ∈ validFields /\ trim k = k /\ includes k "=" = false /\ plain v) ->
  foldl scan_item acc (VString <$> ((fun kv => kv.1 ++ "=" ++ kv.2) <$> entries))
  = (foldl (fun m kv => <[kv.1 := kv.2]> m) acc.1 entries, acc.2).
Proof.
  induction entries as [|[k v] entries IH]; intros acc H; [by destruct acc|].
  cbn [fmap list_fmap foldl fst snd].
  destruct (H k v) as (H1 & H2 & H3 & H4); [left|].
  rewrite scan_entry by done. rewrite IH; [done|].
  intros k' v' Hkv. apply H. by right.
Qed.

Lemma valid_key_plain k : k ∈ validFields -> includes k "=" = false.
Proof.
  unfold validFields. intros Hk.
  repeat (apply elem_of_cons in Hk as [->|Hk]; [reflexivity|]).
  by apply elem_of_nil in Hk.
Qed.

Lemma date_read parsed field d (c : FSRSCard number) (e : list Error) required :
  parsed !! field = Some (toISOString d) -> reads_date d ->
  validateAndParseDate parsed field required (c, e) = (set_date field d c, e).
Proof.
  intros Hp [_ Hd]. unfold validateAndParseDate. by rewrite Hp, Hd.
Qed.

Lemma number_read parsed field x validator (c : FSRSCard number) (e : list Error) :
  parsed !! field = Some (num_toString x) -> reads_number x -> validator x = true ->
  validateAndParseNumber parsed field validator true true (c, e)
  = (set_number field x c, e).
Proof.
  intros Hp [_ Hx] Hv. unfold validateAndParseNumber. by rewrite Hp, Hx, Hv.
Qed.

Lemma count_read parsed field x (c : FSRSCard number) (e : list Error) :
  parsed !! field = Some (num_toString x) -> reads_count x ->
  validateAndParseNumber parsed field at_least_0 false true (c, e)
  = (set_number field x c, e).
Proof.
  intros Hp ([_ Hx] & Hv & Hfl & Heq). unfold validateAndParseNumber.
  rewrite Hp, Hx, Hv. cbn [negb andb]. by rewrite Hfl, Heq.
Qed.

Lemma state_read parsed s (c : FSRSCard number) (e : list Error) :
  parsed !! "state" = Some (state_toString s) -> reads_state s ->
  validateAndParseState parsed (c, e) = (set_state s c, e).
Proof.
  intros Hp (_ & n & Hn & H0 & H3 & Hi & Hs). unfold validateAndParseState.
  rewrite Hp, Hn, H0, H3, Hi. cbn [negb orb]. unfold state_of_number in Hs.
  repeat (destruct (num_eqb n _); [by injection Hs as <-|]). done.
Qed.

(** X24. What [formatSRData] writes is read back: for a card within bounds
    whose values the runtime prints and parses back, validating the written
    list gives no error and the card itself, up to [elapsed_days], which is
    not written, and to a missing [last_review]. *)
Theorem formatSRData_reads_back (c : FSRSCard number) :
  reads_back c ->
  validateAndParseFrontmatter (Some (VString <$> formatSRData c))
  = mkResult [] (Some (stored c)).
Proof.
  intros (Hk & Hdue & Hlast & [Hst Vst] & [Hdi Vdi] & Hre & Hla & [Hsc Vsc] & Hle & Hsta).
  set (entries :=
    ([("due", toISOString (due c))] ++
     match last_review c with
     | Some d => [("last_review", toISOString d)]
     | None => []
     end ++
     [("stability", num_toString (stability c));
      ("difficulty", num_toString (difficulty c));
      ("state", state_toString (state c));
      ("reps", num_toString (reps c));
      ("lapses", num_toString (lapses c));
      ("scheduled_days", num_toString (scheduled_days c));
      ("learning_steps", num_toString (learning_steps c))])%list).
  assert (Hfmt : formatSRData c = (fun kv => kv.1 ++ "=" ++ kv.2) <$> entries).
  { unfold formatSRData, entries. by destruct (last_review c). }
  assert (Hentries : forall k v, (k, v) ∈ entries ->
            k ∈ validFields /\ trim k = k /\ includes k "=" = false /\ plain v).
  { intros k v Hkv.
    assert (Hv : k ∈ validFields /\ plain v).
    { unfold entries in Hkv.
      apply elem_of_app in Hkv as [Hkv|Hkv];
        [|apply elem_of_app in Hkv as [Hkv|Hkv]].
      - apply list_elem_of_singleton in Hkv as [= -> ->].
        split; [set_solver | apply Hdue].
      - destruct (last_review c) as [d|] eqn:E; [|by apply elem_of_nil in Hkv].
        apply list_elem_of_singleton in Hkv as [= -> ->].
        split; [unfold validFields; set_solver | by apply Hlast].
      - repeat (apply elem_of_cons in Hkv as [Hkv|Hkv];
                [injection Hkv as -> ->; split; [unfold validFields; set_solver|]|]);
          [apply Hst|apply Hdi| |apply Hre|apply Hla|apply Hsc|apply Hle
          |by apply elem_of_nil in Hkv].
        destruct Hsta as [Ht _]. split; [by destruct (state c) | done]. }
    destruct Hv as [Hv1 Hv2]. split_and!; [done|by apply Hk|by apply valid_key_plain|done]. }
  unfold validateAndParseFrontmatter.
  assert (Hlen : (length (@VString Other <$> formatSRData c) =? 0)%nat = false).
  { rewrite Hfmt, !length_fmap. reflexivity. }
  rewrite Hlen, Hfmt, (scan_entries entries (∅, []) Hentries).
  cbn [fst snd]. subst entries. unfold validate_fields, stored.
  destruct (last_review c) as [d|] eqn:Hlr; cbn [app foldl fst snd];
    match goal with |- context [validateAndParseDate ?m "due" _ _] => set (parsed := m) end.
  - rewrite (date_read parsed "due" (due c)); [|by subst parsed; simplify_map_eq|done].
    rewrite (date_read parsed "last_review" d);
      [|by subst parsed; simplify_map_eq|by apply Hlast].
    rewrite (number_read parsed "stability" (stability c));
      [|by subst parsed; simplify_map_eq|done..].
    rewrite (number_read parsed "difficulty" (difficulty c));
      [|by subst parsed; simplify_map_eq|done..].
    rewrite (count_read parsed "reps" (reps c));
      [|by subst parsed; simplify_map_eq|done].
    rewrite (count_read parsed "lapses" (lapses c));
      [|by subst parsed; simplify_map_eq|done].
    rewrite (number_read parsed "scheduled_days" (scheduled_days c));
      [|by subst parsed; simplify_map_eq|done..].
    rewrite (count_read parsed "learning_steps" (learning_steps c));
      [|by subst parsed; simplify_map_eq|done].
    rewrite (state_read parsed (state c)); [|by subst parsed; simplify_map_eq|done].
    reflexivity.
  - rewrite (date_read parsed "due" (due c)); [|by subst parsed; simplify_map_eq|done].
    assert (Hno : forall st : FSRSCard number * list Error,
              validateAndParseDate parsed "last_review" false st = st).
    { intros [c' e']. unfold validateAndParseDate.
      assert (parsed !! "last_review" = None) as -> by (by subst parsed; simplify_map_eq).
      done. }
    rewrite Hno.
    rewrite (number_read parsed "stability" (stability c));
      [|by subst parsed; simplify_map_eq|done..].
    rewrite (number_read parsed "difficulty" (difficulty c));
      [|by subst parsed; simplify_map_eq|done..].
    rewrite (count_read parsed "reps" (reps c));
      [|by subst parsed; simplify_map_eq|done].
    rewrite (count_read parsed "lapses" (lapses c));
      [|by subst parsed; simplify_map_eq|done].
    rewrite (number_read parsed "scheduled_days" (scheduled_days c));
      [|by subst parsed; simplify_map_eq|done..].
    rewrite (count_read parsed "learning_steps" (learning_steps c));
      [|by subst parsed; simplify_map_eq|done].
    rewrite (state_read parsed (state c)); [|by subst parsed; simplify_map_eq|done].
    reflexivity.
Qed.

End RoundTrip.

Lemma formatSRData_reads_back_witness :
  CardStorage.reads_back (RT := whole_runtime) (Other := unit) review_card /\
  CardStorage.validateAndParseFrontmatter (RT := whole_runtime)
    (Some (CardStorage.VString <$> CardStorage.formatSRData (RT := whole_runtime) review_card))
  = mkResult [] (Some (CardStorage.stored (RT := whole_runtime) review_card)).
Proof.
  assert (H : CardStorage.reads_back (RT := whole_runtime) (Other := unit) review_card).
  { unfold CardStorage.reads_back, CardStorage.reads_count, CardStorage.reads_number,
      CardStorage.reads_date, CardStorage.reads_state, CardStorage.plain.
    split_and!; try reflexivity.
    - intros k Hk. unfold CardStorage.validFields in Hk.
      repeat (apply elem_of_cons in Hk as [->|Hk]; [reflexivity|]).
      by apply elem_of_nil in Hk.
    - intros d Hd. discriminate Hd.
    - exists 2%Z. split_and!; reflexivity. }
  split; [exact H|].
  exact (formatSRData_reads_back (RT := whole_runtime) review_card H).
Defined.

(** ** More on [isChildOf] and [Card.init] *)

(** X25. Two decks are children of each other only through their patterns:
    then they have as many cards and each pattern is a subset of the other,
    so that the inclusion of cards never makes a cycle of its own. *)
Theorem mutual_children_by_pattern {F : Type} (a b : Deck F) :
  isChildOf a b = true -> isChildOf b a = true ->
  length (cards a) = length (cards b) /\
  PatternHierarchy.isSubset (pattern a) (pattern b) = true /\
  PatternHierarchy.isSubset (pattern b) (pattern a) = true.
Proof.
  intros Hab Hba.
  assert (E1 : (length (cards b) <? length (cards a))%nat = false).
  { unfold isChildOf in Hab. by destruct (_ <? _)%nat. }
  assert (E2 : (length (cards a) <? length (cards b))%nat = false).
  { unfold isChildOf in Hba. by destruct (_ <? _)%nat. }
  unfold isChildOf in Hab, Hba. rewrite E1 in Hab. rewrite E2 in Hba.
  apply Nat.ltb_ge in E1, E2.
  assert (Hlen : length (cards a) = length (cards b)) by lia.
  split; [done|]. rewrite Hlen, Nat.eqb_refl, andb_true_r in Hab, Hba.
  rewrite andb_diag in Hab, Hba.
  destruct (0 <? length (cards b))%nat; [|done].
  destruct (forallb _ (map path (cards a))); [|done].
  destruct (forallb _ (map path (cards b))); [|done]. done.
Qed.

Lemma mutual_children_by_pattern_witness :
  (isChildOf (emptyDeck "**/*") (emptyDeck "**/**") = true /\
   isChildOf (emptyDeck "**/**") (emptyDeck "**/*") = true) /\
  length (cards (emptyDeck "**/*")) = length (cards (emptyDeck "**/**")) /\
  PatternHierarchy.isSubset "**/*" "**/**" = true /\
  PatternHierarchy.isSubset "**/**" "**/*" = true.
Proof.
  split; [split; reflexivity|].
  apply (mutual_children_by_pattern (emptyDeck "**/*") (emptyDeck "**/**"));
    reflexivity.
Defined.

(** X26. Along strictly growing decks with cards [isChildOf] is transitive:
    there it is the inclusion of the paths of the cards, whatever the
    patterns. *)
Theorem card_inclusion_is_transitive {F : Type} (a b c : Deck F) :
  0 < length (cards a) ->
  length (cards a) < length (cards b) ->
  length (cards b) < length (cards c) ->
  isChildOf a b = true -> isChildOf b c = true -> isChildOf a c = true.
Proof.
  intros Ha Hab Hbc. unfold isChildOf.
  repeat match goal with
  | |- context [(?x <? ?y)%nat] =>
      first [replace (x <? y)%nat with true by (symmetry; apply Nat.ltb_lt; lia)
            |replace (x <? y)%nat with false by (symmetry; apply Nat.ltb_ge; lia)]
  | |- context [(?x =? ?y)%nat] =>
      replace (x =? y)%nat with false by (symmetry; apply Nat.eqb_neq; lia)
  end.
  cbn [andb]. rewrite !andb_false_r.
  rewrite !forallb_forall. intros H1 H2 p Hp.
  specialize (H1 p Hp). apply existsb_exists in H1 as (q & Hq & Hpq).
  apply String.eqb_eq in Hpq as <-. by apply H2.
Qed.

Lemma card_inclusion_is_transitive_witness :
  (0 < length (cards growing_1) /\
   length (cards growing_1) < length (cards growing_2) /\
   length (cards growing_2) < length (cards growing_3) /\
   isChildOf growing_1 growing_2 = true /\ isChildOf growing_2 growing_3 = true) /\
  isChildOf growing_1 growing_3 = true.
Proof.
  split; [split_and!; (reflexivity || (simpl; lia))|].
  apply (card_inclusion_is_transitive growing_1 growing_2 growing_3);
    (reflexivity || (simpl; lia)).
Defined.

(** X27. A file without stored data always becomes a new card: when the
    frontmatter is missing, or has no [spaced-repetition] list or an empty
    one, [Card.init] returns a card, never errors, with the path of the file
    and the empty card of ts-fsrs. *)
Theorem file_without_data_is_a_new_card {number Other FrontMatterCache : Type}
    {RT : CardStorage.Runtime number Other}
    (flashcard_question : FrontMatterCache -> option string)
    (spaced_repetition : FrontMatterCache -> option (list (CardStorage.JSValue Other)))
    (file : TFile) (frontmatter : option FrontMatterCache) :
  frontmatter ≫= spaced_repetition = None \/ frontmatter ≫= spaced_repetition = Some [] ->
  exists c,
    Card_init flashcard_question spaced_repetition
              CardStorage.validateAndParseFrontmatter CardStorage.createEmptyCard
              file frontmatter
    = inl c /\
    path c = file_path file /\ sr c = CardStorage.createEmptyCard.
Proof.
  intros H. unfold Card_init, fromFrontmatter.
  assert (Hv : CardStorage.validateAndParseFrontmatter (frontmatter ≫= spaced_repetition)
               = mkResult [] (Some CardStorage.createEmptyCard)).
  { by destruct H as [-> | ->]. }
  rewrite Hv. cbn. by eexists.
Qed.

Lemma file_without_data_is_a_new_card_witness :
  (Some ([] : list (CardStorage.JSValue unit)) ≫= Some = None \/
   Some ([] : list (CardStorage.JSValue unit)) ≫= Some = Some []) /\
  exists c,
    Card_init (fun _ => Some "Why?") Some
              (CardStorage.validateAndParseFrontmatter (RT := whole_runtime))
              empty_card file_good (Some [])
    = inl c /\
    path c = file_path file_good /\ sr c = empty_card.
Proof.
  split; [by right|].
  apply (file_without_data_is_a_new_card (RT := whole_runtime)
           (fun _ : list (CardStorage.JSValue unit) => Some "Why?") Some file_good
           (Some [])).
  by right.
Defined.

(** ** The name of a deck *)

Section Names.

Import JS.

(** [s] does not have the character [c]. *)
Local Abbreviation lacks c s := (includes s (String c "") = false).

Lemma includes_char_cons c d s :
  includes (String d s) (String c "") = Ascii.eqb c d || includes s (String c "").
Proof. cbn [includes startsWith]. by rewrite startsWith_nil, andb_true_r. Qed.

Lemma lacks_append c a b : lacks c (a ++ b) <-> lacks c a /\ lacks c b.
Proof.
  induction a as [|d a IH]; rewrite ?append_nil_l, ?append_cons.
  - split; [by intros ? | by intros [_ ?]].
  - rewrite !includes_char_cons, !orb_false_iff, IH. tauto.
Qed.

Lemma replace_wildcards_lacks s : all_dot s = true -> lacks "*" (replace_wildcards s).
Proof.
  induction s as [|d s IH]; intros Hdot.
  - cbn. done.
  - cbn [replace_wildcards].
    destruct ((startsWith (String d s) "/*" || startsWith (String d s) "*")
              && all_dot (String d s)) eqn:E; [done|].
    rewrite Hdot, andb_true_r in E. apply orb_false_iff in E as [_ E].
    cbn [startsWith] in E. rewrite startsWith_nil, andb_true_r in E.
    cbn [all_dot] in Hdot. apply andb_true_iff in Hdot as [_ Hdot].
    rewrite includes_char_cons, E. by apply IH.
Qed.

Lemma replace_wildcards_sub c s : lacks c s -> lacks c (replace_wildcards s).
Proof.
  induction s as [|d s IH]; intros H; [by cbn|].
  cbn [replace_wildcards]. destruct (_ && _); [done|].
  rewrite includes_char_cons in H |- *. apply orb_false_iff in H as [-> H].
  by apply IH.
Qed.

(** The pieces of a split at [/] have no [/], and no character that the
    string does not have. *)
Lemma split_pieces s : forall cur p,
  p ∈ split_from "/" 0 cur s -> lacks "/" cur ->
  lacks "/" p /\ forall c, lacks c cur -> lacks c s -> lacks c p.
Proof.
  induction s as [|d s IH]; intros cur p Hp Hcur; cbn [split_from] in Hp.
  - apply list_elem_of_singleton in Hp as ->. auto.
  - cbn [startsWith] in Hp. rewrite startsWith_nil, andb_true_r in Hp.
    destruct (Ascii.eqb "/" d) eqn:Ed.
    + apply elem_of_cons in Hp as [->|Hp]; [auto|].
      destruct (IH "" p Hp eq_refl) as [H1 H2]. split; [done|].
      intros c _ Hc. rewrite includes_char_cons in Hc.
      apply orb_false_iff in Hc as [_ Hc]. by apply H2.
    + destruct (IH (cur ++ String d "") p Hp) as [H1 H2].
      { apply lacks_append. split; [done|]. by rewrite includes_char_cons, Ed. }
      split; [done|]. intros c Hc Hs. rewrite includes_char_cons in Hs.
      apply orb_false_iff in Hs as [Hcd Hs]. apply H2; [|done].
      apply lacks_append. split; [done|]. by rewrite includes_char_cons, Hcd.
Qed.

Lemma path_parts_lacks s p :
  p ∈ path_parts s -> lacks "/" p /\ forall c, lacks c s -> lacks c p.
Proof.
  unfold path_parts, split. intros [_ Hp]%list_elem_of_filter.
  destruct (split_pieces s "" p Hp eq_refl) as [H1 H2]. split; [done|].
  intros c Hc. by apply H2.
Qed.

Lemma last_elem {A : Type} (l : list A) x : last l = Some x -> x ∈ l.
Proof.
  intros (l' & ->)%last_Some. apply elem_of_app. right. by left.
Qed.

(** [split] at [/] of two strings joined by [/]. *)
Lemma split_join a b : forall cur,
  split_from "/" 0 cur (a ++ "/" ++ b)
  = (split_from "/" 0 cur a ++ split_from "/" 0 "" b)%list.
Proof.
  induction a as [|d a IH]; intros cur.
  - rewrite append_nil_l, append_cons, append_nil_l. cbn [split_from startsWith].
    by rewrite startsWith_nil.
  - rewrite append_cons. cbn [split_from startsWith]. rewrite !startsWith_nil, !andb_true_r.
    destruct (Ascii.eqb "/" d); cbn [String.length Nat.sub]; by rewrite IH.
Qed.

Lemma split_whole v : forall cur, lacks "/" v -> split_from "/" 0 cur v = [cur ++ v].
Proof.
  induction v as [|d v IH]; intros cur Hv; cbn [split_from].
  - by rewrite append_nil_r.
  - rewrite includes_char_cons in Hv. apply orb_false_iff in Hv as [Hd Hv].
    cbn [startsWith]. rewrite Hd. cbn [andb]. rewrite IH by done.
    by rewrite append_assoc.
Qed.

Lemma path_parts_join dir name :
  name <> "" -> lacks "/" name -> last (path_parts (dir ++ "/" ++ name)) = Some name.
Proof.
  intros Hne Hname. unfold path_parts, split.
  rewrite split_join, (split_whole name), append_nil_l by done.
  rewrite filter_app, filter_cons, filter_nil.
  destruct (decide (0 < String.length name)) as [_|Hn]; [by rewrite last_snoc|].
  destruct name; [done | simpl in Hn; lia].
Qed.

Lemma replace_wildcards_prefix w : lacks "*" w -> replace_wildcards (w ++ "/**") = w.
Proof.
  induction w as [|d w IH]; intros Hw.
  - by rewrite append_nil_l.
  - rewrite includes_char_cons in Hw. apply orb_false_iff in Hw as [Hd Hw].
    rewrite append_cons. cbn [replace_wildcards].
    assert (E : startsWith (String d (w ++ "/**")) "/*"
                || startsWith (String d (w ++ "/**")) "*" = false).
    { cbn [startsWith]. rewrite Hd. cbn [andb]. rewrite orb_false_r.
      destruct (Ascii.eqb "/" d); [|done]. cbn [andb].
      destruct w as [|e w]; [by rewrite append_nil_l|].
      rewrite append_cons. rewrite includes_char_cons in Hw.
      apply orb_false_iff in Hw as [He _]. cbn [startsWith]. by rewrite He. }
    rewrite E. cbn [andb]. by rewrite IH.
Qed.

Lemma no_star_match w : w <> "" -> lacks "*" w -> match_ w re_stars = None.
Proof.
  intros Hne Hw. destruct w as [|d w]; [done|].
  rewrite includes_char_cons in Hw. apply orb_false_iff in Hw as [Hd _].
  unfold match_, re_stars. cbn [anchored_start anchored_end atoms match_here].
  by rewrite Hd.
Qed.

Lemma no_dot_char_lacks s : includes s "." = false -> no_dot_char s = true.
Proof.
  induction s as [|d s IH]; [done|]. rewrite includes_char_cons.
  intros [Hd Hs]%orb_false_iff. cbn [no_dot_char].
  rewrite Ascii.eqb_sym, Hd. by apply IH.
Qed.

Lemma replace_extension_last base ext :
  includes base "." = false -> includes ext "." = false ->
  replace_extension (base ++ "." ++ ext) = base.
Proof.
  intros Hb He. induction base as [|d base IH].
  - rewrite append_nil_l, append_cons, append_nil_l. cbn [replace_extension].
    by rewrite no_dot_char_lacks.
  - rewrite includes_char_cons in Hb. apply orb_false_iff in Hb as [Hd Hb].
    rewrite append_cons. cbn [replace_extension].
    rewrite Ascii.eqb_sym, Hd. cbn [andb]. by rewrite IH.
Qed.

End Names.

(** X28. The name of a directory pattern is the name of the directory: for
    a path [dir/name] without [*], [name] not empty and without [/], the deck
    of the pattern [dir/name/**] is named [name]. *)
Theorem getName_of_directory {F : Type} (dir name : string) (cards : list (Card F)) :
  JS.includes dir "*" = false -> JS.includes name "*" = false ->
  JS.includes name "/" = false -> name <> "" ->
  getName (mkDeck ((dir ++ "/" ++ name) ++ "/**") cards) = name.
Proof.
  intros Hdir Hname Hslash Hne.
  assert (Hw : JS.includes (dir ++ "/" ++ name) "*" = false).
  { apply lacks_append. split; [done|]. by apply lacks_append. }
  assert (Hwne : dir ++ "/" ++ name <> "").
  { intros H. apply (f_equal String.length) in H. rewrite !append_length in H.
    simpl in H. lia. }
  unfold getName. cbn [pattern].
  assert (Hdiff : forall q, String.length q <= 4 ->
            String.eqb ((dir ++ "/" ++ name) ++ "/**") q = false).
  { intros q Hq. apply String.eqb_neq. intros H.
    apply (f_equal String.length) in H. rewrite !append_length in H.
    destruct name; [done|]. simpl in H. lia. }
  rewrite !Hdiff by (simpl; lia). cbn [orb].
  rewrite (includes_append (dir ++ "/" ++ name) "/**" "*") by reflexivity.
  rewrite replace_wildcards_prefix by done.
  destruct (String.eqb_spec (dir ++ "/" ++ name) "") as [|_]; [done|].
  rewrite no_star_match by done. cbn [negb andb].
  by rewrite path_parts_join.
Qed.

Lemma getName_of_directory_witness :
  (JS.includes "Work" "*" = false /\ JS.includes "Math" "*" = false /\
   JS.includes "Math" "/" = false /\ "Math" <> "") /\
  getName (mkDeck (("Work" ++ "/" ++ "Math") ++ "/**") [note]) = "Math".
Proof.
  split; [split_and!; (reflexivity || discriminate)|].
  apply (getName_of_directory "Work" "Math" [note]); (reflexivity || discriminate).
Defined.

(** X29. The name of a wildcard pattern has no wildcard and no separator:
    for a pattern of ASCII characters with [*] and without line terminators,
    [getName] returns [All] or a string without [*] and without [/]. *)
Theorem getName_of_wildcard_is_plain {F : Type} (this : Deck F) :
  ascii_only (pattern this) = true ->
  JS.includes (pattern this) "*" = true ->
  all_dot (pattern this) = true ->
  JS.includes (getName this) "*" = false /\ JS.includes (getName this) "/" = false.
Proof.
  intros _ Hstar Hdot. unfold getName.
  destruct (_ || _ || _ || _); [by split|]. rewrite Hstar.
  destruct (negb _ && _); [|by split].
  destruct (last (path_parts (replace_wildcards (pattern this)))) as [part|] eqn:E;
    [|by split].
  apply last_elem, path_parts_lacks in E as [H1 H2]. split; [|done].
  by apply H2, replace_wildcards_lacks.
Qed.

Lemma getName_of_wildcard_is_plain_witness :
  (ascii_only (pattern (emptyDeck "Work/Math/*.md")) = true /\
   JS.includes (pattern (emptyDeck "Work/Math/*.md")) "*" = true /\
   all_dot (pattern (emptyDeck "Work/Math/*.md")) = true) /\
  getName (emptyDeck "Work/Math/*.md") = "Math" /\
  JS.includes (getName (emptyDeck "Work/Math/*.md")) "*" = false /\
  JS.includes (getName (emptyDeck "Work/Math/*.md")) "/" = false.
Proof.
  split; [by repeat split|]. split; [reflexivity|].
  apply (getName_of_wildcard_is_plain (emptyDeck "Work/Math/*.md")); reflexivity.
Defined.

(** X30. The name of a file pattern is the name of the file without its
    extension: for a path [dir/base.ext] without [*], with [base] not empty
    and no [/] or [.] in [base] and [ext], the deck is named [base]. *)
Theorem getName_of_file {F : Type} (dir base ext : string) (cards : list (Card F)) :
  JS.includes dir "*" = false ->
  JS.includes (base ++ "." ++ ext) "*" = false ->
  JS.includes (base ++ "." ++ ext) "/" = false ->
  JS.includes base "." = false -> JS.includes ext "." = false ->
  base <> "" ->
  getName (mkDeck (dir ++ "/" ++ base ++ "." ++ ext) cards) = base.
Proof.
  intros Hdir Hstar Hslash Hb He Hne.
  assert (Hw : JS.includes (dir ++ "/" ++ base ++ "." ++ ext) "*" = false).
  { apply lacks_append. split; [done|]. by apply lacks_append. }
  assert (Hfile : base ++ "." ++ ext <> "").
  { intros H. apply (f_equal String.length) in H. rewrite !append_length in H.
    simpl in H. lia. }
  unfold getName. cbn [pattern].
  assert (Hdiff : forall q, JS.includes q "*" = true ->
            String.eqb (dir ++ "/" ++ base ++ "." ++ ext) q = false).
  { intros q Hq. apply String.eqb_neq. intros H. rewrite H in Hw. congruence. }
  rewrite !Hdiff by reflexivity. cbn [orb]. rewrite Hw.
  rewrite (includes_append dir ("/" ++ base ++ "." ++ ext) "/")
    by (rewrite append_cons; cbn [JS.includes JS.startsWith];
        by rewrite startsWith_nil).
  rewrite path_parts_join by done.
  by apply replace_extension_last.
Qed.

Lemma getName_of_file_witness :
  (JS.includes "Work" "*" = false /\
   JS.includes ("README" ++ "." ++ "md") "*" = false /\
   JS.includes ("README" ++ "." ++ "md") "/" = false /\
   JS.includes "README" "." = false /\ JS.includes "md" "." = false /\
   "README" <> "") /\
  getName (mkDeck ("Work" ++ "/" ++ "README" ++ "." ++ "md") [note]) = "README".
Proof.
  split; [split_and!; (reflexivity || discriminate)|].
  apply (getName_of_file "Work" "README" "md" [note]); (reflexivity || discriminate).
Defined.
